(** * Shallow embedding of the keyword tokenizer core

    Python strings are sequences of code points: they are modelled as
    [list Z].  Confidences (Python floats holding short decimal literals)
    are modelled as rationals [Q].  The Unicode character database that
    Python consults ([str.lower], [str.isspace], [str.isdigit], regex
    [\d], [\s], [re.IGNORECASE], [unicodedata.category]) is a type class
    [PyUnicode]: the general theorems hold for every instance, the
    concrete computations use [ascii_unicode], which agrees with Python on
    the characters they involve. *)

From Stdlib Require Import String Ascii List ZArith QArith Bool Lia.
Import ListNotations.
Open Scope Z_scope.

(* ------------------------------------------------------------------ *)
(** ** Python strings *)

Module PyStr.

Definition pystr := list Z.

(** UTF-8 decoding of a Rocq string literal, used to write the source's
    non-ASCII literals ("尺寸词", "メンズ", ...) as code points. *)
Fixpoint utf8_decode (bs : list nat) : list Z :=
  match bs with
  | [] => []
  | b0 :: rest =>
      if Nat.ltb b0 128 then Z.of_nat b0 :: utf8_decode rest
      else if Nat.ltb b0 224 then
        match rest with
        | b1 :: rest' =>
            (Z.of_nat (b0 - 192) * 64 + Z.of_nat (b1 - 128)) :: utf8_decode rest'
        | [] => []
        end
      else if Nat.ltb b0 240 then
        match rest with
        | b1 :: b2 :: rest' =>
            (Z.of_nat (b0 - 224) * 4096 + Z.of_nat (b1 - 128) * 64
             + Z.of_nat (b2 - 128)) :: utf8_decode rest'
        | _ => []
        end
      else
        match rest with
        | b1 :: b2 :: b3 :: rest' =>
            (Z.of_nat (b0 - 240) * 262144 + Z.of_nat (b1 - 128) * 4096
             + Z.of_nat (b2 - 128) * 64 + Z.of_nat (b3 - 128)) :: utf8_decode rest'
        | _ => []
        end
  end.

Definition u (s : string) : pystr :=
  utf8_decode (map nat_of_ascii (list_ascii_of_string s)).

Fixpoint str_eqb (a b : pystr) : bool :=
  match a, b with
  | [], [] => true
  | x :: a', y :: b' => Z.eqb x y && str_eqb a' b'
  | _, _ => false
  end.

(** Python [s < t] on strings: lexicographic order on code points. *)
Fixpoint str_ltb (a b : pystr) : bool :=
  match a, b with
  | [], [] => false
  | [], _ :: _ => true
  | _ :: _, [] => false
  | x :: a', y :: b' => if Z.ltb x y then true else if Z.eqb x y then str_ltb a' b' else false
  end.

(** [s in some_set] for a set literal of strings. *)
Definition mem (s : pystr) (l : list pystr) : bool := existsb (str_eqb s) l.

Definition is_ascii_alnum (c : Z) : bool :=
  ((48 <=? c) && (c <=? 57)) || ((65 <=? c) && (c <=? 90)) || ((97 <=? c) && (c <=? 122)).

(** Python slicing [s[a:b]] for [0 <= a <= b]. *)
Definition slice {A} (a b : nat) (l : list A) : list A := firstn (b - a) (skipn a l).

End PyStr.
Import PyStr.

(** The parts of Python's Unicode database used by the code. *)
Class PyUnicode := {
  py_lower : pystr -> pystr;   (* str.lower *)
  py_isspace : Z -> bool;      (* str.isspace / regex \s / str.strip *)
  py_isdigit : Z -> bool;      (* str.isdigit on one character *)
  py_isdecimal : Z -> bool;    (* regex \d *)
  py_isalpha : Z -> bool;      (* str.isalpha on one character *)
  py_isupper : Z -> bool;      (* str.isupper on one character *)
  py_ispunct : Z -> bool;      (* unicodedata.category(c).startswith('P') *)
  re_fold : Z -> Z             (* character folding of re.IGNORECASE *)
}.

Definition ascii_lower_char (c : Z) : Z := if (65 <=? c) && (c <=? 90) then c + 32 else c.

Definition ascii_isspace (c : Z) : bool :=
  ((9 <=? c) && (c <=? 13)) || ((28 <=? c) && (c <=? 32)) || (c =? 133) || (c =? 160)
  || (c =? 5760) || ((8192 <=? c) && (c <=? 8202)) || (c =? 8232) || (c =? 8233)
  || (c =? 8239) || (c =? 8287) || (c =? 12288).

Definition ascii_digit (c : Z) : bool := (48 <=? c) && (c <=? 57).

Definition ascii_punct (c : Z) : bool :=
  existsb (Z.eqb c) [33; 34; 35; 37; 38; 39; 40; 41; 42; 44; 45; 46; 47; 58; 59; 63; 64;
                     91; 92; 93; 95; 123; 125].

(** Python's tables restricted to ASCII (exact there; [isspace] is exact
    everywhere); other characters are caseless non-digit non-punctuation
    characters, which is what CJK and kana characters are. *)
#[export] Instance ascii_unicode : PyUnicode := {
  py_lower := map ascii_lower_char;
  py_isspace := ascii_isspace;
  py_isdigit := ascii_digit;
  py_isdecimal := ascii_digit;
  py_isalpha := fun c => ((65 <=? c) && (c <=? 90)) || ((97 <=? c) && (c <=? 122));
  py_isupper := fun c => (65 <=? c) && (c <=? 90);
  py_ispunct := ascii_punct;
  re_fold := ascii_lower_char
}.

(* ------------------------------------------------------------------ *)
(** ** enhanced_tagger.py: tags, candidates, results *)

Module Tagger.

(** [TagType] *)
Inductive Tag := BRAND | PRODUCT | AUDIENCE | SCENARIO | COLOR | SIZE | FEATURE | ATTRIBUTE.

Definition tag_eq_dec (a b : Tag) : {a = b} + {a <> b}.
Proof. decide equality. Defined.

Definition tag_eqb (a b : Tag) : bool := if tag_eq_dec a b then true else false.

Definition tag_value (t : Tag) : pystr :=
  match t with
  | BRAND => u "品牌词" | PRODUCT => u "商品词" | AUDIENCE => u "人群词"
  | SCENARIO => u "场景词" | COLOR => u "颜色词" | SIZE => u "尺寸词"
  | FEATURE => u "卖点词" | ATTRIBUTE => u "属性词"
  end.

(** [TAG_COMPATIBILITY], in source order. *)
Definition TAG_COMPATIBILITY : list ((Tag * Tag) * bool) :=
  [ ((SIZE, COLOR), false);
    ((SIZE, BRAND), false);
    ((COLOR, BRAND), false);
    ((PRODUCT, FEATURE), true);
    ((SCENARIO, AUDIENCE), true);
    ((ATTRIBUTE, PRODUCT), true);
    ((ATTRIBUTE, FEATURE), true) ].

Definition key_eqb (k1 k2 : Tag * Tag) : bool :=
  tag_eqb (fst k1) (fst k2) && tag_eqb (snd k1) (snd k2).

Fixpoint compat_lookup (k : Tag * Tag) (m : list ((Tag * Tag) * bool)) : option bool :=
  match m with
  | [] => None
  | (k', v) :: m' => if key_eqb k k' then Some v else compat_lookup k m'
  end.

(** [are_tags_compatible]: the key is ordered by Python string order. *)
Definition are_tags_compatible (tag1 tag2 : Tag) : bool :=
  if tag_eqb tag1 tag2 then true
  else
    let key := if str_ltb (tag_value tag1) (tag_value tag2) then (tag1, tag2) else (tag2, tag1) in
    match compat_lookup key TAG_COMPATIBILITY with
    | Some b => b
    | None => true
    end.

Record TagCandidate := mkCand {
  c_tag : Tag; c_conf : Q; c_method : pystr; c_source : pystr }.

Record TagResult := mkResult {
  r_token : pystr; r_tags : list Tag; r_primary : Tag; r_conf : Q;
  r_method : pystr; r_cands : list TagCandidate }.

(** [candidates.sort(key=lambda c: c.confidence, reverse=True)]: a stable
    sort by decreasing confidence (equal confidences keep their order). *)
Fixpoint insert_desc (c : TagCandidate) (l : list TagCandidate) : list TagCandidate :=
  match l with
  | [] => [c]
  | y :: l' => if negb (Qle_bool (c_conf c) (c_conf y)) then c :: l else y :: insert_desc c l'
  end.

Definition sort_desc (l : list TagCandidate) : list TagCandidate :=
  fold_left (fun acc c => insert_desc c acc) l [].

Definition default_result (token : pystr) : TagResult :=
  mkResult token [ATTRIBUTE] ATTRIBUTE (1#2)%Q (u "default") [].

(** [_create_result] *)
Definition create_result (token : pystr) (candidates : list TagCandidate) : TagResult :=
  match sort_desc candidates with
  | [] => default_result token
  | primary :: rest =>
      let secondary_tags :=
        map c_tag (filter (fun c => are_tags_compatible (c_tag primary) (c_tag c)
                                    && Qle_bool (7#10)%Q (c_conf c)) rest) in
      mkResult token (c_tag primary :: firstn 1 secondary_tags) (c_tag primary)
               (c_conf primary) (c_method primary) (sort_desc candidates)
  end.

End Tagger.

(* ------------------------------------------------------------------ *)
(** ** enhanced_tagger.py: Stage A, candidate generation *)

Module Candidates.
Import Tagger.

(** The dictionary manager, as the tagger uses it ([contains],
    [get_entry] returning an entry whose ["confidence"] key may be absent,
    [get_all_words]). *)
Record DictManager := mkDictManager {
  dm_contains : pystr -> pystr -> bool;
  dm_get_entry : pystr -> pystr -> option (option Q);
  dm_get_all_words : pystr -> list pystr }.

(** [language in (...)] where [language] may be [None]. *)
Definition lang_in (language : option pystr) (names : list pystr) : bool :=
  match language with None => true | Some l => mem l names end.

(** [self.stopwords] *)
Definition stopwords : list pystr :=
  [ u "for"; u "with"; u "and"; u "the"; u "a"; u "an"; u "of"; u "in"; u "on"; u "to";
    u "by"; u "or"; u "at"; u "as"; u "if"; u "so"; u "up"; u "it"; u "is"; u "be";
    u "do"; u "no"; u "mit"; u "für"; u "und"; u "der"; u "die"; u "das"; u "ein";
    u "eine"; u "wei"; u "gro"; u "gr"; u "rer"; u "de"; u "pour"; u "avec"; u "sans";
    u "en"; u "et"; u "le"; u "la"; u "les"; u "un"; u "une"; u "du"; u "au"; u "aux";
    u "ce"; u "se"; u "ne"; u "que"; u "qui"; u "ou"; u "vue"; u "para"; u "de";
    u "con"; u "en"; u "y"; u "el"; u "la"; u "los"; u "las"; u "un"; u "una"; u "ni";
    u "as"; u "os"; u "ba"; u "al"; u "del"; u "es"; u "se"; u "su"; u "si"; u "no";
    u "の"; u "を"; u "に"; u "は"; u "が"; u "で"; u "と"; u "も"; u "や"; u "さめ"; u "きめ";
    u "たたみ"; u "せる"; u "つける"; u "きい"; u "ける"; u "ない" ].

(** [self.product_keywords] *)
Definition product_keywords : list pystr :=
  [ u "シャツ"; u "Tシャツ"; u "パンツ"; u "ジャケット"; u "コート"; u "スカート"; u "バッグ"; u "ポーチ";
    u "リュック"; u "シューズ"; u "ブーツ"; u "ケース"; u "ベスト"; u "ザック"; u "hose"; u "jacke";
    u "mantel"; u "hemd"; u "bluse"; u "rock"; u "kleid"; u "tasche"; u "rucksack";
    u "schuhe"; u "stiefel"; u "pantalon"; u "veste"; u "manteau"; u "chemise";
    u "robe"; u "jupe"; u "sac"; u "chaussures"; u "bottes"; u "pantalón";
    u "chaqueta"; u "abrigo"; u "camisa"; u "vestido"; u "falda"; u "bolso";
    u "mochila"; u "zapatos"; u "botas"; u "shirt"; u "pants"; u "jacket"; u "coat";
    u "dress"; u "skirt"; u "bag"; u "backpack"; u "shoes"; u "boots"; u "shorts";
    u "tops"; u "legging"; u "leggings"; u "belt"; u "hat"; u "cap" ].

(** [self.audience_keywords] *)
Definition audience_keywords : list pystr :=
  [ u "メンズ"; u "レディース"; u "キッズ"; u "ベビー"; u "damen"; u "herren"; u "kinder"; u "baby";
    u "femme"; u "homme"; u "enfant"; u "mujer"; u "hombre"; u "niño"; u "niña";
    u "niños"; u "men"; u "women"; u "mens"; u "womens"; u "men's"; u "women's";
    u "kids"; u "boys"; u "girls"; u "unisex"; u "adult" ].

(** [self.scenario_keywords] *)
Definition scenario_keywords : list pystr :=
  [ u "ランニング"; u "トレーニング"; u "ヨガ"; u "スポーツ"; u "アウトドア"; u "キャンプ"; u "登山"; u "ハイキング";
    u "トレッキング"; u "sport"; u "fitness"; u "yoga"; u "outdoor"; u "camping";
    u "wandern"; u "running"; u "training"; u "hiking"; u "gym"; u "travel" ].

(** [self.feature_keywords] *)
Definition feature_keywords : list pystr :=
  [ u "軽量"; u "防水"; u "撥水"; u "速乾"; u "保温"; u "通気"; u "ストレッチ"; u "wasserdicht";
    u "atmungsaktiv"; u "leicht"; u "warm"; u "elastisch"; u "thermo"; u "imperméable";
    u "respirant"; u "léger"; u "rechargeable"; u "impermeable"; u "transpirable";
    u "ligero"; u "waterproof"; u "breathable"; u "lightweight"; u "compression";
    u "quick-dry"; u "thermal" ].

(** [self.attribute_keywords] *)
Definition attribute_keywords : list pystr :=
  [ u "半袖"; u "長袖"; u "フード付き"; u "タイプ"; u "langarm"; u "kurzarm"; u "mini"; u "haute";
    u "taille"; u "long"; u "court"; u "alta"; u "largo"; u "corto"; u "externo";
    u "long"; u "short"; u "high"; u "low"; u "waist"; u "sleeve"; u "wireless";
    u "bluetooth" ].

(** [self.unit_words] *)
Definition unit_words : list pystr :=
  [ u "码"; u "寸"; u "号"; u "cm"; u "mm"; u "m"; u "inch"; u "英寸"; u "厘米"; u "kg";
    u "g"; u "lb"; u "磅"; u "克"; u "千克"; u "ml"; u "l"; u "毫升"; u "升"; u "gb"; u "tb";
    u "mb" ].

(** [self.model_suffixes] *)
Definition model_suffixes : list pystr :=
  [ u "pro"; u "max"; u "plus"; u "mini"; u "lite"; u "ultra"; u "se" ].

Definition cand (t : Tag) (c : Q) (m src : string) : TagCandidate := mkCand t c (u m) (u src).

Section Patterns.
Context {U : PyUnicode}.

Fixpoint take_while (p : Z -> bool) (s : pystr) : pystr * pystr :=
  match s with
  | c :: s' => if p c then let (a, b) := take_while p s' in (c :: a, b) else ([], s)
  | [] => ([], [])
  end.

(** A pattern ending in [$] also matches before one final newline: the
    part of the subject the rest of the pattern has to match. *)
Definition strip_final_nl (s : pystr) : pystr :=
  match rev s with 10 :: r => rev r | _ => s end.

Definition no_nl (s : pystr) : bool := forallb (fun c => negb (c =? 10)) s.

Definition char_in (c : Z) (cls : pystr) : bool := existsb (Z.eqb c) cls.

Definition last_char (s : pystr) : option Z := match rev s with c :: _ => Some c | [] => None end.

(** Literal comparison, case-insensitive under [re.I]. *)
Fixpoint lit_eqb (ic : bool) (a b : pystr) : bool :=
  match a, b with
  | [], [] => true
  | x :: a', y :: b' =>
      (if ic then re_fold x =? re_fold y else x =? y) && lit_eqb ic a' b'
  | _, _ => false
  end.

(** [r'.+[色系]$'] *)
Definition color_pattern_1 (s : pystr) : bool :=
  let s' := strip_final_nl s in
  no_nl s' && Nat.leb 2 (length s')
  && match last_char s' with Some c => char_in c (u "色系") | None => false end.

(** [r'^(深|浅|亮|暗|淡).+色$'] *)
Definition color_pattern_2 (s : pystr) : bool :=
  let s' := strip_final_nl s in
  no_nl s' && Nat.leb 3 (length s')
  && match s' with p :: _ => char_in p (u "深浅亮暗淡") | [] => false end
  && match last_char s' with Some c => char_in c (u "色") | None => false end.

(** [r'^\d+\.?\d*\s*(units)$']: no unit starts with a digit, a dot or a
    space, so the only way to match is the greedy one. *)
Definition number_unit_full (ic : bool) (units : list pystr) (s : pystr) : bool :=
  let s' := strip_final_nl s in
  let (d1, r1) := take_while py_isdecimal s' in
  let r2 := match r1 with 46 :: r => snd (take_while py_isdecimal r) | _ => r1 end in
  let r3 := snd (take_while py_isspace r2) in
  negb (Nat.eqb (length d1) 0) && existsb (lit_eqb ic r3) units.

(** [r'^\d+x\d+$'] (re.I) *)
Definition dims_pattern (s : pystr) : bool :=
  let (d1, r1) := take_while py_isdecimal (strip_final_nl s) in
  negb (Nat.eqb (length d1) 0)
  && match r1 with
     | x :: r => (re_fold x =? re_fold 120) && negb (Nat.eqb (length r) 0)
                 && forallb py_isdecimal r
     | [] => false
     end.

(** [r'^\d+l$'] (re.I) *)
Definition litre_pattern (s : pystr) : bool :=
  let (d1, r1) := take_while py_isdecimal (strip_final_nl s) in
  negb (Nat.eqb (length d1) 0)
  && match r1 with [x] => re_fold x =? re_fold 108 | _ => false end.

(** [self.size_patterns], in order. *)
Definition size_pattern_match (s : pystr) : bool :=
  number_unit_full true [u "码"; u "寸"; u "号"; u "cm"; u "mm"; u "m"; u "inch"; u "英寸"; u "厘米"] s
  || number_unit_full true [u "kg"; u "g"; u "lb"; u "磅"; u "克"; u "千克"] s
  || number_unit_full true [u "ml"; u "l"; u "毫升"; u "升"] s
  || number_unit_full true [u "GB"; u "TB"; u "MB"; u "gb"; u "tb"; u "mb"] s
  || existsb (lit_eqb true (strip_final_nl s))
       [u "S"; u "M"; u "L"; u "XL"; u "XXL"; u "XXXL"; u "XS"; u "2XL"; u "3XL"; u "4XL"]
  || dims_pattern s
  || litre_pattern s
  || number_unit_full false [u "张"; u "片"; u "个"; u "只"; u "条"; u "支"; u "瓶"; u "盒";
                             u "包"; u "袋"; u "件"; u "套"; u "双"; u "对"] s.

(** [_match_patterns] *)
Definition match_patterns (token : pystr) : list TagCandidate :=
  (if color_pattern_1 token || color_pattern_2 token
   then [cand COLOR (85#100) "pattern" "color_pattern"] else [])
  ++ (if size_pattern_match token
      then [cand SIZE (95#100) "pattern" "size_pattern"] else []).

End Patterns.

Section Stage_A.
Context {U : PyUnicode}.
Variable D : DictManager.
(** The Spanish normaliser ([spanish_normalizer.py]) as the tagger reads
    it: [Some n] when [result.normalized != token_lower and result.changes]. *)
Variable spanish_normalize : pystr -> option pystr.

Definition entry_confidence (e : option (option Q)) : Q :=
  match e with Some (Some c) => c | _ => (9#10)%Q end.

(** [tag_dict_mapping], in order. *)
Definition tag_dict_mapping : list (string * Tag) :=
  [ ("brands", BRAND); ("products", PRODUCT); ("audiences", AUDIENCE);
    ("scenarios", SCENARIO); ("colors", COLOR); ("features", FEATURE);
    ("attributes", ATTRIBUTE) ]%string.

(** [_match_dictionary] *)
Definition match_dictionary (token : pystr) (language : option pystr) : list TagCandidate :=
  let token_lower := py_lower token in
  let normalized_token :=
    if lang_in language [u "es"; u "spanish"; u "西班牙语"]
    then spanish_normalize token_lower else None in
  flat_map (fun '(dict_name, tag_type) =>
      let dn := u dict_name in
      if dm_contains D dn token_lower then
        [mkCand tag_type (entry_confidence (dm_get_entry D dn token_lower)) (u "dict")
                (u "dict:" ++ dn)]
      else match normalized_token with
           | Some n =>
               if dm_contains D dn n then
                 [mkCand tag_type (entry_confidence (dm_get_entry D dn n) * (95#100))
                         (u "dict_normalized") (u "dict:" ++ dn)]
               else []
           | None => []
           end)
    tag_dict_mapping.

(** [_infer_by_rules] *)
Definition infer_by_rules (token : pystr) : list TagCandidate :=
  let tl := py_lower token in
  let hit kws := mem tl kws || mem token kws in
  (if hit product_keywords then [cand PRODUCT (85#100) "rule" "product_keywords"] else [])
  ++ (if hit audience_keywords then [cand AUDIENCE (85#100) "rule" "audience_keywords"] else [])
  ++ (if hit scenario_keywords then [cand SCENARIO (85#100) "rule" "scenario_keywords"] else [])
  ++ (if hit feature_keywords then [cand FEATURE (85#100) "rule" "feature_keywords"] else [])
  ++ (if hit attribute_keywords then [cand ATTRIBUTE (8#10) "rule" "attribute_keywords"] else []).

Definition common_words : list pystr :=
  [ u "the"; u "a"; u "an"; u "and"; u "or"; u "for"; u "with"; u "new"; u "pro"; u "max"; u "mini" ].

(** [str.isalpha()] on a whole string. *)
Definition str_isalpha (s : pystr) : bool :=
  negb (Nat.eqb (length s) 0) && forallb py_isalpha s.

(** [_infer_heuristic] *)
Definition infer_heuristic (token : pystr) (position : nat) : list TagCandidate :=
  let tl := py_lower token in
  (if Nat.ltb 2 (length token)
      && match token with c :: _ => py_isupper c | [] => false end
      && str_isalpha token && negb (mem tl common_words) && Nat.eqb position 0
   then [cand BRAND (65#100) "heuristic" "capitalized_first"] else [])
  ++ (if existsb py_isdigit token then [cand SIZE (7#10) "heuristic" "contains_digit"] else [])
  ++ (if mem tl model_suffixes && Nat.ltb 0 position
      then [cand ATTRIBUTE (75#100) "heuristic" "model_suffix"] else []).

(** [_get_candidates] *)
Definition get_candidates (token : pystr) (position : nat) (language : option pystr)
  : list TagCandidate :=
  if mem (py_lower token) stopwords then [cand ATTRIBUTE (85#100) "stopword" "stopword_list"]
  else
    let candidates := match_dictionary token language ++ match_patterns token
                      ++ infer_by_rules token in
    if forallb (fun c => negb (Qle_bool (7#10) (c_conf c))) candidates
    then candidates ++ infer_heuristic token position
    else candidates.

End Stage_A.

End Candidates.

(* ------------------------------------------------------------------ *)
(** ** japanese_compound_merger.py (texts only: [merge_to_strings]) *)

Module JaMerger.

Section Merger.
Context {U : PyUnicode}.

(** [_build_compound_dict] *)
Definition compound_dict : list (list pystr * pystr) :=
  [ ([u "腹"; u "巻"; u "き"], u "腹巻き"); ([u "腹"; u "巻"], u "腹巻");
    ([u "肌"; u "着"], u "肌着"); ([u "下"; u "着"], u "下着"); ([u "上"; u "着"], u "上着");
    ([u "入"; u "れ"], u "入れ"); ([u "出"; u "し"], u "出し"); ([u "取"; u "り"], u "取り");
    ([u "付"; u "け"], u "付け"); ([u "掛"; u "け"], u "掛け"); ([u "置"; u "き"], u "置き");
    ([u "吊"; u "り"], u "吊り"); ([u "巻"; u "き"], u "巻き"); ([u "畳"; u "み"], u "畳み");
    ([u "た"; u "た"; u "み"], u "たたみ"); ([u "さ"; u "め"], u "さめ");
    ([u "き"; u "め"], u "きめ"); ([u "し"; u "め"], u "しめ");
    ([u "トート"; u "バッグ"], u "トートバッグ"); ([u "ショルダー"; u "バッグ"], u "ショルダーバッグ");
    ([u "ボディ"; u "バッグ"], u "ボディバッグ"); ([u "ウエスト"; u "バッグ"], u "ウエストバッグ");
    ([u "エコ"; u "バッグ"], u "エコバッグ"); ([u "スーツ"; u "ケース"], u "スーツケース");
    ([u "キャリー"; u "ケース"], u "キャリーケース"); ([u "ペン"; u "ケース"], u "ペンケース");
    ([u "メイク"; u "ポーチ"], u "メイクポーチ"); ([u "ランニング"; u "シューズ"], u "ランニングシューズ");
    ([u "スニーカー"; u "シューズ"], u "スニーカーシューズ"); ([u "Tシャツ"], u "Tシャツ");
    ([u "T"; u "シャツ"], u "Tシャツ"); ([u "メンズ"], u "メンズ"); ([u "レディース"], u "レディース");
    ([u "キッズ"], u "キッズ"); ([u "ベビー"], u "ベビー"); ([u "ジュニア"], u "ジュニア");
    ([u "大"; u "容量"], u "大容量"); ([u "軽"; u "量"], u "軽量"); ([u "防"; u "水"], u "防水");
    ([u "耐"; u "水"], u "耐水"); ([u "保"; u "温"], u "保温"); ([u "保"; u "冷"], u "保冷");
    ([u "抗"; u "菌"], u "抗菌"); ([u "速"; u "乾"], u "速乾"); ([u "吸"; u "汗"], u "吸汗");
    ([u "通"; u "気"], u "通気"); ([u "アウト"; u "ドア"], u "アウトドア"); ([u "インドア"], u "インドア");
    ([u "オフィス"], u "オフィス"); ([u "ビジネス"], u "ビジネス"); ([u "カジュアル"], u "カジュアル");
    ([u "フォーマル"], u "フォーマル") ].

(** [self.suffix_patterns] *)
Definition suffix_patterns : list pystr :=
  [ u "き"; u "く"; u "け"; u "い"; u "う"; u "た"; u "て"; u "ない"; u "れる"; u "せる"; u "める";
    u "ける"; u "える"; u "げる"; u "べる"; u "ねる"; u "へる"; u "さ"; u "み"; u "め"; u "し"; u "じ" ].

(** [self.katakana_product_suffixes] *)
Definition katakana_product_suffixes : list pystr :=
  [ u "バッグ"; u "ポーチ"; u "ケース"; u "カバー"; u "ホルダー"; u "ボックス"; u "ラック"; u "スタンド"; u "マット";
    u "パッド"; u "シャツ"; u "パンツ"; u "スカート"; u "ジャケット"; u "コート"; u "シューズ"; u "ブーツ";
    u "サンダル"; u "スニーカー"; u "リュック"; u "ザック"; u "ベスト"; u "キャップ"; u "ハット" ].

(** [_build_must_merge_list] *)
Definition must_merge : list pystr :=
  [ u "トートバッグ"; u "ショルダーバッグ"; u "ボディバッグ"; u "ウエストバッグ"; u "エコバッグ"; u "スーツケース";
    u "キャリーケース"; u "ペンケース"; u "メイクポーチ"; u "ランニングシューズ"; u "スニーカー"; u "腹巻き"; u "肌着";
    u "下着"; u "大容量"; u "軽量"; u "防水"; u "アウトドア"; u "ビジネス"; u "カジュアル"; u "メンズ";
    u "レディース"; u "キッズ"; u "ベビー"; u "ジュニア" ]
.

Fixpoint list_beq_str (a b : list pystr) : bool :=
  match a, b with
  | [], [] => true
  | x :: a', y :: b' => str_eqb x y && list_beq_str a' b'
  | _, _ => false
  end.

Fixpoint dict_lookup (key : list pystr) (d : list (list pystr * pystr)) : option pystr :=
  match d with
  | [] => None
  | (k, v) :: d' => if list_beq_str key k then Some v else dict_lookup key d'
  end.

(** The inner [for length in range(min(4, n - i), 0, -1)] loop of
    [_dict_merge]: the first length whose tuple is a key. *)
Fixpoint dict_try (len : nat) (toks : list pystr) : option (nat * pystr) :=
  match len with
  | O => None
  | S l =>
      match dict_lookup (firstn len toks) compound_dict with
      | Some m => Some (len, m)
      | None => dict_try l toks
      end
  end.

(** [_dict_merge]; [fuel] bounds the iterations of the [while] loop. *)
Fixpoint dict_merge_go (fuel : nat) (toks : list pystr) : list pystr :=
  match fuel with
  | O => toks
  | S f =>
      match toks with
      | [] => []
      | t :: rest =>
          match dict_try (Nat.min 4 (length toks)) toks with
          | Some (len, m) => m :: dict_merge_go f (skipn len toks)
          | None => t :: dict_merge_go f rest
          end
      end
  end.

Definition dict_merge (toks : list pystr) : list pystr := dict_merge_go (length toks) toks.

(** [re.match(r'.*[cls]$', s)] *)
Definition ends_with_class (cls : string) (s : pystr) : bool :=
  let s' := Candidates.strip_final_nl s in
  Candidates.no_nl s'
  && match Candidates.last_char s' with Some c => Candidates.char_in c (u cls) | None => false end.

(** [re.match(r'^[cls]', s)] *)
Definition starts_with_class (cls : string) (s : pystr) : bool :=
  match s with c :: _ => Candidates.char_in c (u cls) | [] => false end.

(** [self.merge_patterns], in order. *)
Definition merge_patterns : list ((pystr -> bool) * (pystr -> bool)) :=
  [ (ends_with_class "巻掛置付吊掃取", starts_with_class "きくけいうたてっ");
    (ends_with_class "入出", starts_with_class "れりっ");
    (ends_with_class "き", starts_with_class "め");
    (ends_with_class "さ", starts_with_class "め");
    (ends_with_class "た", starts_with_class "たみめ") ].

Definition rule_should_merge (current next_token : pystr) : bool :=
  (mem next_token suffix_patterns && Nat.leb 1 (length current))
  || existsb (fun '(p, q) => p current && q next_token) merge_patterns.

Fixpoint rule_merge_go (toks : list pystr) : list pystr :=
  match toks with
  | current :: ((next_token :: rest) as tl) =>
      if rule_should_merge current next_token
      then (current ++ next_token) :: rule_merge_go rest
      else current :: rule_merge_go tl
  | l => l
  end.

(** [_rule_merge] *)
Definition rule_merge (toks : list pystr) : list pystr :=
  if Nat.ltb (length toks) 2 then toks else rule_merge_go toks.

(** [_is_katakana] *)
Definition is_katakana (text : pystr) : bool :=
  negb (Nat.eqb (length text) 0)
  && Nat.leb (length text)
       (Nat.mul 2 (length (filter (fun c => (12448 <=? c) && (c <=? 12543)) text))).

Fixpoint katakana_merge_go (dictionary_words : list pystr) (toks : list pystr) : list pystr :=
  match toks with
  | current :: ((next_token :: rest) as tl) =>
      if mem next_token katakana_product_suffixes && is_katakana current
         && (let merged := current ++ next_token in
             mem merged must_merge || mem (py_lower merged) dictionary_words
             || mem merged dictionary_words)
      then (current ++ next_token) :: katakana_merge_go dictionary_words rest
      else current :: katakana_merge_go dictionary_words tl
  | l => l
  end.

(** [_katakana_merge] *)
Definition katakana_merge (dictionary_words : list pystr) (toks : list pystr) : list pystr :=
  if Nat.ltb (length toks) 2 then toks else katakana_merge_go dictionary_words toks.

(** [merge_to_strings] (= [merge] followed by taking the texts), with the
    merger's [dictionary_words] as set by [set_dictionary]. *)
Definition merge_to_strings (dictionary_words : list pystr) (toks : list pystr) : list pystr :=
  match toks with
  | [] => []
  | _ => katakana_merge dictionary_words (rule_merge (dict_merge toks))
  end.

End Merger.

End JaMerger.

(* ------------------------------------------------------------------ *)
(** ** enhanced_tagger.py: [tag] and Stage C *)

Module EnhancedTagger.
Import Tagger Candidates.

Section Tag.
Context {U : PyUnicode}.
Variable D : DictManager.
Variable spanish_normalize : pystr -> option pystr.

(** [self.context_boost], keyed by pairs of strings as in the source. *)
Definition context_boost : list ((pystr * pystr) * Q) :=
  [ ((tag_value BRAND, tag_value PRODUCT), (5#100)%Q);
    ((tag_value PRODUCT, tag_value BRAND), (-1#10)%Q);
    ((tag_value COLOR, tag_value PRODUCT), (3#100)%Q);
    ((u "number", u "unit"), (3#10)%Q);
    ((tag_value AUDIENCE, tag_value PRODUCT), (2#100)%Q);
    ((tag_value SCENARIO, tag_value PRODUCT), (2#100)%Q) ].

Fixpoint boost_lookup (k : pystr * pystr) (m : list ((pystr * pystr) * Q)) : option Q :=
  match m with
  | [] => None
  | (k', v) :: m' =>
      if str_eqb (fst k) (fst k') && str_eqb (snd k) (snd k') then Some v else boost_lookup k m'
  end.

(** [str.isdigit()] on a whole string. *)
Definition str_isdigit (s : pystr) : bool :=
  negb (Nat.eqb (length s) 0) && forallb py_isdigit s.

(** [s.replace('.', '')] *)
Definition remove_dots (s : pystr) : pystr := filter (fun c => negb (c =? 46)) s.

Definition dummy_result : TagResult := default_result [].

(** The forced result of the number + unit rule. *)
Definition unit_result (result : TagResult) : TagResult :=
  mkResult (r_token result) [SIZE] SIZE (95#100)%Q (u "context") (r_cands result).

(** One iteration of the loop of [_apply_context_adjustments]. *)
Definition adjust_at (results : list TagResult) (tokens : list pystr) (i : nat) : TagResult :=
  let result0 := nth i results dummy_result in
  let prev_tag := if Nat.ltb 0 i then Some (r_primary (nth (i - 1) results dummy_result)) else None in
  let result :=
    if Nat.ltb 0 i
       && str_isdigit (remove_dots (nth (i - 1) tokens []))
       && mem (py_lower (nth i tokens [])) unit_words
    then unit_result result0 else result0 in
  let adjustment :=
    match prev_tag with
    | Some pt =>
        match boost_lookup (tag_value pt, tag_value (r_primary result)) context_boost with
        | Some b => b
        | None => 0%Q
        end
    | None => 0%Q
    end in
  if negb (Qeq_bool adjustment 0)
  then
    let x := (r_conf result + adjustment)%Q in
    let y := if Qle_bool 0 x then x else 0%Q in
    let new_confidence := if Qle_bool 1 y then 1%Q else y in
    mkResult (r_token result) (r_tags result) (r_primary result) new_confidence
             (r_method result) (r_cands result)
  else result.

(** [_apply_context_adjustments] *)
Definition apply_context_adjustments (results : list TagResult) (tokens : list pystr)
  : list TagResult :=
  if Nat.ltb (length results) 2 then results
  else map (adjust_at results tokens) (seq 0 (length results)).

(** [has_japanese] in [_merge_japanese_compounds] *)
Definition has_japanese (tokens : list pystr) : bool :=
  existsb (fun token => existsb (fun c => ((12352 <=? c) && (c <=? 12447))
                                        || ((12448 <=? c) && (c <=? 12543))
                                        || ((19968 <=? c) && (c <=? 40959))) token) tokens.

(** The words handed to [merger.set_dictionary]. *)
Definition all_dict_words : list pystr :=
  flat_map (fun dn => flat_map (fun w => [py_lower w; w]) (dm_get_all_words D (u dn)))
    ["products"; "brands"; "scenarios"; "features"; "attributes"; "colors"; "audiences"]%string.

(** [_merge_japanese_compounds] *)
Definition merge_japanese_compounds (tokens : list pystr) : list pystr :=
  if has_japanese tokens then JaMerger.merge_to_strings all_dict_words tokens else tokens.

(** The token list [tag] works on after its first statement. *)
Definition ja_prepare (language : option pystr) (tokens : list pystr) : list pystr :=
  if lang_in language [u "ja"; u "japanese"; u "日语"] then merge_japanese_compounds tokens
  else tokens.

(** First round of [tag]: [_create_result] on each token's candidates. *)
Definition stage_b (tokens : list pystr) (language : option pystr) : list TagResult :=
  map (fun '(i, token) => create_result token (get_candidates D spanish_normalize token i language))
      (combine (seq 0 (length tokens)) tokens).

(** [EnhancedTagger.tag] ([context] is not used by the code). *)
Definition tag (tokens : list pystr) (context : option pystr) (language : option pystr)
  : list TagResult :=
  let tokens := ja_prepare language tokens in
  apply_context_adjustments (stage_b tokens language) tokens.

End Tag.

End EnhancedTagger.

(* ------------------------------------------------------------------ *)
(** ** enhanced_pipeline.py: preset tags, batch processing *)

Module Pipeline.
Import Tagger Candidates EnhancedTagger.

(** An entry of [all_tokens]: [(start, text, preset tag or None, confidence)]. *)
Definition fragment := (nat * pystr * option Tag * Q)%type.

Definition frag_pos (f : fragment) : nat := let '(p, _, _, _) := f in p.
Definition frag_text (f : fragment) : pystr := let '(_, t, _, _) := f in t.

(** [all_tokens.sort(key=lambda x: x[0])], stable. *)
Fixpoint insert_by_pos (f : fragment) (l : list fragment) : list fragment :=
  match l with
  | [] => [f]
  | g :: l' => if Nat.ltb (frag_pos f) (frag_pos g) then f :: l else g :: insert_by_pos f l'
  end.

Definition sort_by_pos (l : list fragment) : list fragment :=
  fold_left (fun acc f => insert_by_pos f acc) l [].

(** [preset_tags[text]]: the dict comprehension keeps, for each text, the
    last fragment with a preset tag. *)
Definition preset_lookup (text : pystr) (all_tokens : list fragment) : option (Tag * Q) :=
  fold_left (fun acc '(_, t, tg, c) =>
               match tg with
               | Some g => if str_eqb t text then Some (g, c) else acc
               | None => acc
               end) all_tokens None.

(** Step 6 of [process]: [preset_conf >= result.confidence] replaces the
    result. *)
Definition apply_presets (all_tokens : list fragment) (tag_results : list TagResult)
  : list TagResult :=
  map (fun result =>
         match preset_lookup (r_token result) all_tokens with
         | Some (preset_tag, preset_conf) =>
             if Qle_bool (r_conf result) preset_conf
             then mkResult (r_token result) [preset_tag] preset_tag preset_conf (u "preset")
                           (r_cands result)
             else result
         | None => result
         end) tag_results.

Section Process.
Context {U : PyUnicode}.
Variable D : DictManager.
Variable spanish_normalize : pystr -> option pystr.

(** Steps 4 (from the collected fragments on) to 6 of [process]. *)
Definition process_tagging (fragments : list fragment) (cleaned : pystr)
  (language : option pystr) : list TagResult :=
  let all_tokens := sort_by_pos fragments in
  let tokens := map frag_text all_tokens in
  apply_presets all_tokens (tag D spanish_normalize tokens (Some cleaned) language).

End Process.

(** Outcome of a Python call: a value or a raised exception. *)
Inductive PyResult (A : Type) := Ok (a : A) | Raise (e : pystr).
Arguments Ok {A} a.
Arguments Raise {A} e.

(** The dictionary returned by [process] / a [TokenizeResponse]. *)
Record Output := mkOutput {
  original_keyword : pystr;
  out_tokens : list pystr;
  tagged_tokens : list (pystr * list Tag * Q);
  tag_summary : list (Tag * list pystr) }.

Definition empty_output (keyword : pystr) : Output := mkOutput keyword [] [] [].

Section Batch.
(** [pipeline.process] on one keyword (the pipeline keeps no state that
    one keyword's processing leaves for the next). *)
Variable process : pystr -> PyResult Output.

(** [EnhancedPipeline.process_batch] *)
Fixpoint process_batch (keywords : list pystr) : PyResult (list Output) :=
  match keywords with
  | [] => Ok []
  | keyword :: rest =>
      match process keyword with
      | Raise e => Raise e
      | Ok result =>
          match process_batch rest with
          | Ok results => Ok (result :: results)
          | Raise e => Raise e
          end
      end
  end.

Record BatchResponse := mkBatch { results : list Output; total : nat; success_count : nat }.

(** [tokenize_batch] (the API route), without its outer handler. *)
Definition tokenize_batch (keywords : list pystr) : BatchResponse :=
  mkBatch (map (fun k => match process k with Ok r => r | Raise _ => empty_output k end) keywords)
          (length keywords)
          (length (filter (fun k => match process k with Ok _ => true | Raise _ => false end)
                          keywords)).

End Batch.

End Pipeline.

(* ------------------------------------------------------------------ *)
(** ** span_extractor.py *)

Module SpanExtractor.
Import Tagger.

(** [SpanType] *)
Inductive SpanType := ST_BRAND | ST_MODEL | ST_FIXED_PHRASE | ST_NUMBER_UNIT.

(** The entry data stored at a trie node: ["tag"], ["confidence"], ["type"]. *)
Record PhraseData := mkData { pd_tag : Tag; pd_conf : Q; pd_type : SpanType }.

(** [TrieNode]: [is_end], [data], [children] (a dict from characters). *)
#[local] Set Warnings "-register-all".
Inductive TrieNode := TNode (is_end : bool) (data : option PhraseData)
                            (children : list (Z * TrieNode)).

Definition node_is_end (n : TrieNode) : bool := let '(TNode e _ _) := n in e.
Definition node_data (n : TrieNode) : option PhraseData := let '(TNode _ d _) := n in d.
Definition node_children (n : TrieNode) : list (Z * TrieNode) := let '(TNode _ _ ch) := n in ch.

Definition empty_node : TrieNode := TNode false None [].

(** [node.children[char]], when present. *)
Fixpoint child (c : Z) (ch : list (Z * TrieNode)) : option TrieNode :=
  match ch with
  | [] => None
  | (k, n) :: ch' => if k =? c then Some n else child c ch'
  end.

(** [node.children[char] = n]: replaces an existing entry, else adds one. *)
Fixpoint set_child (c : Z) (n : TrieNode) (ch : list (Z * TrieNode)) : list (Z * TrieNode) :=
  match ch with
  | [] => [(c, n)]
  | (k, m) :: ch' => if k =? c then (k, n) :: ch' else (k, m) :: set_child c n ch'
  end.

(** The loop of [Trie.insert], from [node] along [word]. *)
Fixpoint insert_path (word : list Z) (d : PhraseData) (node : TrieNode) : TrieNode :=
  match word with
  | [] => TNode true (Some d) (node_children node)
  | c :: w =>
      let sub := match child c (node_children node) with Some n => n | None => empty_node end in
      TNode (node_is_end node) (node_data node) (set_child c (insert_path w d sub) (node_children node))
  end.

Section Trie.
Context {U : PyUnicode}.

(** [Trie(case_sensitive=False)]: only its root is state. *)
Definition trie_insert (root : TrieNode) (word : pystr) (d : PhraseData) : TrieNode :=
  insert_path (py_lower word) d root.

(** The [for i in range(start, len(text_normalized))] loop of
    [search_longest]: the last position after a node with [is_end]. *)
Fixpoint walk (node : TrieNode) (rest : list Z) (i : nat) (last : option (nat * option PhraseData))
  : option (nat * option PhraseData) :=
  match rest with
  | [] => last
  | c :: r =>
      match child c (node_children node) with
      | None => last
      | Some n => walk n r (S i) (if node_is_end n then Some (S i, node_data n) else last)
      end
  end.

(** [Trie.search_longest] *)
Definition search_longest (root : TrieNode) (text : pystr) (start : nat)
  : option (pystr * nat * option PhraseData) :=
  let text_normalized := py_lower text in
  match walk root (skipn start text_normalized) start None with
  | Some (pos, d) =>
      let last_match := slice start pos text in
      match last_match with [] => None | _ => Some (last_match, pos, d) end
  | None => None
  end.

End Trie.

(** [Span] *)
Record Span := mkSpan {
  sp_start : nat; sp_end : nat; sp_text : pystr; sp_type : SpanType; sp_tag : Tag; sp_conf : Q }.

(** [SpanPhraseExtractor]: the two tries. *)
Record Extractor := mkExtractor { cjk_trie : TrieNode; latin_trie : TrieNode }.

Definition empty_extractor : Extractor := mkExtractor empty_node empty_node.

(** [_is_cjk_dominant] *)
Definition is_cjk_dominant (text : pystr) : bool :=
  Nat.ltb (length text)
    (Nat.mul 2 (length (filter (fun c => ((19968 <=? c) && (c <=? 40959))
                                        || ((12352 <=? c) && (c <=? 12543))) text))).

(** [_is_cjk_char] *)
Definition is_cjk_char (c : Z) : bool :=
  ((19968 <=? c) && (c <=? 40959)) || ((12352 <=? c) && (c <=? 12447))
  || ((12448 <=? c) && (c <=? 12543)).

Section Extract.
Context {U : PyUnicode}.

(** [add_phrase] *)
Definition add_phrase (ex : Extractor) (phrase : pystr) (tag : Tag) (confidence : Q)
  (span_type : SpanType) : Extractor :=
  let d := mkData tag confidence span_type in
  if is_cjk_dominant phrase
  then mkExtractor (trie_insert (cjk_trie ex) phrase d) (latin_trie ex)
  else mkExtractor (cjk_trie ex) (trie_insert (latin_trie ex) phrase d).

(** The alternatives of [number_unit_pattern], in order. *)
Definition number_units : list pystr :=
  [ u "码"; u "寸"; u "号"; u "cm"; u "mm"; u "m"; u "inch"; u "英寸"; u "厘米";
    u "kg"; u "g"; u "lb"; u "磅"; u "克"; u "千克";
    u "ml"; u "l"; u "毫升"; u "升";
    u "GB"; u "TB"; u "MB"; u "gb"; u "tb"; u "mb";
    u "张"; u "片"; u "个"; u "只"; u "条"; u "支"; u "瓶"; u "盒"; u "包"; u "袋"; u "件";
    u "套"; u "双"; u "对" ].

Fixpoint first_some {A} (f : A -> option nat) (l : list A) : option nat :=
  match l with
  | [] => None
  | x :: l' => match f x with Some r => Some r | None => first_some f l' end
  end.

Definition run_len (p : Z -> bool) (s : pystr) (i : nat) : nat :=
  length (fst (Candidates.take_while p (skipn i s))).

Definition try_units (s : pystr) (v : nat) : option nat :=
  first_some (fun un => if Candidates.lit_eqb true (firstn (length un) (skipn v s)) un
                        then Some (v + length un)%nat else None) number_units.

(** [number_unit_pattern.match(s, p)]: end of the match, exploring
    digits, an optional dot, digits, spaces, then one of the units, in the
    backtracking order of the [re] engine (greedy quantifiers longest first,
    alternatives left to right). *)
Definition match_number_unit (s : pystr) (p : nat) : option nat :=
  first_some (fun k1 =>
    let q := (p + k1)%nat in
    first_some (fun r =>
      first_some (fun k2 =>
        let t := (r + k2)%nat in
        first_some (fun k3 => try_units s (t + k3))
                   (rev (seq 0 (S (run_len py_isspace s t)))))
        (rev (seq 0 (S (run_len py_isdecimal s r)))))
      (if nth q s 0 =? 46 then [S q; q] else [q]))
    (rev (seq 1 (run_len py_isdecimal s p))).

(** [number_unit_pattern.finditer(text)]: [(start, end)] of each match. *)
Fixpoint finditer_go (fuel : nat) (s : pystr) (p : nat) : list (nat * nat) :=
  match fuel with
  | O => []
  | S f =>
      if Nat.ltb p (length s) then
        match match_number_unit s p with
        | Some e => (p, e) :: finditer_go f s e
        | None => finditer_go f s (S p)
        end
      else []
  end.

Definition finditer_number_unit (s : pystr) : list (nat * nat) := finditer_go (S (length s)) s 0.

(** [_match_latin_with_boundary] *)
Definition match_latin_with_boundary (ex : Extractor) (text text_lower : pystr) (start : nat)
  : option (pystr * nat * option PhraseData) :=
  if Nat.ltb 0 start && is_ascii_alnum (nth (start - 1) text_lower 0) then None
  else
    match search_longest (latin_trie ex) text_lower start with
    | Some (_, end_pos, data) =>
        if Nat.ltb end_pos (length text) && is_ascii_alnum (nth end_pos text_lower 0) then None
        else Some (slice start end_pos text, end_pos, data)
    | None => None
    end.

(** [_is_in_locked_range] *)
Definition is_in_locked_range (pos : nat) (locked : list (nat * nat)) : bool :=
  existsb (fun '(s, e) => Nat.leb s pos && Nat.ltb pos e) locked.

Definition span_of (start : nat) (r : pystr * nat * option PhraseData) : Span :=
  let '(matched_text, end_pos, data) := r in
  match data with
  | Some d => mkSpan start end_pos matched_text (pd_type d) (pd_tag d) (pd_conf d)
  | None => mkSpan start end_pos matched_text ST_FIXED_PHRASE ATTRIBUTE (9#10)%Q
  end.

(** The [while i < len(text)] loop of [extract]. *)
Fixpoint extract_loop (ex : Extractor) (text text_lower : pystr) (fuel i : nat)
  (spans : list Span) (locked : list (nat * nat)) : list Span * list (nat * nat) :=
  match fuel with
  | O => (spans, locked)
  | S f =>
      if Nat.ltb i (length text) then
        if is_in_locked_range i locked then extract_loop ex text text_lower f (S i) spans locked
        else
          let r := if is_cjk_char (nth i text 0) then search_longest (cjk_trie ex) text i
                   else match_latin_with_boundary ex text text_lower i in
          match r with
          | Some ((_, end_pos, _) as m) =>
              extract_loop ex text text_lower f end_pos (spans ++ [span_of i m])
                           (locked ++ [(i, end_pos)])
          | None => extract_loop ex text text_lower f (S i) spans locked
          end
      else (spans, locked)
  end.

Fixpoint insert_span (s : Span) (l : list Span) : list Span :=
  match l with
  | [] => [s]
  | x :: l' => if Nat.ltb (sp_start s) (sp_start x) then s :: l else x :: insert_span s l'
  end.

Fixpoint insert_range (r : nat * nat) (l : list (nat * nat)) : list (nat * nat) :=
  match l with
  | [] => [r]
  | x :: l' => if Nat.ltb (fst r) (fst x) then r :: l else x :: insert_range r l'
  end.

(** [SpanPhraseExtractor.extract] *)
Definition extract (ex : Extractor) (text : pystr) : list Span * list (nat * nat) :=
  let nu := finditer_number_unit text in
  let spans0 := map (fun '(a, b) => mkSpan a b (slice a b text) ST_NUMBER_UNIT SIZE (95#100)%Q) nu in
  let '(spans, locked) := extract_loop ex text (py_lower text) (S (length text)) 0 spans0 nu in
  (fold_left (fun acc s => insert_span s acc) spans [],
   fold_left (fun acc r => insert_range r acc) locked []).

End Extract.

End SpanExtractor.

(* ------------------------------------------------------------------ *)
(** ** script_segmenter.py *)

Module Segmenter.

(** [ScriptType] *)
Inductive ScriptType := CJK | KANA | HANGUL | LATIN | NUMBER | SPACE | PUNCT | OTHER.

Definition script_eq_dec (a b : ScriptType) : {a = b} + {a <> b}.
Proof. decide equality. Defined.

Definition script_eqb (a b : ScriptType) : bool := if script_eq_dec a b then true else false.

(** [Segment(text, script, start, end)]; [script] is [None] when the
    segment was flushed before any character set [current_script]. *)
Record Segment := mkSeg {
  seg_text : pystr; seg_script : option ScriptType; seg_start : nat; seg_end : nat }.

Definition in_range (lo hi c : Z) : bool := (lo <=? c) && (c <=? hi).

(** [_is_cjk] *)
Definition is_cjk (code : Z) : bool :=
  in_range 19968 40959 code || in_range 13312 19903 code || in_range 131072 173791 code
  || in_range 173824 177983 code || in_range 177984 178207 code
  || in_range 63744 64255 code || in_range 12032 12255 code.

(** [_is_kana] *)
Definition is_kana (code : Z) : bool :=
  in_range 12352 12447 code || in_range 12448 12543 code || in_range 12784 12799 code
  || in_range 65381 65439 code.

(** [_is_hangul] *)
Definition is_hangul (code : Z) : bool :=
  in_range 44032 55215 code || in_range 4352 4607 code || in_range 12592 12687 code.

(** [_is_latin] *)
Definition is_latin (code : Z) : bool :=
  in_range 65 90 code || in_range 97 122 code || in_range 192 255 code
  || in_range 256 383 code || in_range 384 591 code || in_range 7680 7935 code
  || in_range 65313 65338 code || in_range 65345 65370 code.

(** [str.strip()] is nonempty *)
Definition strip_nonempty `{PyUnicode} (s : pystr) : bool := existsb (fun c => negb (py_isspace c)) s.

(** [_can_merge]; a [None] script is in no set. *)
Definition can_merge (s1 s2 : option ScriptType) : bool :=
  let mergeable s := match s with Some LATIN | Some NUMBER | Some PUNCT => true | _ => false end in
  mergeable s1 && mergeable s2.

(** [_post_merge]: [current] and the remaining segments. *)
Fixpoint post_merge_go (current : Segment) (rest : list Segment) : list Segment :=
  match rest with
  | [] => [current]
  | next_seg :: rest' =>
      let gap := Z.of_nat (seg_start next_seg) - Z.of_nat (seg_end current) in
      if can_merge (seg_script current) (seg_script next_seg) && (gap <=? 1)
      then post_merge_go (mkSeg (seg_text current ++ repeat 32 (Z.to_nat gap) ++ seg_text next_seg)
                                (Some LATIN) (seg_start current) (seg_end next_seg)) rest'
      else current :: post_merge_go next_seg rest'
  end.

Definition post_merge (segments : list Segment) : list Segment :=
  match segments with
  | [] => []
  | s :: rest => post_merge_go s rest
  end.

Section Segment.
Context {U : PyUnicode}.

(** [_get_script_type] *)
Definition get_script_type (c : Z) : ScriptType :=
  if py_isspace c then SPACE
  else if py_isdigit c then NUMBER
  else if is_cjk c then CJK
  else if is_kana c then KANA
  else if is_hangul c then HANGUL
  else if is_latin c then LATIN
  else if py_ispunct c then PUNCT
  else OTHER.

(** The loop state: [segments], [current_text], [current_script], [current_start]. *)
Definition seg_state : Type := (list Segment * pystr * option ScriptType * nat)%type.

(** One iteration of [for i, char in enumerate(text)] in [segment]. *)
Definition segment_step (merge_adjacent_latin : bool) (st : seg_state) (ic : nat * Z) : seg_state :=
  let '(segments, current_text, current_script, current_start) := st in
  let '(i, c) := ic in
  let char_script := get_script_type c in
  if script_eqb char_script SPACE then
    if strip_nonempty current_text
    then (segments ++ [mkSeg current_text current_script current_start i], [], None, S i)
    else (segments, current_text, current_script, S i)
  else
    match current_script with
    | Some cur =>
        if negb (script_eqb char_script cur) then
          if merge_adjacent_latin && can_merge (Some cur) (Some char_script)
          then (segments, current_text ++ [c],
                (if script_eqb cur NUMBER then Some LATIN else current_script), current_start)
          else ((if strip_nonempty current_text
                 then segments ++ [mkSeg current_text current_script current_start i]
                 else segments), [c], Some char_script, i)
        else (segments, current_text ++ [c], current_script, current_start)
    | None => (segments, current_text ++ [c], Some char_script, current_start)
    end.

(** [ScriptSegmenter(merge_adjacent_latin).segment(text)] *)
Definition segment (merge_adjacent_latin : bool) (text : pystr) : list Segment :=
  match text with
  | [] => []
  | _ =>
      let '(segments, current_text, current_script, current_start) :=
        fold_left (segment_step merge_adjacent_latin) (combine (seq 0 (length text)) text)
                  ([], [], None, 0%nat) in
      let segments := if strip_nonempty current_text
                      then segments ++ [mkSeg current_text current_script current_start (length text)]
                      else segments in
      post_merge segments
  end.

End Segment.

(** [get_tokenizer_for_script] *)
Definition get_tokenizer_for_script (s : ScriptType) : string :=
  match s with
  | CJK => "chinese" | KANA => "japanese" | HANGUL => "korean" | LATIN => "european"
  | NUMBER | PUNCT | OTHER => "passthrough" | SPACE => "european"
  end.

End Segmenter.

(* ------------------------------------------------------------------ *)
(** ** phrase_merger.py *)

Module PhraseMerging.
Import Tagger.

(** [MergedToken] *)
Record MergedToken := mkMerged {
  m_text : pystr; m_orig : list pystr; m_start : nat; m_end : nat; m_is_merged : bool;
  m_tag : option Tag; m_conf : Q }.

(** [PhraseMerger]: the dict [phrases] as an association list whose first
    entry for a key is the current one, and [max_phrase_len]. *)
Record PhraseMerger := mkMerger {
  phrases : list (list pystr * (Tag * Q)); max_phrase_len : nat }.

(** [PhraseMerger.__init__] before the default phrases are added. *)
Definition empty_merger : PhraseMerger := mkMerger [] 1.

(** [self.phrases.get(candidate)] *)
Fixpoint phrase_lookup (key : list pystr) (ph : list (list pystr * (Tag * Q))) : option (Tag * Q) :=
  match ph with
  | [] => None
  | (k, v) :: ph' => if JaMerger.list_beq_str k key then Some v else phrase_lookup key ph'
  end.

(** [" ".join(tokens)] *)
Fixpoint join_space (l : list pystr) : pystr :=
  match l with
  | [] => []
  | [x] => x
  | x :: l' => x ++ [32] ++ join_space l'
  end.

Section Merge.
Context {U : PyUnicode}.

(** [add_phrase] *)
Definition add_phrase (m : PhraseMerger) (tokens : list pystr) (tag : Tag) (confidence : Q)
  : PhraseMerger :=
  let normalized := map py_lower tokens in
  mkMerger ((normalized, (tag, confidence)) :: phrases m)
           (if Nat.ltb (max_phrase_len m) (length normalized) then length normalized
            else max_phrase_len m).

(** A merger built as [__init__] builds it: [add_phrase] on each entry, in
    order, starting from no phrases and [max_phrase_len = 1]. *)
Definition build_merger (entries : list (list pystr * Tag * Q)) : PhraseMerger :=
  fold_left (fun m '(ts, tg, c) => add_phrase m ts tg c) entries empty_merger.

(** The [for phrase_len in range(l, 0, -1)] loop of [merge]. *)
Fixpoint try_len (m : PhraseMerger) (tokens : list pystr) (i l : nat) : option (nat * (Tag * Q)) :=
  match l with
  | O => None
  | S l' =>
      match phrase_lookup (map py_lower (slice i (i + l) tokens)) (phrases m) with
      | Some v => Some (l, v)
      | None => try_len m tokens i l'
      end
  end.

(** The [while i < n] loop of [merge]. *)
Fixpoint merge_go (m : PhraseMerger) (tokens : list pystr) (fuel i : nat) : list MergedToken :=
  match fuel with
  | O => []
  | S f =>
      if Nat.ltb i (length tokens) then
        match try_len m tokens i (Nat.min (max_phrase_len m) (length tokens - i)) with
        | Some (phrase_len, (tag, confidence)) =>
            mkMerged (join_space (slice i (i + phrase_len) tokens)) (slice i (i + phrase_len) tokens)
                     i (i + phrase_len) (Nat.ltb 1 phrase_len) (Some tag) confidence
            :: merge_go m tokens f (i + phrase_len)
        | None =>
            mkMerged (nth i tokens []) [nth i tokens []] i (S i) false None 0%Q
            :: merge_go m tokens f (S i)
        end
      else []
  end.

(** [PhraseMerger.merge] *)
Definition merge (m : PhraseMerger) (tokens : list pystr) : list MergedToken :=
  match tokens with
  | [] => []
  | _ => merge_go m tokens (length tokens) 0
  end.

(** [PhraseMerger.merge_to_strings] *)
Definition merge_to_strings (m : PhraseMerger) (tokens : list pystr) : list pystr :=
  map m_text (merge m tokens).

(** The merging as the specification words it: [K] is the longest phrase
    length in the table; at index [i], the lengths [min(K, n-i)], ..., [1]
    are tried, the first whose lower-cased tuple is in the table is taken. *)
Definition longest_key (ph : list (list pystr * (Tag * Q))) : nat :=
  fold_right (fun e acc => Nat.max (length (fst e)) acc) 0%nat ph.

Fixpoint first_in_table (ph : list (list pystr * (Tag * Q))) (tokens : list pystr) (i : nat)
  (lens : list nat) : option (nat * (Tag * Q)) :=
  match lens with
  | [] => None
  | l :: lens' =>
      match phrase_lookup (map py_lower (firstn l (skipn i tokens))) ph with
      | Some v => Some (l, v)
      | None => first_in_table ph tokens i lens'
      end
  end.

Fixpoint merge_spec_go (ph : list (list pystr * (Tag * Q))) (tokens : list pystr) (fuel i : nat)
  : list MergedToken :=
  match fuel with
  | O => []
  | S f =>
      if Nat.ltb i (length tokens) then
        let K := longest_key ph in
        match first_in_table ph tokens i (rev (seq 1 (Nat.min K (length tokens - i)))) with
        | Some (l, (tag, conf)) =>
            let src := firstn l (skipn i tokens) in
            mkMerged (join_space src) src i (i + l) (Nat.ltb 1 l) (Some tag) conf
            :: merge_spec_go ph tokens f (i + l)
        | None =>
            let t := nth i tokens [] in
            mkMerged t [t] i (S i) false None 0%Q :: merge_spec_go ph tokens f (S i)
        end
      else []
  end.

Definition merge_spec (ph : list (list pystr * (Tag * Q))) (tokens : list pystr) : list MergedToken :=
  merge_spec_go ph tokens (length tokens) 0.

End Merge.

End PhraseMerging.

(* ------------------------------------------------------------------ *)
(** ** Properties as the specification states them *)

Module SpecDefs.
Import Tagger Candidates EnhancedTagger Pipeline SpanExtractor Segmenter PhraseMerging.

(** A run of digits (a digit is never the dot). *)
Definition digit_run `{PyUnicode} (s : pystr) : bool :=
  forallb (fun c => py_isdigit c && negb (c =? 46)) s.

(** A bare number: digits with an optional decimal point. *)
Definition bare_number `{PyUnicode} (s : pystr) : Prop :=
  (digit_run s = true /\ s <> [])
  \/ exists d1 d2, s = d1 ++ [46] ++ d2 /\ digit_run d1 = true /\ digit_run d2 = true
                   /\ d1 ++ d2 <> [].

(** [k] is a prefix of [s]. *)
Definition is_prefix (k s : pystr) : Prop := exists r, s = k ++ r.

(** The keys of a trie built by [insert], as they are stored. *)
Definition inserted_keys `{PyUnicode} (entries : list (pystr * PhraseData)) : list pystr :=
  map (fun e => py_lower (fst e)) entries.

Definition build_trie `{PyUnicode} (entries : list (pystr * PhraseData)) : TrieNode :=
  fold_left (fun r e => trie_insert r (fst e) (snd e)) entries empty_node.

(** Segments lie in [lo, hi] in increasing order, each nonempty and
    ending no later than the next one starts. *)
Fixpoint seg_chain (lo : nat) (segs : list Segment) (hi : nat) : Prop :=
  match segs with
  | [] => (lo <= hi)%nat
  | s :: r => (lo <= seg_start s < seg_end s)%nat /\ seg_chain (seg_end s) r hi
  end.

(** Merged tokens tile [lo, hi) with contiguous nonempty intervals. *)
Fixpoint tiles (lo : nat) (r : list MergedToken) (hi : nat) : Prop :=
  match r with
  | [] => lo = hi
  | x :: r' => m_start x = lo /\ (lo < m_end x)%nat /\ tiles (m_end x) r' hi
  end.

(** Preset override as the specification words it: the [i]-th token
    carrying a preset gets the preset exactly when the preset confidence is
    at least the tagger's confidence for it. *)
Definition preset_override_spec `{PyUnicode} (D : DictManager) (nrm : pystr -> option pystr)
  (fragments : list fragment) (cleaned : pystr) (language : option pystr) : Prop :=
  forall i p t g c,
    nth_error (sort_by_pos fragments) i = Some (p, t, Some g, c) ->
    exists r,
      nth_error (tag D nrm (map frag_text (sort_by_pos fragments)) (Some cleaned) language) i = Some r
      /\ nth_error (process_tagging D nrm fragments cleaned language) i
         = Some (if Qle_bool (r_conf r) c then mkResult (r_token r) [g] g c (u "preset") (r_cands r)
                 else r).

End SpecDefs.

(* ------------------------------------------------------------------ *)
(** ** Proof-side views of the trie *)

Module TrieView.
Import SpanExtractor.

(** The node reached from [n] along the characters [k]. *)
Fixpoint node_at (n : TrieNode) (k : list Z) : option TrieNode :=
  match k with
  | [] => Some n
  | c :: k' => match child c (node_children n) with Some m => node_at m k' | None => None end
  end.

(** [k] ends a word of the trie below [n]. *)
Definition ends (n : TrieNode) (k : list Z) : bool :=
  match node_at n k with Some m => node_is_end m | None => false end.

End TrieView.

(* ------------------------------------------------------------------ *)
(** ** Proof-side view of the segmenter loop *)

Module SegView.
Import Segmenter SpecDefs.

(** What holds of the loop state of [segment] before index [i]: the
    pending text runs from [current_start] to [i] and has no whitespace,
    the pending script is not [SPACE], and the emitted segments form a
    chain ending by [current_start], none of them [SPACE]. *)
Definition seg_inv `{PyUnicode} (i : nat) (st : seg_state) : Prop :=
  match st with
  | (segs, ct, cur, cs) =>
      (cs + length ct = i)%nat /\ Forall (fun x => py_isspace x = false) ct
      /\ cur <> Some SPACE /\ seg_chain 0 segs cs
      /\ (forall s, In s segs -> seg_script s <> Some SPACE)
  end.

End SegView.

(* ------------------------------------------------------------------ *)
(** ** Concrete inputs *)

Module Examples.
Import Tagger Candidates Pipeline SpanExtractor.

(** A dictionary manager with empty dictionaries. *)
Definition D_empty : DictManager := mkDictManager (fun _ _ => false) (fun _ _ => None) (fun _ => []).

(** A dictionary manager whose brand dictionary holds ["3m"] (confidence 0.9). *)
Definition D_3m : DictManager :=
  mkDictManager
    (fun dn w => str_eqb dn (u "brands") && str_eqb w (u "3m"))
    (fun dn w => if str_eqb dn (u "brands") && str_eqb w (u "3m") then Some (Some (9#10)%Q) else None)
    (fun dn => if str_eqb dn (u "brands") then [u "3m"] else []).

Definition no_normalize (_ : pystr) : option pystr := None.

Definition nb_extractor : Extractor :=
  add_phrase (add_phrase empty_extractor (u "balance") BRAND (95#100)%Q ST_BRAND)
             (u "new balance") BRAND (95#100)%Q ST_BRAND.


(** The fragments [process] collects for ["10cmき"]: the kana segment's
    token, then the number + unit span. *)
Definition c4_fragments : list fragment :=
  [ (4%nat, u "き", None, 0%Q); (0%nat, u "10cm", Some SIZE, (95#100)%Q) ].

Definition brand_data : PhraseData := mkData BRAND (95#100)%Q ST_BRAND.

(** The entries of [nb_extractor]'s Latin trie. *)
Definition nb_entries : list (pystr * PhraseData) :=
  [ (u "balance", brand_data); (u "new balance", brand_data) ].

(** [str.lower] of Python on one character, exact for ASCII and for
    U+0130 (LATIN CAPITAL LETTER I WITH DOT ABOVE), which Python lowers to
    two code points, ['i'] and U+0307 (COMBINING DOT ABOVE). *)
Definition dotted_i_lower_char (c : Z) : list Z :=
  if c =? 304 then [105; 775] else [ascii_lower_char c].

(** [ascii_unicode] with Python's lower-casing of U+0130. *)
Definition dotted_i_unicode : PyUnicode := {|
  py_lower := flat_map dotted_i_lower_char;
  py_isspace := ascii_isspace;
  py_isdigit := ascii_digit;
  py_isdecimal := ascii_digit;
  py_isalpha := fun c => ((65 <=? c) && (c <=? 90)) || ((97 <=? c) && (c <=? 122));
  py_isupper := fun c => (65 <=? c) && (c <=? 90);
  py_ispunct := ascii_punct;
  re_fold := ascii_lower_char
|}.

(** The text ["İ nike"]. *)
Definition dotted_i_nike : pystr := 304 :: u " nike".

(** A keyword processor that raises on one keyword. *)
Definition failing_process (k : pystr) : PyResult Output :=
  if str_eqb k (u "!!") then Raise (u "tokenizer error") else Ok (empty_output k).

End Examples.

(* ------------------------------------------------------------------ *)
(** ** enhanced_pipeline.py and span_extractor.py: locked ranges

    Positions are Python ints, modelled as [Z]. *)

Module Locks.

(** [_is_fully_locked] *)
Definition is_fully_locked (start end_ : Z) (locked_ranges : list (Z * Z)) : bool :=
  existsb (fun '(lock_start, lock_end) => (lock_start <=? start) && (end_ <=? lock_end))
    locked_ranges.

(** [x <= y] on pairs of ints (lexicographic). *)
Definition pair_leb (x y : Z * Z) : bool :=
  (fst x <? fst y) || ((fst x =? fst y) && (snd x <=? snd y)).

Fixpoint insert_pair (x : Z * Z) (l : list (Z * Z)) : list (Z * Z) :=
  match l with
  | [] => [x]
  | y :: l' => if pair_leb x y then x :: l else y :: insert_pair x l'
  end.

(** [list.sort()] and [sorted()] on a list of pairs of ints (the sorted
    list is unique: equal pairs are identical). *)
Definition sort_pairs (l : list (Z * Z)) : list (Z * Z) :=
  fold_left (fun acc x => insert_pair x acc) l [].

(** [text[a:b]]; every use below has [0 <= a] and [0 <= b]. *)
Definition zslice (a b : Z) (text : pystr) : pystr := slice (Z.to_nat a) (Z.to_nat b) text.

(** The first loop of [_get_unlocked_parts]: the intersections with the
    segment, relative to [text_start], that are nonempty. *)
Definition relative_locks (len text_start : Z) (locked_ranges : list (Z * Z)) : list (Z * Z) :=
  flat_map (fun '(lock_start, lock_end) =>
              let rel_start := Z.max 0 (lock_start - text_start) in
              let rel_end := Z.min len (lock_end - text_start) in
              if rel_start <? rel_end then [(rel_start, rel_end)] else [])
    locked_ranges.

(** The merging loop of [_get_unlocked_parts]; [last] is [merged_locks[-1]]. *)
Fixpoint merge_locks (last : Z * Z) (rest : list (Z * Z)) : list (Z * Z) :=
  match rest with
  | [] => [last]
  | (start, end_) :: rest' =>
      if start <=? snd last then merge_locks (fst last, Z.max (snd last) end_) rest'
      else last :: merge_locks (start, end_) rest'
  end.

(** The last loop of [_get_unlocked_parts] and the part after it. *)
Fixpoint unlocked_go (text : pystr) (text_start prev_end : Z) (locks : list (Z * Z))
  : list (Z * Z * pystr) :=
  let len := Z.of_nat (length text) in
  match locks with
  | [] =>
      if prev_end <? len
      then [(text_start + prev_end, text_start + len, zslice prev_end len text)] else []
  | (lock_start, lock_end) :: rest =>
      (if prev_end <? lock_start
       then [(text_start + prev_end, text_start + lock_start, zslice prev_end lock_start text)]
       else [])
      ++ unlocked_go text text_start lock_end rest
  end.

(** [_get_unlocked_parts] *)
Definition get_unlocked_parts (text : pystr) (text_start : Z) (locked_ranges : list (Z * Z))
  : list (Z * Z * pystr) :=
  let len := Z.of_nat (length text) in
  match relative_locks len text_start locked_ranges with
  | [] => [(text_start, text_start + len, text)]
  | relative =>
      match sort_pairs relative with
      | [] => []
      | first :: rest => unlocked_go text text_start 0 (merge_locks first rest)
      end
  end.

(** The loop of [get_remaining_text_segments] and the part after it. *)
Fixpoint remaining_go (text : pystr) (prev_end : Z) (locks : list (Z * Z)) : list (Z * Z * pystr) :=
  let len := Z.of_nat (length text) in
  match locks with
  | [] => if prev_end <? len then [(prev_end, len, zslice prev_end len text)] else []
  | (start, end_) :: rest =>
      (if prev_end <? start then [(prev_end, start, zslice prev_end start text)] else [])
      ++ remaining_go text end_ rest
  end.

(** [SpanPhraseExtractor.get_remaining_text_segments] *)
Definition get_remaining_text_segments (text : pystr) (locked_ranges : list (Z * Z))
  : list (Z * Z * pystr) :=
  match locked_ranges with
  | [] => [(0, Z.of_nat (length text), text)]
  | _ => remaining_go text 0 (sort_pairs locked_ranges)
  end.

End Locks.

(* ------------------------------------------------------------------ *)
(** ** enhanced_pipeline.py: [_format_output] *)

Module Format.
Import Tagger Pipeline.

Section Format.
(** [round(x, 2)] on floats. *)
Variable round2 : Q -> Q.

(** [tag_summary[primary].append(token)], creating the list first when the
    key is new (a dict keeps its keys in insertion order). *)
Definition summary_add (summary : list (Tag * list pystr)) (primary : Tag) (token : pystr)
  : list (Tag * list pystr) :=
  if existsb (fun e => tag_eqb (fst e) primary) summary
  then map (fun e => if tag_eqb (fst e) primary then (fst e, snd e ++ [token]) else e) summary
  else summary ++ [(primary, [token])].

(** [_format_output] *)
Definition format_output (original : pystr) (tokens : list pystr) (tag_results : list TagResult)
  : Output :=
  mkOutput original tokens
    (map (fun r => (r_token r, r_tags r, round2 (r_conf r))) tag_results)
    (fold_left (fun summary r => summary_add summary (r_primary r) (r_token r)) tag_results []).

End Format.

(** [tag_summary.get(tag)] *)
Fixpoint summary_get (t : Tag) (summary : list (Tag * list pystr)) : option (list pystr) :=
  match summary with
  | [] => None
  | (k, v) :: rest => if tag_eqb k t then Some v else summary_get t rest
  end.

End Format.

(* ------------------------------------------------------------------ *)
(** ** Proof-side views *)

Module Views.
Import Tagger Segmenter SpecDefs.

(** Position [q] lies in one of the intervals [[a, b)]. *)
Fixpoint covers (q : Z) (l : list (Z * Z)) : Prop :=
  match l with
  | [] => False
  | (a, b) :: r => (a <= q < b) \/ covers q r
  end.

(** Intervals in increasing order inside [[lo, hi]], each nonempty and
    ending no later than the next one starts. *)
Fixpoint ichain (lo : Z) (l : list (Z * Z)) (hi : Z) : Prop :=
  match l with
  | [] => True
  | (a, b) :: r => lo <= a /\ a < b /\ b <= hi /\ ichain b r hi
  end.

(** Each pair starts no earlier than the ones before it. *)
Fixpoint sorted_fst (l : list (Z * Z)) : Prop :=
  match l with
  | [] => True
  | x :: r => Forall (fun y => fst x <= fst y) r /\ sorted_fst r
  end.

(** Candidates in decreasing order of confidence. *)
Fixpoint sorted_desc (l : list TagCandidate) : Prop :=
  match l with
  | [] => True
  | x :: r => Forall (fun y => (c_conf y <= c_conf x)%Q) r /\ sorted_desc r
  end.

(** A character as it appears in a segment's text: whitespace as one space. *)
Definition ws_to_space `{PyUnicode} (c : Z) : Z := if py_isspace c then 32 else c.

(** The characters of [text] in [[a, b)] are whitespace. *)
Definition ws_between `{PyUnicode} (text : pystr) (a b : nat) : Prop :=
  forall k, (a <= k < b)%nat -> py_isspace (nth k text 0) = true.

(** Segments whose texts are the input's characters over their intervals
    (whitespace as spaces), with only whitespace between them. *)
Fixpoint wchain `{PyUnicode} (text : pystr) (lo : nat) (segs : list Segment) (hi : nat) : Prop :=
  match segs with
  | [] => ws_between text lo hi
  | s :: r =>
      ws_between text lo (seg_start s)
      /\ seg_text s = map ws_to_space (slice (seg_start s) (seg_end s) text)
      /\ wchain text (seg_end s) r hi
  end.

End Views.

(* ------------------------------------------------------------------ *)
(** ** Proof-side views of the further functions *)

Module AuxViews.
Import Tagger SpanExtractor Segmenter SegView Views.

(** A confidence in [[0, 1]]. *)
Definition qbounded (q : Q) : Prop := (0 <= q <= 1)%Q.

(** A tag result's tags: the primary tag first, then at most one tag
    compatible with it. *)
Definition tag_shape (r : TagResult) : Prop :=
  exists extra, r_tags r = r_primary r :: extra /\ (length extra <= 1)%nat
                /\ Forall (fun g => are_tags_compatible (r_primary r) g = true) extra.

(** A summary entry after appending the tokens [l]: a key that is absent
    and gets no token stays absent. *)
Definition opt_app (o : option (list pystr)) (l : list pystr) : option (list pystr) :=
  match o, l with
  | None, [] => None
  | None, _ => Some l
  | Some a, _ => Some (a ++ l)
  end.

(** A span inside [text] whose text is the slice it covers. *)
Definition span_ok (text : pystr) (s : Span) : Prop :=
  (sp_start s < sp_end s <= length text)%nat /\ sp_text s = slice (sp_start s) (sp_end s) text.

Definition span_iv (s : Span) : nat * nat := (sp_start s, sp_end s).

(** The state of [segment]'s loop after position [i]: the pending text is
    the input from [current_start] to [i], the emitted segments match the
    input (see [wchain]) up to [current_start]. *)
Definition seg_text_inv `{PyUnicode} (text : pystr) (i : nat) (st : seg_state) : Prop :=
  match st with
  | (segs, ct, cur, cs) => (cs <= i)%nat /\ ct = slice cs i text /\ wchain text 0 segs cs
  end.

End AuxViews.

(* ================================================================== *)
(** * Theorems *)

Module StrFacts.

Lemma str_eqb_eq a b : str_eqb a b = true <-> a = b.
Proof.
  revert b; induction a as [|x a IH]; intros [|y b]; simpl;
    try (split; congruence).
  rewrite andb_true_iff, Z.eqb_eq, IH. split; [intros [-> ->]; auto | intros H; inversion H; auto].
Qed.

Lemma list_beq_str_eq a b : JaMerger.list_beq_str a b = true <-> a = b.
Proof.
  revert b; induction a as [|x a IH]; intros [|y b]; simpl; try (split; congruence).
  rewrite andb_true_iff, str_eqb_eq, IH.
  split; [intros [-> ->]; auto | intros H; inversion H; auto].
Qed.

Lemma map_nth_seq_id {A} (l : list A) (d : A) : map (fun i => nth i l d) (seq 0 (length l)) = l.
Proof.
  induction l as [|a l IH]; [reflexivity|].
  simpl length. rewrite <- cons_seq, <- seq_shift, map_cons, map_map. simpl. now rewrite IH.
Qed.

Lemma map_snd_combine_seq {A} (l : list A) (k : nat) : map snd (combine (seq k (length l)) l) = l.
Proof. revert k; induction l as [|a l IH]; intros k; simpl; [reflexivity | now rewrite IH]. Qed.

Lemma forallb_weaken {A} (p q : A -> bool) (l : list A) :
  (forall x, p x = true -> q x = true) -> forallb p l = true -> forallb q l = true.
Proof. intros Hpq. induction l as [|x l IH]; simpl; [auto|]. rewrite !andb_true_iff. intuition. Qed.

Lemma length_combine_seq {A} (l : list A) (k : nat) : length (combine (seq k (length l)) l) = length l.
Proof. rewrite length_combine, length_seq. lia. Qed.

End StrFacts.

Module TaggerProofs.
Import StrFacts Tagger Candidates EnhancedTagger SpecDefs Examples.

Lemma create_result_token (t : pystr) (cs : list TagCandidate) : r_token (create_result t cs) = t.
Proof. unfold create_result. destruct (sort_desc cs); reflexivity. Qed.

Lemma adjust_at_token `{PyUnicode} (results : list TagResult) (tokens : list pystr) (i : nat) :
  r_token (adjust_at results tokens i) = r_token (nth i results dummy_result).
Proof.
  unfold adjust_at.
  repeat match goal with |- context [if ?b then _ else _] => destruct b end; reflexivity.
Qed.

Lemma apply_context_tokens `{PyUnicode} (results : list TagResult) (tokens : list pystr) :
  map r_token (apply_context_adjustments results tokens) = map r_token results.
Proof.
  unfold apply_context_adjustments. destruct (Nat.ltb (length results) 2); [reflexivity|].
  rewrite map_map.
  rewrite (map_ext _ (fun i => r_token (nth i results dummy_result))) by (intros; apply adjust_at_token).
  rewrite <- (map_map (fun i => nth i results dummy_result) r_token).
  now rewrite map_nth_seq_id.
Qed.

Lemma stage_b_tokens `{PyUnicode} (D : DictManager) nrm (tokens : list pystr) language :
  map r_token (stage_b D nrm tokens language) = tokens.
Proof.
  unfold stage_b. rewrite map_map.
  rewrite (map_ext _ snd) by (intros [i t]; apply create_result_token).
  apply map_snd_combine_seq.
Qed.

(** [tag] returns one result per token of the list it works on, in order. *)
Lemma tag_tokens `{PyUnicode} (D : DictManager) nrm (tokens : list pystr) context language :
  map r_token (tag D nrm tokens context language) = ja_prepare D language tokens.
Proof. unfold tag. now rewrite apply_context_tokens, stage_b_tokens. Qed.

Lemma tag_length `{PyUnicode} (D : DictManager) nrm (tokens : list pystr) context language :
  length (tag D nrm tokens context language) = length (ja_prepare D language tokens).
Proof. rewrite <- (tag_tokens D nrm tokens context language). now rewrite length_map. Qed.

Lemma boost_none_size (t : Tag) : boost_lookup (tag_value t, tag_value SIZE) context_boost = None.
Proof. destruct t; vm_compute; reflexivity. Qed.

Lemma digit_run_remove_dots `{PyUnicode} (s : pystr) : digit_run s = true -> remove_dots s = s.
Proof.
  unfold digit_run, remove_dots. intros Hs. apply forallb_filter_id.
  revert Hs. apply forallb_weaken. intros c Hc. apply andb_true_iff in Hc. apply Hc.
Qed.

Lemma digit_run_isdigit `{PyUnicode} (s : pystr) : digit_run s = true -> forallb py_isdigit s = true.
Proof.
  unfold digit_run. apply forallb_weaken. intros c Hc. apply andb_true_iff in Hc. apply Hc.
Qed.

Lemma bare_number_isdigit `{PyUnicode} (s : pystr) :
  bare_number s -> str_isdigit (remove_dots s) = true.
Proof.
  unfold str_isdigit. intros [[Hd Hne] | (d1 & d2 & -> & H1 & H2 & Hne)].
  - rewrite (digit_run_remove_dots s Hd), (digit_run_isdigit s Hd).
    destruct s; [congruence | reflexivity].
  - unfold remove_dots. rewrite !filter_app. simpl.
    fold (remove_dots d1) (remove_dots d2).
    rewrite (digit_run_remove_dots d1 H1), (digit_run_remove_dots d2 H2).
    rewrite forallb_app, (digit_run_isdigit d1 H1), (digit_run_isdigit d2 H2).
    destruct (d1 ++ d2) eqn:E; [congruence|].
    rewrite <- E, length_app. destruct d1, d2; simpl in *; try congruence; reflexivity.
Qed.

End TaggerProofs.

Module TaggerClaims.
Import StrFacts Tagger Candidates EnhancedTagger SpecDefs Examples TaggerProofs.

(** Claim C1 (size never carries brand or color as secondary tag).  The
    compatibility key is ordered by Python string order, and
    ["品牌词" < "尺寸词"], so the pair size/brand is looked up as
    [("品牌词", "尺寸词")], which the matrix does not list: it defaults to
    compatible (size/color is found and is incompatible).  With ["3m"] in
    the brand dictionary, the token ["3M"] gets primary tag size (pattern,
    0.95) and secondary tag brand (dictionary, 0.9), whatever the Spanish
    normaliser does. *)
Theorem size_token_gets_brand_secondary :
  are_tags_compatible SIZE BRAND = true
  /\ are_tags_compatible SIZE COLOR = false
  /\ forall nrm : pystr -> option pystr,
       map r_tags (tag D_3m nrm [u "3M"] None None) = [[SIZE; BRAND]].
Proof.
  split; [vm_compute; reflexivity|]. split; [vm_compute; reflexivity|].
  intros nrm. vm_compute. destruct (nrm [51; 109]); vm_compute; reflexivity.
Qed.

(** Claim C2 (one result per input token, order preserved), as the code
    behaves: the results follow the input tokens, except when the language
    hint is Japanese or absent and some token has Japanese characters; then
    they follow the tokens after the Japanese compound merger. *)
Theorem tag_results_follow_tokens `{PyUnicode} (D : DictManager) (nrm : pystr -> option pystr)
  (tokens : list pystr) (context language : option pystr) :
  map r_token (tag D nrm tokens context language)
  = if lang_in language [u "ja"; u "japanese"; u "日语"] && has_japanese tokens
    then JaMerger.merge_to_strings (all_dict_words D) tokens
    else tokens.
Proof.
  rewrite tag_tokens. unfold ja_prepare, merge_japanese_compounds.
  destruct (lang_in language _), (has_japanese tokens); reflexivity.
Qed.

(** Claim C2, counterexample: the tokens [腹], [巻], [き] (no language hint)
    give a single result, for the merged token [腹巻き]. *)
Lemma tag_merges_japanese_tokens :
  ~ (forall (D : DictManager) nrm tokens context language,
       map r_token (tag D nrm tokens context language) = tokens).
Proof.
  intros H. specialize (H D_empty no_normalize [u "腹"; u "巻"; u "き"] None None).
  vm_compute in H. discriminate H.
Qed.

(** Claim C7 (numeric-unit context rule): when the token before position
    [i] is a bare number and the lower-cased token at [i] is a unit word,
    the [i]-th result is tags [[尺寸词]], confidence 0.95, method
    ["context"].  The tokens are those [tag] works on (after the Japanese
    merger, which leaves tokens without Japanese characters alone). *)
Theorem number_unit_forced_size `{PyUnicode} (D : DictManager) (nrm : pystr -> option pystr)
  (tokens : list pystr) (context language : option pystr) (i : nat) :
  (1 <= i < length (ja_prepare D language tokens))%nat ->
  bare_number (nth (i - 1) (ja_prepare D language tokens) []) ->
  mem (py_lower (nth i (ja_prepare D language tokens) [])) unit_words = true ->
  exists r, nth_error (tag D nrm tokens context language) i = Some r
    /\ r_token r = nth i (ja_prepare D language tokens) []
    /\ r_tags r = [SIZE] /\ r_primary r = SIZE /\ r_conf r = (95#100)%Q
    /\ r_method r = u "context".
Proof.
  intros Hi Hnum Hunit.
  pose proof (tag_tokens D nrm tokens context language) as Htok.
  unfold tag in *. set (toks := ja_prepare D language tokens) in *.
  set (results := stage_b D nrm toks language) in *.
  rewrite apply_context_tokens in Htok.
  assert (Hlen : length results = length toks) by (rewrite <- Htok, length_map; reflexivity).
  unfold apply_context_adjustments.
  replace (Nat.ltb (length results) 2) with false by (symmetry; apply Nat.ltb_ge; lia).
  exists (adjust_at results toks i).
  rewrite nth_error_map, (nth_error_nth' _ 0%nat) by (rewrite length_seq; lia).
  rewrite seq_nth by lia. simpl plus.
  split; [reflexivity|].
  unfold adjust_at.
  replace (Nat.ltb 0 i) with true by (symmetry; apply Nat.ltb_lt; lia).
  rewrite (bare_number_isdigit _ Hnum), Hunit. simpl andb. cbv iota.
  assert (Ht : r_token (nth i results dummy_result) = nth i toks []).
  { rewrite <- Htok. change [] with (r_token dummy_result). now rewrite map_nth. }
  set (r0 := nth i results dummy_result) in *.
  change (r_primary (unit_result r0)) with SIZE. rewrite boost_none_size.
  change (negb (Qeq_bool 0 0)) with false. cbv iota.
  unfold unit_result. simpl. rewrite Ht. repeat split.
Qed.

(** Witness of C7: the token sequence ["10.5"; "cm"]. *)
Lemma number_unit_forced_size_witness :
  (1 <= 1 < length (ja_prepare D_empty None [u "10.5"; u "cm"]))%nat
  /\ bare_number (nth (1 - 1) (ja_prepare D_empty None [u "10.5"; u "cm"]) [])
  /\ mem (py_lower (nth 1 (ja_prepare D_empty None [u "10.5"; u "cm"]) [])) unit_words = true
  /\ exists r, nth_error (tag D_empty no_normalize [u "10.5"; u "cm"] None None) 1 = Some r
       /\ r_token r = nth 1 (ja_prepare D_empty None [u "10.5"; u "cm"]) []
       /\ r_tags r = [SIZE] /\ r_primary r = SIZE /\ r_conf r = (95#100)%Q
       /\ r_method r = u "context".
Proof.
  assert (H1 : (1 <= 1 < length (ja_prepare D_empty None [u "10.5"; u "cm"]))%nat)
    by (vm_compute; lia).
  assert (H2 : bare_number (nth (1 - 1) (ja_prepare D_empty None [u "10.5"; u "cm"]) [])).
  { right. exists (u "10"), (u "5"). vm_compute. split; [reflexivity|].
    split; [reflexivity|]. split; [reflexivity|]. intros H; discriminate H. }
  assert (H3 : mem (py_lower (nth 1 (ja_prepare D_empty None [u "10.5"; u "cm"]) [])) unit_words
               = true) by (vm_compute; reflexivity).
  exact (conj H1 (conj H2 (conj H3
    (number_unit_forced_size D_empty no_normalize [u "10.5"; u "cm"] None None 1 H1 H2 H3)))).
Defined.

End TaggerClaims.

Module PipelineClaims.
Import StrFacts Tagger Candidates EnhancedTagger Pipeline SpecDefs Examples TaggerProofs.

Lemma in_insert_by_pos (x f : fragment) (l : list fragment) :
  In x (insert_by_pos f l) <-> f = x \/ In x l.
Proof.
  induction l as [|g l IH]; simpl; [tauto|].
  destruct (Nat.ltb (frag_pos f) (frag_pos g)); simpl; [tauto|]. rewrite IH. tauto.
Qed.

Lemma in_sort_by_pos (x : fragment) (l acc : list fragment) :
  In x (fold_left (fun acc f => insert_by_pos f acc) l acc) <-> In x l \/ In x acc.
Proof.
  revert acc; induction l as [|f l IH]; intros acc; simpl; [tauto|].
  rewrite IH, in_insert_by_pos. tauto.
Qed.

Lemma preset_fold (t : pystr) (g : Tag) (c : Q) :
  forall (l : list fragment) acc,
  (forall p' g' c', In (p', t, Some g', c') l -> g' = g /\ c' = c) ->
  (acc = Some (g, c) \/ exists p', In (p', t, Some g, c) l) ->
  fold_left (fun acc '(_, t0, tg, c0) =>
               match tg with
               | Some g0 => if str_eqb t0 t then Some (g0, c0) else acc
               | None => acc
               end) l acc = Some (g, c).
Proof.
  induction l as [|f l IH]; intros acc Hu Hw; simpl.
  - destruct Hw as [-> | [p' []]]; reflexivity.
  - destruct f as [[[p0 t0] tg] c0]. apply IH.
    + intros p' g' c' Hin. apply (Hu p' g' c'). right. exact Hin.
    + destruct tg as [g0|]; [destruct (str_eqb t0 t) eqn:E|].
      * left. apply str_eqb_eq in E. subst t0.
        destruct (Hu p0 g0 c0 (or_introl eq_refl)). subst. reflexivity.
      * destruct Hw as [-> | [p' [Heq | Hin]]]; [left; reflexivity | | right; eauto].
        inversion Heq; subst. rewrite (proj2 (str_eqb_eq t t) eq_refl) in E. discriminate E.
      * destruct Hw as [-> | [p' [Heq | Hin]]]; [left; reflexivity | | right; eauto].
        inversion Heq.
Qed.

Lemma preset_lookup_unique (t : pystr) (g : Tag) (c : Q) (p : nat) (l : list fragment) :
  In (p, t, Some g, c) l ->
  (forall p' g' c', In (p', t, Some g', c') l -> g' = g /\ c' = c) ->
  preset_lookup t l = Some (g, c).
Proof. intros Hin Hu. unfold preset_lookup. apply preset_fold; eauto. Qed.

(** Claim C3 (a failing keyword does not abort the batch):
    [EnhancedPipeline.process_batch] has no handler, so as soon as one
    keyword's processing raises, the whole batch raises and no list of
    results is returned. *)
Theorem process_batch_raises (process : pystr -> PyResult Output) (keywords : list pystr)
  (k e : pystr) :
  In k keywords -> process k = Raise e ->
  exists e', process_batch process keywords = Raise e'.
Proof.
  induction keywords as [|k0 ks IH]; intros Hin Hk; [destruct Hin|].
  simpl. destruct (process k0) as [r|e0] eqn:E0; [|eauto].
  destruct Hin as [-> | Hin]; [congruence|].
  destruct (IH Hin Hk) as [e' ->]. eauto.
Qed.

(** Witness of C3: the batch ["nike"; "!!"; "shoes"] where ["!!"] raises. *)
Lemma process_batch_raises_witness :
  In (u "!!") [u "nike"; u "!!"; u "shoes"] /\ failing_process (u "!!") = Raise (u "tokenizer error")
  /\ exists e', process_batch failing_process [u "nike"; u "!!"; u "shoes"] = Raise e'.
Proof.
  assert (H1 : In (u "!!") [u "nike"; u "!!"; u "shoes"]) by (right; left; reflexivity).
  assert (H2 : failing_process (u "!!") = Raise (u "tokenizer error")) by (vm_compute; reflexivity).
  exact (conj H1 (conj H2 (process_batch_raises failing_process _ _ _ H1 H2))).
Defined.

(** The API route [tokenize_batch] catches per keyword: [N] results, an
    empty entry for a failing keyword, the others as processed. *)
Lemma tokenize_batch_per_item (process : pystr -> PyResult Output) (keywords : list pystr) :
  length (results (tokenize_batch process keywords)) = length keywords
  /\ total (tokenize_batch process keywords) = length keywords
  /\ forall i k, nth_error keywords i = Some k ->
       nth_error (results (tokenize_batch process keywords)) i
       = Some (match process k with Ok r => r | Raise _ => empty_output k end).
Proof.
  simpl. rewrite length_map. split; [reflexivity|]. split; [reflexivity|].
  intros i k Hk. rewrite nth_error_map, Hk. reflexivity.
Qed.

(** Claim C4, code bug: for ["10cmき"], the span ["10cm"] carries the
    preset size tag with confidence 0.95, the Japanese merger joins it with
    ["き"], the merged token ["10cmき"] is tagged with confidence 0.7 and,
    having no preset, is not overridden. *)
Lemma preset_lost_after_merge :
  ~ (forall (D : DictManager) nrm fragments cleaned language,
       preset_override_spec D nrm fragments cleaned language).
Proof.
  intros H. specialize (H D_empty no_normalize c4_fragments (u "10cmき") None).
  destruct (H 0%nat 0%nat (u "10cm") SIZE (95#100)%Q) as [r [H1 H2]].
  { vm_compute. reflexivity. }
  vm_compute in H1. injection H1 as <-. vm_compute in H2. discriminate H2.
Qed.

(** Presets as the code applies them: presets are looked up by token text.
    When the tagger keeps the token list as it is (no Japanese merge) and
    every fragment with the token's text carries the same preset, the
    [i]-th result is the preset exactly when the preset confidence is at
    least the tagger's confidence, and the tagger's result otherwise. *)
Theorem preset_override_by_text `{PyUnicode} (D : DictManager) (nrm : pystr -> option pystr)
  (fragments : list fragment) (cleaned : pystr) (language : option pystr)
  (i p : nat) (t : pystr) (g : Tag) (c : Q) :
  ja_prepare D language (map frag_text (sort_by_pos fragments))
    = map frag_text (sort_by_pos fragments) ->
  nth_error (sort_by_pos fragments) i = Some (p, t, Some g, c) ->
  (forall p' g' c', In (p', t, Some g', c') fragments -> g' = g /\ c' = c) ->
  exists r,
    nth_error (tag D nrm (map frag_text (sort_by_pos fragments)) (Some cleaned) language) i = Some r
    /\ r_token r = t
    /\ nth_error (process_tagging D nrm fragments cleaned language) i
       = Some (if Qle_bool (r_conf r) c then mkResult t [g] g c (u "preset") (r_cands r) else r).
Proof.
  intros Hprep Hi Hu.
  unfold process_tagging. cbv zeta.
  set (all := sort_by_pos fragments) in *. set (toks := map frag_text all) in *.
  pose proof (tag_tokens D nrm toks (Some cleaned) language) as Htok. rewrite Hprep in Htok.
  assert (Ht : nth_error toks i = Some t) by (unfold toks; rewrite nth_error_map, Hi; reflexivity).
  rewrite <- Htok, nth_error_map in Ht.
  destruct (nth_error (tag D nrm toks (Some cleaned) language) i) as [r|] eqn:Er; [|discriminate Ht].
  injection Ht as Ht. exists r. split; [reflexivity|]. split; [exact Ht|].
  unfold apply_presets. rewrite nth_error_map, Er. simpl.
  rewrite Ht, (preset_lookup_unique t g c p all).
  - reflexivity.
  - eapply nth_error_In. exact Hi.
  - intros p' g' c' Hin. apply (Hu p'). unfold all, sort_by_pos in Hin.
    apply in_sort_by_pos in Hin. destruct Hin as [Hin | []]. exact Hin.
Qed.

(** Example of the preset override: ["nike"] with a brand preset (0.95) before ["shoes"]. *)
Lemma preset_override_by_text_witness :
  ja_prepare D_empty (Some (u "en"))
      (map frag_text (sort_by_pos [(0%nat, u "nike", Some BRAND, (95#100)%Q); (5%nat, u "shoes", None, 0%Q)]))
    = map frag_text (sort_by_pos [(0%nat, u "nike", Some BRAND, (95#100)%Q); (5%nat, u "shoes", None, 0%Q)])
  /\ exists r,
    nth_error (tag D_empty no_normalize
                 (map frag_text (sort_by_pos [(0%nat, u "nike", Some BRAND, (95#100)%Q);
                                              (5%nat, u "shoes", None, 0%Q)]))
                 (Some (u "nike shoes")) (Some (u "en"))) 0 = Some r
    /\ r_token r = u "nike"
    /\ nth_error (process_tagging D_empty no_normalize
                    [(0%nat, u "nike", Some BRAND, (95#100)%Q); (5%nat, u "shoes", None, 0%Q)]
                    (u "nike shoes") (Some (u "en"))) 0
       = Some (if Qle_bool (r_conf r) (95#100)%Q
               then mkResult (u "nike") [BRAND] BRAND (95#100)%Q (u "preset") (r_cands r) else r).
Proof.
  assert (H1 : ja_prepare D_empty (Some (u "en"))
      (map frag_text (sort_by_pos [(0%nat, u "nike", Some BRAND, (95#100)%Q); (5%nat, u "shoes", None, 0%Q)]))
    = map frag_text (sort_by_pos [(0%nat, u "nike", Some BRAND, (95#100)%Q); (5%nat, u "shoes", None, 0%Q)]))
    by (vm_compute; reflexivity).
  assert (H2 : nth_error (sort_by_pos [(0%nat, u "nike", Some BRAND, (95#100)%Q);
                                       (5%nat, u "shoes", None, 0%Q)]) 0
               = Some (0%nat, u "nike", Some BRAND, (95#100)%Q)) by (vm_compute; reflexivity).
  assert (H3 : forall p' g' c',
             In (p', u "nike", Some g', c') [(0%nat, u "nike", Some BRAND, (95#100)%Q);
                                             (5%nat, u "shoes", None, 0%Q)] ->
             g' = BRAND /\ c' = (95#100)%Q).
  { intros p' g' c' Hin. vm_compute in Hin.
    destruct Hin as [Hin | [Hin | []]]; inversion Hin; split; reflexivity. }
  exact (conj H1 (preset_override_by_text D_empty no_normalize _ (u "nike shoes") (Some (u "en"))
                    0 0 (u "nike") BRAND (95#100)%Q H1 H2 H3)).
Defined.

End PipelineClaims.

Module SpanClaims.
Import StrFacts Tagger SpanExtractor SpecDefs TrieView Examples.

Lemma child_set_child (c c' : Z) (n : TrieNode) (ch : list (Z * TrieNode)) :
  child c' (set_child c n ch) = if c' =? c then Some n else child c' ch.
Proof.
  induction ch as [|[k m] ch IH]; simpl.
  - rewrite Z.eqb_sym. destruct (c =? c'); reflexivity.
  - destruct (Z.eqb_spec k c) as [-> | Hkc]; simpl.
    + rewrite (Z.eqb_sym c c'). destruct (c' =? c); reflexivity.
    + rewrite IH. destruct (Z.eqb_spec c' c) as [-> | Hc]; [|reflexivity].
      apply Z.eqb_neq in Hkc. rewrite Hkc. reflexivity.
Qed.

Lemma ends_nil (n : TrieNode) : ends n [] = node_is_end n.
Proof. reflexivity. Qed.

Lemma ends_cons (n : TrieNode) (c : Z) (k : list Z) :
  ends n (c :: k) = match child c (node_children n) with Some m => ends m k | None => false end.
Proof. unfold ends. simpl. destruct (child c (node_children n)); reflexivity. Qed.

Lemma ends_empty (k : list Z) : ends empty_node k = false.
Proof. destruct k; reflexivity. Qed.

Lemma insert_ends (w : list Z) (d : PhraseData) (n : TrieNode) (k : list Z) :
  ends (insert_path w d n) k = str_eqb k w || ends n k.
Proof.
  revert n k; induction w as [|c w IH]; intros [e dd ch] k.
  - destruct k as [|c' k]; [reflexivity|]. simpl insert_path. rewrite !ends_cons. reflexivity.
  - destruct k as [|c' k]; [reflexivity|]. simpl insert_path. rewrite !ends_cons.
    simpl node_children. rewrite child_set_child. simpl str_eqb.
    destruct (Z.eqb_spec c' c) as [-> | Hc]; simpl.
    + rewrite IH. destruct (child c ch) as [m|]; [reflexivity|].
      rewrite ends_empty. reflexivity.
    + reflexivity.
Qed.

Lemma build_ends_gen `{PyUnicode} (entries : list (pystr * PhraseData)) (r0 : TrieNode) (k : list Z) :
  ends (fold_left (fun r e => trie_insert r (fst e) (snd e)) entries r0) k
  = existsb (str_eqb k) (inserted_keys entries) || ends r0 k.
Proof.
  revert r0; induction entries as [|[w d] entries IH]; intros r0; simpl; [reflexivity|].
  rewrite IH. unfold trie_insert. rewrite insert_ends. simpl.
  destruct (str_eqb k (py_lower w)), (existsb (str_eqb k) (inserted_keys entries)), (ends r0 k);
    reflexivity.
Qed.

Lemma build_ends `{PyUnicode} (entries : list (pystr * PhraseData)) (k : list Z) :
  ends (build_trie entries) k = true <-> In k (inserted_keys entries).
Proof.
  unfold build_trie. rewrite build_ends_gen, ends_empty, orb_false_r, existsb_exists.
  split.
  - intros [x [Hx Hk]]. apply str_eqb_eq in Hk. subst. exact Hx.
  - intros Hk. exists k. split; [exact Hk | apply str_eqb_eq; reflexivity].
Qed.

Lemma walk_spec (rest : list Z) : forall (n : TrieNode) (i : nat) last,
  (walk n rest i last = last
   /\ forall j, (1 <= j <= length rest)%nat -> ends n (firstn j rest) = false)
  \/ (exists j d, (1 <= j <= length rest)%nat /\ ends n (firstn j rest) = true
       /\ walk n rest i last = Some ((i + j)%nat, d)
       /\ forall j', (j < j' <= length rest)%nat -> ends n (firstn j' rest) = false).
Proof.
  induction rest as [|c r IH]; intros n i last.
  - left. split; [reflexivity|]. intros j Hj. simpl in Hj. lia.
  - simpl walk. destruct (child c (node_children n)) as [m|] eqn:Ec.
    + destruct (IH m (S i) (if node_is_end m then Some (S i, node_data m) else last))
        as [[Hw Hno] | (j & d & Hj & He & Hw & Hmax)].
      * rewrite Hw. destruct (node_is_end m) eqn:Em.
        -- right. exists 1%nat, (node_data m). split; [simpl; lia|].
           split; [simpl firstn; rewrite ends_cons, Ec, ends_nil; exact Em|].
           split; [do 2 f_equal; lia|].
           intros j' Hj'. destruct j' as [|j'']; [lia|]. simpl firstn. rewrite ends_cons, Ec.
           apply Hno. simpl in Hj'. lia.
        -- left. split; [reflexivity|]. intros j Hj. destruct j as [|j']; [lia|].
           simpl firstn. rewrite ends_cons, Ec. destruct j' as [|j''].
           ++ simpl firstn. rewrite ends_nil. exact Em.
           ++ apply Hno. simpl in Hj. lia.
      * right. exists (S j), d. split; [simpl; lia|].
        split; [simpl firstn; rewrite ends_cons, Ec; exact He|].
        split; [rewrite Hw; do 2 f_equal; lia|].
        intros j' Hj'. destruct j' as [|j'']; [lia|]. simpl firstn. rewrite ends_cons, Ec.
        apply Hmax. simpl in Hj'. lia.
    + left. split; [reflexivity|]. intros j Hj. destruct j; [lia|].
      simpl firstn. rewrite ends_cons, Ec. reflexivity.
Qed.

Lemma firstn_prefix {A} (k r : list A) : firstn (length k) (k ++ r) = k.
Proof. induction k as [|a k IH]; simpl; [reflexivity | now rewrite IH]. Qed.

Lemma search_longest_spec `{PyUnicode} (entries : list (pystr * PhraseData)) (text : pystr)
  (start : nat) :
  length (py_lower text) = length text ->
  (search_longest (build_trie entries) text start = None
   /\ forall k, In k (inserted_keys entries) -> k <> [] ->
        ~ is_prefix k (skipn start (py_lower text)))
  \/ (exists k d, In k (inserted_keys entries) /\ k <> []
       /\ is_prefix k (skipn start (py_lower text))
       /\ search_longest (build_trie entries) text start
          = Some (slice start (start + length k) text, (start + length k)%nat, d)
       /\ forall k', In k' (inserted_keys entries) -> k' <> [] ->
            is_prefix k' (skipn start (py_lower text)) -> (length k' <= length k)%nat).
Proof.
  intros Hlen. unfold search_longest. cbv zeta.
  set (rest := skipn start (py_lower text)).
  assert (Hpre : forall k, In k (inserted_keys entries) -> k <> [] -> is_prefix k rest ->
            (1 <= length k <= length rest)%nat /\ firstn (length k) rest = k
            /\ ends (build_trie entries) (firstn (length k) rest) = true).
  { intros k Hk Hne [r Hr]. rewrite Hr, firstn_prefix, length_app.
    split; [destruct k; [congruence | simpl; lia]|]. split; [reflexivity|].
    apply build_ends. exact Hk. }
  destruct (walk_spec rest (build_trie entries) start None)
    as [[Hw Hno] | (j & d & Hj & He & Hw & Hmax)].
  - left. rewrite Hw. split; [reflexivity|].
    intros k Hk Hne Hp. destruct (Hpre k Hk Hne Hp) as [Hb [_ Hends]].
    rewrite (Hno (length k) Hb) in Hends. discriminate Hends.
  - right. assert (Hfl : length (firstn j rest) = j) by (apply firstn_length_le; lia).
    exists (firstn j rest), d. split; [apply build_ends; exact He|].
    split; [intros E; rewrite E in Hfl; simpl in Hfl; lia|].
    split; [exists (skipn j rest); symmetry; apply firstn_skipn|].
    split.
    + rewrite Hw, Hfl.
      assert (Hs : slice start (start + j) text <> []).
      { unfold slice. replace (start + j - start)%nat with j by lia.
        intros E. apply (f_equal (@length Z)) in E. rewrite firstn_length_le in E; [simpl in E; lia|].
        rewrite length_skipn, <- Hlen. unfold rest in Hj. rewrite length_skipn in Hj. lia. }
      destruct (slice start (start + j) text) eqn:Es; [congruence | reflexivity].
    + intros k' Hk' Hne' Hp'. rewrite Hfl.
      destruct (Hpre k' Hk' Hne' Hp') as [Hb [Hf Hends]].
      destruct (Nat.le_gt_cases (length k') j) as [Hle | Hgt]; [exact Hle|].
      rewrite (Hmax (length k') (conj Hgt (proj2 Hb))) in Hends. discriminate Hends.
Qed.


(** Longest-match precedence where it holds: on text whose lower-casing keeps
    its length, [search_longest] returns the longest nonempty inserted
    (lower-cased) key that is a prefix of the lower-cased text from
    [start], with the matching slice of the original text, and [None] when
    no such key exists; and [extract] on ["new balance shoes"] with the
    phrases ["balance"] and ["new balance"] yields the single span
    ["new balance"] (0..11). *)
Theorem trie_longest_match :
  (forall (U : PyUnicode) (entries : list (pystr * PhraseData)) (text : pystr) (start : nat),
     length (py_lower text) = length text ->
     (search_longest (build_trie entries) text start = None
      /\ forall k, In k (inserted_keys entries) -> k <> [] ->
           ~ is_prefix k (skipn start (py_lower text)))
     \/ (exists k d, In k (inserted_keys entries) /\ k <> []
          /\ is_prefix k (skipn start (py_lower text))
          /\ search_longest (build_trie entries) text start
             = Some (slice start (start + length k) text, (start + length k)%nat, d)
          /\ forall k', In k' (inserted_keys entries) -> k' <> [] ->
               is_prefix k' (skipn start (py_lower text)) -> (length k' <= length k)%nat))
  /\ map (fun s => (sp_start s, sp_end s, sp_text s)) (fst (extract nb_extractor (u "new balance shoes")))
     = [(0%nat, 11%nat, u "new balance")].
Proof.
  split.
  - intros U entries text start. apply search_longest_spec.
  - vm_compute. reflexivity.
Qed.

(** Example of the longest match: the phrases ["balance"], ["new balance"] on
    ["new balance shoes"] from 0. *)
Lemma trie_longest_match_witness :
  length (py_lower (u "new balance shoes")) = length (u "new balance shoes")
  /\ ((search_longest (build_trie nb_entries) (u "new balance shoes") 0 = None
       /\ forall k, In k (inserted_keys nb_entries) -> k <> [] ->
            ~ is_prefix k (skipn 0 (py_lower (u "new balance shoes"))))
      \/ (exists k d, In k (inserted_keys nb_entries) /\ k <> []
           /\ is_prefix k (skipn 0 (py_lower (u "new balance shoes")))
           /\ search_longest (build_trie nb_entries) (u "new balance shoes") 0
              = Some (slice 0 (0 + length k) (u "new balance shoes"), (0 + length k)%nat, d)
           /\ forall k', In k' (inserted_keys nb_entries) -> k' <> [] ->
                is_prefix k' (skipn 0 (py_lower (u "new balance shoes"))) ->
                (length k' <= length k)%nat)).
Proof.
  assert (H : length (py_lower (u "new balance shoes")) = length (u "new balance shoes"))
    by (vm_compute; reflexivity).
  exact (conj H (proj1 trie_longest_match ascii_unicode nb_entries (u "new balance shoes") 0%nat H)).
Defined.

(** Claim C5, code bug: [search_longest] walks the lower-cased text but
    reads positions of the original text.  Python lowers ['İ'] (U+0130) to
    two code points, so in ["İ nike"] the lower-cased text is one longer and
    every position after ['İ'] is off by one: with ["nike"] inserted, the
    search at its position 2 finds nothing, and [extract] with the phrase
    ["nike"] returns the single span ["ike"] over [[3, 7)], which ends past
    the six-character text, instead of ["nike"] over [[2, 6)] (in
    ["I nike"] the span ["nike"] over [[2, 6)] is found). *)
Theorem trie_misses_after_dotted_i :
  In (u "nike") (@inserted_keys dotted_i_unicode [(u "nike", brand_data)])
  /\ slice 2 6 dotted_i_nike = u "nike"
  /\ @search_longest dotted_i_unicode (@build_trie dotted_i_unicode [(u "nike", brand_data)])
                     dotted_i_nike 2 = None
  /\ map (fun s => (sp_start s, sp_end s, sp_text s))
        (fst (@extract dotted_i_unicode
                (@add_phrase dotted_i_unicode empty_extractor (u "nike") BRAND (95#100)%Q ST_BRAND)
                dotted_i_nike))
     = [(3%nat, 7%nat, u "ike")]
  /\ map (fun s => (sp_start s, sp_end s, sp_text s))
        (fst (@extract dotted_i_unicode
                (@add_phrase dotted_i_unicode empty_extractor (u "nike") BRAND (95#100)%Q ST_BRAND)
                (u "I nike")))
     = [(2%nat, 6%nat, u "nike")].
Proof. vm_compute. repeat split; auto. Qed.



End SpanClaims.

Module SegmenterClaims.
Import Segmenter SpecDefs SegView.

Lemma seg_chain_app (segs : list Segment) : forall lo h s hi,
  seg_chain lo segs h -> (h <= seg_start s < seg_end s)%nat -> (seg_end s <= hi)%nat ->
  seg_chain lo (segs ++ [s]) hi.
Proof.
  induction segs as [|x segs IH]; intros lo h s hi Hc Hs Hhi; simpl in *.
  - lia.
  - destruct Hc as [Hx Hc]. split; [exact Hx|]. eapply IH; eauto.
Qed.

Lemma seg_chain_mono (segs : list Segment) : forall lo h h',
  seg_chain lo segs h -> (h <= h')%nat -> seg_chain lo segs h'.
Proof.
  induction segs as [|x segs IH]; intros lo h h' Hc Hh; simpl in *; [lia|].
  destruct Hc as [Hx Hc]. split; [exact Hx|]. eapply IH; eauto.
Qed.

Lemma seg_chain_lo (segs : list Segment) : forall lo hi, seg_chain lo segs hi -> (lo <= hi)%nat.
Proof.
  induction segs as [|x segs IH]; intros lo hi Hc; simpl in *; [lia|].
  destruct Hc as [Hx Hc]. apply IH in Hc. lia.
Qed.

Lemma script_not_space `{PyUnicode} (c : Z) :
  script_eqb (get_script_type c) SPACE = false -> py_isspace c = false.
Proof.
  unfold get_script_type. destruct (py_isspace c); [|reflexivity].
  intros E. vm_compute in E. discriminate E.
Qed.

Lemma script_eqb_false (a b : ScriptType) : script_eqb a b = false -> a <> b.
Proof. unfold script_eqb. destruct (script_eq_dec a b); congruence. Qed.

Lemma strip_empty `{PyUnicode} (ct : pystr) :
  Forall (fun x => py_isspace x = false) ct -> strip_nonempty ct = false -> ct = [].
Proof.
  destruct ct as [|x ct]; [reflexivity|]. intros Hf Hs. inversion Hf; subst.
  unfold strip_nonempty in Hs. simpl in Hs. rewrite H2 in Hs. discriminate Hs.
Qed.

Lemma strip_nonempty_ne `{PyUnicode} (ct : pystr) : strip_nonempty ct = true -> ct <> [].
Proof. destruct ct; [discriminate | congruence]. Qed.

(** Emitting the pending text keeps the emitted segments a chain. *)
Lemma flush_ok `{PyUnicode} (segs : list Segment) (ct : pystr) (cur : option ScriptType)
  (cs i : nat) :
  seg_chain 0 segs cs -> (forall s, In s segs -> seg_script s <> Some SPACE) ->
  cur <> Some SPACE -> (cs + length ct = i)%nat -> strip_nonempty ct = true ->
  seg_chain 0 (segs ++ [mkSeg ct cur cs i]) i
  /\ (forall s, In s (segs ++ [mkSeg ct cur cs i]) -> seg_script s <> Some SPACE).
Proof.
  intros Hc Hns Hcur Hlen Hst. split.
  - eapply seg_chain_app; [exact Hc | simpl | simpl; lia].
    apply strip_nonempty_ne in Hst. destruct ct; [congruence | simpl in Hlen; lia].
  - intros s Hs. apply in_app_or in Hs. destruct Hs as [Hs | [<- | []]]; [auto | exact Hcur].
Qed.

Lemma step_inv `{PyUnicode} (mal : bool) (i : nat) (c : Z) (st : seg_state) :
  seg_inv i st -> seg_inv (S i) (segment_step mal st (i, c)).
Proof.
  destruct st as [[[segs ct] cur] cs]. simpl. intros (Hlen & Hsp & Hcur & Hch & Hns).
  destruct (script_eqb (get_script_type c) SPACE) eqn:Esp.
  - destruct (strip_nonempty ct) eqn:Est.
    + destruct (flush_ok segs ct cur cs i Hch Hns Hcur Hlen Est) as [Hc' Hn'].
      simpl. repeat split; [lia | constructor | discriminate | | exact Hn'].
      eapply seg_chain_mono; [exact Hc' | lia].
    + pose proof (strip_empty ct Hsp Est) as ->. simpl in Hlen.
      repeat split; [simpl; lia | constructor | exact Hcur | | exact Hns].
      eapply seg_chain_mono; [exact Hch | lia].
  - pose proof (script_not_space c Esp) as Hc.
    pose proof (script_eqb_false _ _ Esp) as Hne.
    destruct cur as [cur0|].
    + destruct (negb (script_eqb (get_script_type c) cur0)).
      * destruct (mal && can_merge (Some cur0) (Some (get_script_type c))).
        -- repeat split; [rewrite length_app; simpl; lia | apply Forall_app; auto | | exact Hch | exact Hns].
           destruct (script_eqb cur0 NUMBER); [discriminate | exact Hcur].
        -- destruct (strip_nonempty ct) eqn:Est.
           ++ destruct (flush_ok segs ct (Some cur0) cs i Hch Hns Hcur Hlen Est) as [Hc' Hn'].
              repeat split; [simpl; lia | constructor; auto | congruence | exact Hc' | exact Hn'].
           ++ repeat split; [simpl; lia | constructor; auto | congruence | | exact Hns].
              eapply seg_chain_mono; [exact Hch | lia].
      * repeat split; [rewrite length_app; simpl; lia | apply Forall_app; auto | exact Hcur | exact Hch | exact Hns].
    + repeat split; [rewrite length_app; simpl; lia | apply Forall_app; auto | congruence | exact Hch | exact Hns].
Qed.

Lemma fold_inv `{PyUnicode} (mal : bool) (l : pystr) : forall k st,
  seg_inv k st ->
  seg_inv (k + length l) (fold_left (segment_step mal) (combine (seq k (length l)) l) st).
Proof.
  induction l as [|c l IH]; intros k st Hst; simpl.
  - rewrite Nat.add_0_r. exact Hst.
  - rewrite <- Nat.add_succ_comm. apply IH. apply step_inv. exact Hst.
Qed.

Lemma post_merge_go_ok (rest : list Segment) : forall s lo hi,
  seg_chain lo (s :: rest) hi -> seg_script s <> Some SPACE ->
  (forall x, In x rest -> seg_script x <> Some SPACE) ->
  seg_chain lo (post_merge_go s rest) hi
  /\ (forall x, In x (post_merge_go s rest) -> seg_script x <> Some SPACE).
Proof.
  induction rest as [|nx rest IH]; intros s lo hi Hc Hs Hr.
  - simpl. split; [exact Hc|]. intros x [<- | []]. exact Hs.
  - simpl post_merge_go.
    destruct (can_merge (seg_script s) (seg_script nx)
              && (Z.of_nat (seg_start nx) - Z.of_nat (seg_end s) <=? 1)).
    + simpl in Hc. destruct Hc as [Hs1 [Hn1 Hc]].
      apply IH; [simpl; split; [lia | exact Hc] | discriminate | intros x Hx; apply Hr; right; exact Hx].
    + simpl in Hc. destruct Hc as [Hs1 Hc].
      destruct (IH nx (seg_end s) hi Hc (Hr nx (or_introl eq_refl))
                  (fun x Hx => Hr x (or_intror Hx))) as [Hc' Hn'].
      split; [simpl; split; [exact Hs1 | exact Hc'] |].
      intros x [<- | Hx]; [exact Hs | exact (Hn' x Hx)].
Qed.

(** Claim C8 (segments), as the code behaves: no emitted segment has the
    script [SPACE] (punctuation segments can be emitted), and the segments
    are nonempty, in increasing order and non-overlapping, within
    [0, len(text)]: each ends no later than the next one starts. *)
Theorem segment_no_space_ordered `{PyUnicode} (merge_adjacent_latin : bool) (text : pystr) :
  (forall s, In s (segment merge_adjacent_latin text) -> seg_script s <> Some SPACE)
  /\ seg_chain 0 (segment merge_adjacent_latin text) (length text).
Proof.
  unfold segment. destruct text as [|c0 t0] eqn:Et.
  - split; [intros s [] | simpl; lia].
  - rewrite <- Et.
    pose proof (fold_inv merge_adjacent_latin text 0 ([], [], None, 0%nat)) as Hf.
    simpl in Hf.
    destruct (fold_left (segment_step merge_adjacent_latin) (combine (seq 0 (length text)) text)
                        ([], [], None, 0%nat)) as [[[segs ct] cur] cs].
    destruct Hf as (Hlen & Hsp & Hcur & Hch & Hns).
    { split; [reflexivity|]. split; [constructor|]. split; [discriminate|].
      split; [simpl; lia | intros s []]. }
    assert (Hfin : seg_chain 0 (if strip_nonempty ct then segs ++ [mkSeg ct cur cs (length text)]
                                else segs) (length text)
                   /\ forall s, In s (if strip_nonempty ct
                                      then segs ++ [mkSeg ct cur cs (length text)] else segs) ->
                                seg_script s <> Some SPACE).
    { destruct (strip_nonempty ct) eqn:Est.
      - apply flush_ok; auto.
      - split; [eapply seg_chain_mono; [exact Hch | lia] | exact Hns]. }
    destruct Hfin as [Hc Hn].
    destruct (if strip_nonempty ct then segs ++ [mkSeg ct cur cs (length text)] else segs)
      as [|s1 rest].
    + split; [intros s [] | exact Hc].
    + destruct (post_merge_go_ok rest s1 0 (length text) Hc (Hn s1 (or_introl eq_refl))
                  (fun x Hx => Hn x (or_intror Hx))) as [Hc' Hn'].
      split; [exact Hn' | exact Hc'].
Qed.

(** Claim C8, counterexample: ["跑步鞋!"] is segmented into ["跑步鞋"] (CJK)
    and ["!"] with the script [PUNCT]. *)
Lemma segment_emits_punct :
  ~ (forall text s, In s (segment true text) -> seg_script s <> Some SPACE /\ seg_script s <> Some PUNCT).
Proof.
  intros H.
  destruct (H (u "跑步鞋!") (mkSeg (u "!") (Some PUNCT) 3 4)) as [_ Hp].
  - vm_compute. right. left. reflexivity.
  - apply Hp. reflexivity.
Qed.

End SegmenterClaims.

Module MergerClaims.
Import StrFacts Tagger PhraseMerging SpecDefs.

Lemma try_len_bound `{PyUnicode} (m : PhraseMerger) (toks : list pystr) (i : nat) (L : nat) :
  forall l v, try_len m toks i L = Some (l, v) -> (1 <= l <= L)%nat.
Proof.
  induction L as [|L IH]; intros l v E; simpl in E; [discriminate|].
  destruct (phrase_lookup _ (phrases m)) as [v'|].
  - injection E as <- _. lia.
  - apply IH in E. lia.
Qed.

Lemma skipn_nth_cons {A} (l : list A) (d : A) : forall i,
  (i < length l)%nat -> skipn i l = nth i l d :: skipn (S i) l.
Proof.
  induction l as [|a l IH]; intros i Hi; simpl in Hi; [lia|].
  destruct i as [|i]; [reflexivity|]. simpl. apply IH. lia.
Qed.

Lemma slice_as_firstn {A} (i l : nat) (toks : list A) : slice i (i + l) toks = firstn l (skipn i toks).
Proof. unfold slice. f_equal. lia. Qed.

Lemma merge_go_tiles `{PyUnicode} (m : PhraseMerger) (toks : list pystr) : forall fuel i,
  (i <= length toks)%nat -> (length toks - i <= fuel)%nat ->
  tiles i (merge_go m toks fuel i) (length toks)
  /\ (forall x, In x (merge_go m toks fuel i) ->
        m_orig x = slice (m_start x) (m_end x) toks
        /\ m_is_merged x = Nat.ltb 1 (m_end x - m_start x))
  /\ concat (map m_orig (merge_go m toks fuel i)) = skipn i toks.
Proof.
  induction fuel as [|f IH]; intros i Hi Hf.
  - assert (i = length toks) by lia. subst i. simpl.
    split; [reflexivity|]. split; [intros x []|]. now rewrite skipn_all.
  - simpl merge_go. destruct (Nat.ltb_spec i (length toks)) as [Hlt | Hge].
    + destruct (try_len m toks i (Nat.min (max_phrase_len m) (length toks - i)))
        as [[l [tg conf]]|] eqn:Et.
      * apply try_len_bound in Et. destruct (IH (i + l)%nat) as (Ht & Hx & Hc); [lia | lia |].
        split; [simpl; split; [reflexivity | split; [lia | exact Ht]]|].
        split.
        -- intros x [<- | Hin]; [|exact (Hx x Hin)]. simpl. split; [reflexivity|].
           f_equal. lia.
        -- simpl. rewrite Hc, slice_as_firstn.
           replace (skipn (i + l) toks) with (skipn l (skipn i toks))
             by (rewrite skipn_skipn; f_equal; lia).
           apply firstn_skipn.
      * destruct (IH (S i)) as (Ht & Hx & Hc); [lia | lia |].
        split; [simpl; split; [reflexivity | split; [lia | exact Ht]]|].
        split.
        -- intros x [<- | Hin]; [|exact (Hx x Hin)]. cbn [m_orig m_start m_end m_is_merged]. split.
           ++ unfold slice. replace (S i - i)%nat with 1%nat by lia.
              rewrite (skipn_nth_cons toks [] i Hlt). reflexivity.
           ++ replace (S i - i)%nat with 1%nat by lia. reflexivity.
        -- simpl. rewrite Hc. symmetry. apply skipn_nth_cons. exact Hlt.
    + assert (i = length toks) by lia. subst i. simpl.
      split; [reflexivity|]. split; [intros x []|]. now rewrite skipn_all.
Qed.

(** Claim C10 (output partition of the phrase merger): the merged tokens
    have intervals that begin at 0, end at [n] and tile [[0, n)] in order
    with nonempty intervals; each one's original tokens are the input slice
    of its interval, so their concatenation is the input; and [is_merged]
    holds exactly when the interval has more than one token.  This holds
    for any phrase table and any [max_phrase_len]. *)
Theorem merge_partition `{PyUnicode} (m : PhraseMerger) (tokens : list pystr) :
  tiles 0 (merge m tokens) (length tokens)
  /\ (forall x, In x (merge m tokens) ->
        m_orig x = slice (m_start x) (m_end x) tokens
        /\ m_is_merged x = Nat.ltb 1 (m_end x - m_start x))
  /\ concat (map m_orig (merge m tokens)) = tokens.
Proof.
  unfold merge. destruct tokens as [|t ts] eqn:Et.
  - split; [reflexivity|]. split; [intros x []|reflexivity].
  - rewrite <- Et. destruct (merge_go_tiles m tokens (length tokens) 0) as (Ht & Hx & Hc); [lia|lia|].
    split; [exact Ht|]. split; [exact Hx|]. rewrite Hc. reflexivity.
Qed.

Lemma list_beq_str_refl (a : list pystr) : JaMerger.list_beq_str a a = true.
Proof. apply list_beq_str_eq. reflexivity. Qed.

Lemma lookup_len (k : list pystr) (v : Tag * Q) (ph : list (list pystr * (Tag * Q))) :
  phrase_lookup k ph = Some v -> (length k <= longest_key ph)%nat.
Proof.
  induction ph as [|[k' v'] ph IH]; simpl; [discriminate|].
  destruct (JaMerger.list_beq_str k' k) eqn:E.
  - intros _. apply list_beq_str_eq in E. subst. lia.
  - intros Hl. apply IH in Hl. lia.
Qed.

Lemma build_max_len `{PyUnicode} (entries : list (list pystr * Tag * Q)) : forall m0,
  max_phrase_len m0 = Nat.max 1 (longest_key (phrases m0)) ->
  max_phrase_len (fold_left (fun m '(ts, tg, c) => add_phrase m ts tg c) entries m0)
  = Nat.max 1 (longest_key (phrases (fold_left (fun m '(ts, tg, c) => add_phrase m ts tg c)
                                                entries m0))).
Proof.
  induction entries as [|[[ts tg] c] entries IH]; intros m0 Hm; [exact Hm|].
  apply IH. unfold add_phrase. cbn [phrases max_phrase_len].
  change (longest_key ((map py_lower ts, (tg, c)) :: phrases m0))
    with (Nat.max (length (map py_lower ts)) (longest_key (phrases m0))).
  rewrite Hm.
  destruct (Nat.ltb_spec (Nat.max 1 (longest_key (phrases m0))) (length (map py_lower ts))); lia.
Qed.

Lemma try_len_first `{PyUnicode} (m : PhraseMerger) (toks : list pystr) (i : nat) (l : nat) :
  try_len m toks i l = first_in_table (phrases m) toks i (rev (seq 1 l)).
Proof.
  induction l as [|l IH]; [reflexivity|].
  rewrite seq_S, rev_app_distr. simpl. rewrite slice_as_firstn, IH.
  replace (1 + l)%nat with (S l) by lia. reflexivity.
Qed.

Lemma merge_go_spec `{PyUnicode} (m : PhraseMerger) (toks : list pystr) :
  max_phrase_len m = Nat.max 1 (longest_key (phrases m)) ->
  forall fuel i, merge_go m toks fuel i = merge_spec_go (phrases m) toks fuel i.
Proof.
  intros Hm. induction fuel as [|f IH]; intros i; [reflexivity|].
  simpl. destruct (Nat.ltb_spec i (length toks)) as [Hlt | Hge]; [|reflexivity].
  assert (Htry : try_len m toks i (Nat.min (max_phrase_len m) (length toks - i))
                 = first_in_table (phrases m) toks i
                     (rev (seq 1 (Nat.min (longest_key (phrases m)) (length toks - i))))).
  { rewrite Hm. destruct (longest_key (phrases m)) as [|K] eqn:EK.
    - replace (Nat.min (Nat.max 1 0) (length toks - i)) with 1%nat by lia. simpl.
      destruct (phrase_lookup _ (phrases m)) as [v|] eqn:El; [|reflexivity].
      apply lookup_len in El. rewrite EK, length_map in El.
      rewrite slice_as_firstn, firstn_length_le in El; [lia|].
      rewrite length_skipn. lia.
    - replace (Nat.max 1 (S K)) with (S K) by lia. apply try_len_first. }
  rewrite Htry.
  destruct (first_in_table (phrases m) toks i _) as [[l [tg conf]]|].
  - rewrite slice_as_firstn, IH. reflexivity.
  - rewrite IH. reflexivity.
Qed.

(** Claim C9 (greedy longest match), as a refinement: for a merger built
    by [add_phrase] calls, [merge] equals [merge_spec], the scan the
    specification describes, with [K] the longest phrase length in the
    table: at each index the lengths [min(K, remaining)] down to 1 are
    tried, the first whose lower-cased tuple is in the table is consumed
    as one merged token (source tokens joined by single spaces, with the
    table's tag and confidence), and otherwise the token passes through
    alone with no suggested tag. *)
Theorem merge_is_greedy_longest `{PyUnicode} (entries : list (list pystr * Tag * Q))
  (tokens : list pystr) :
  merge (build_merger entries) tokens = merge_spec (phrases (build_merger entries)) tokens.
Proof.
  unfold merge, merge_spec. destruct tokens as [|t ts] eqn:Et; [reflexivity|].
  rewrite <- Et. apply merge_go_spec. unfold build_merger. apply build_max_len. reflexivity.
Qed.

End MergerClaims.

Module LockFacts.
Import Locks Views.

Lemma in_insert_pair (x y : Z * Z) (l : list (Z * Z)) : In x (insert_pair y l) <-> x = y \/ In x l.
Proof.
  induction l as [|z l IH]; simpl; [intuition congruence|].
  destruct (pair_leb y z); simpl; [intuition congruence|]. rewrite IH. intuition congruence.
Qed.

Lemma in_sort_pairs_gen (l acc : list (Z * Z)) (x : Z * Z) :
  In x (fold_left (fun acc x => insert_pair x acc) l acc) <-> In x l \/ In x acc.
Proof.
  revert acc; induction l as [|y l IH]; intros acc; simpl; [tauto|].
  rewrite IH, in_insert_pair. intuition congruence.
Qed.

Lemma in_sort_pairs (l : list (Z * Z)) (x : Z * Z) : In x (sort_pairs l) <-> In x l.
Proof. unfold sort_pairs. rewrite in_sort_pairs_gen. simpl. tauto. Qed.

Lemma sorted_insert_pair (x : Z * Z) (l : list (Z * Z)) :
  sorted_fst l -> sorted_fst (insert_pair x l).
Proof.
  induction l as [|y l IH]; simpl; intros Hs.
  - split; [constructor | exact I].
  - destruct Hs as [Hy Hl]. unfold pair_leb. destruct x as [x1 x2], y as [y1 y2]; simpl in *.
    destruct ((x1 <? y1) || ((x1 =? y1) && (x2 <=? y2))) eqn:E.
    + simpl. split; [|split; assumption].
      assert (x1 <= y1) by (apply orb_true_iff in E; destruct E as [E|E];
                             [apply Z.ltb_lt in E | apply andb_true_iff in E; destruct E as [E _];
                              apply Z.eqb_eq in E]; lia).
      constructor; [simpl; exact H|]. revert Hy. apply Forall_impl. simpl. intros [a b] Ha. lia.
    + simpl. split; [|apply IH; exact Hl].
      assert (y1 <= x1).
      { apply orb_false_iff in E. destruct E as [E _]. apply Z.ltb_ge in E. lia. }
      apply Forall_forall. intros z Hz. apply in_insert_pair in Hz. destruct Hz as [-> | Hz].
      * simpl. exact H.
      * rewrite Forall_forall in Hy. apply (Hy z Hz).
Qed.

Lemma sorted_sort_pairs (l : list (Z * Z)) : sorted_fst (sort_pairs l).
Proof.
  unfold sort_pairs. assert (H : sorted_fst []) by exact I. revert H. generalize (@nil (Z * Z)).
  induction l as [|x l IH]; intros acc Hacc; simpl; [exact Hacc|].
  apply IH. apply sorted_insert_pair. exact Hacc.
Qed.

Lemma covers_in (q : Z) (l : list (Z * Z)) :
  covers q l <-> exists a b, In (a, b) l /\ a <= q < b.
Proof.
  induction l as [|[a b] l IH]; simpl.
  - split; [tauto | intros (a & b & [] & _)].
  - rewrite IH. split.
    + intros [H | (a' & b' & H1 & H2)]; [exists a, b; auto | exists a', b'; auto].
    + intros (a' & b' & [E | H1] & H2); [injection E as -> ->; auto | right; exists a', b'; auto].
Qed.

Lemma covers_sort (q : Z) (l : list (Z * Z)) : covers q (sort_pairs l) <-> covers q l.
Proof.
  rewrite !covers_in. split; intros (a & b & H1 & H2); exists a, b; split; auto;
    apply in_sort_pairs; auto.
Qed.

Lemma ichain_lo (l : list (Z * Z)) : forall lo hi q, ichain lo l hi -> covers q l -> lo <= q.
Proof.
  induction l as [|[a b] l IH]; simpl; intros lo hi q Hc Hq; [destruct Hq|].
  destruct Hc as (H1 & H2 & H3 & Hc). destruct Hq as [Hq | Hq]; [lia|].
  apply (IH b hi q) in Hq; [lia | exact Hc].
Qed.

Lemma merge_locks_ok (len : Z) (rest : list (Z * Z)) : forall last lo,
  lo <= fst last < snd last -> snd last <= len ->
  Forall (fun y => fst last <= fst y /\ fst y < snd y /\ snd y <= len) rest -> sorted_fst rest ->
  ichain lo (merge_locks last rest) len
  /\ (forall q, covers q (merge_locks last rest) <-> covers q (last :: rest)).
Proof.
  induction rest as [|[s e] rest IH]; intros [l1 l2] lo Hl Hlen Hf Hs; simpl in Hl, Hlen.
  - simpl. split; [lia | tauto].
  - simpl merge_locks. rewrite Forall_forall in Hf.
    destruct (Hf (s, e) (or_introl eq_refl)) as (Hse1 & Hse2 & Hse3). simpl in Hse1, Hse2, Hse3.
    destruct Hs as [Hsr Hs]. rewrite Forall_forall in Hsr.
    destruct (Z.leb_spec s l2) as [Hm | Hm].
    + destruct (IH (l1, Z.max l2 e) lo) as [Hc Hq]; simpl; [lia | lia | | exact Hs |].
      { apply Forall_forall. intros y Hy. specialize (Hsr y Hy). simpl in Hsr.
        destruct (Hf y (or_intror Hy)) as (H1 & H2 & H3). lia. }
      split; [exact Hc|]. intros q. rewrite Hq. simpl. split.
      * intros [H | H]; [destruct (Z.ltb_spec q l2); [left; lia | right; left; lia] | right; right; exact H].
      * intros [H | [H | H]]; [left; lia | left; lia | right; exact H].
    + destruct (IH (s, e) l2) as [Hc Hq]; simpl; [lia | lia | | exact Hs |].
      { apply Forall_forall. intros y Hy. specialize (Hsr y Hy). simpl in Hsr.
        destruct (Hf y (or_intror Hy)) as (H1 & H2 & H3). lia. }
      split; [simpl; repeat split; try lia; exact Hc|]. intros q. simpl. rewrite Hq. simpl. tauto.
Qed.

Lemma zslice_shift (ts a b : Z) (text : pystr) :
  zslice (ts + a - ts) (ts + b - ts) text = zslice a b text.
Proof. f_equal; lia. Qed.

Lemma unlocked_go_ok (text : pystr) (ts : Z) (l : list (Z * Z)) : forall prev,
  0 <= prev -> ichain prev l (Z.of_nat (length text)) ->
  (forall a b t, In (a, b, t) (unlocked_go text ts prev l) ->
     ts + prev <= a /\ a < b /\ b <= ts + Z.of_nat (length text)
     /\ t = zslice (a - ts) (b - ts) text)
  /\ (forall p, (exists a b t, In (a, b, t) (unlocked_go text ts prev l) /\ a <= p < b)
        <-> (prev <= p - ts < Z.of_nat (length text) /\ ~ covers (p - ts) l)).
Proof.
  induction l as [|[a b] l IH]; intros prev Hp Hc; simpl unlocked_go.
  - destruct (Z.ltb_spec prev (Z.of_nat (length text))) as [Hlt | Hge].
    + split.
      * intros a b t [E | []]. injection E as <- <- <-. rewrite zslice_shift. repeat split; lia.
      * intros p. simpl. split.
        -- intros (a & b & t & [E | []] & Hab). injection E as <- <- <-. lia.
        -- intros [Hq _]. exists (ts + prev), (ts + Z.of_nat (length text)),
             (zslice prev (Z.of_nat (length text)) text). split; [left; reflexivity | lia].
    + split; [intros a b t [] |]. intros p. simpl. split; [intros (a & b & t & [] & _) | lia].
  - simpl in Hc. destruct Hc as (H1 & H2 & H3 & Hc).
    destruct (IH b) as [Hb Hq]; [lia | exact Hc |].
    split.
    + intros a' b' t Hin. apply in_app_or in Hin. destruct Hin as [Hin | Hin].
      * destruct (prev <? a) eqn:E; [|destruct Hin]. apply Z.ltb_lt in E.
        destruct Hin as [E' | []]. injection E' as <- <- <-. rewrite zslice_shift.
        repeat split; lia.
      * destruct (Hb a' b' t Hin) as (G1 & G2 & G3 & G4). repeat split; try lia. exact G4.
    + intros p. split.
      * intros (a' & b' & t & Hin & Hp'). apply in_app_or in Hin. destruct Hin as [Hin | Hin].
        -- destruct (prev <? a) eqn:E; [|destruct Hin]. apply Z.ltb_lt in E.
           destruct Hin as [E' | []]. injection E' as <- <- <-.
           split; [lia|]. simpl. intros [Hx | Hx]; [lia|].
           apply (ichain_lo l b _ _ Hc) in Hx. lia.
        -- destruct (proj1 (Hq p) (ex_intro _ a' (ex_intro _ b' (ex_intro _ t (conj Hin Hp')))))
             as [G1 G2].
           split; [lia|]. simpl. intros [Hx | Hx]; [lia | exact (G2 Hx)].
      * intros [G1 G2]. simpl in G2.
        destruct (Z.ltb_spec (p - ts) a) as [Hlt | Hge].
        -- exists (ts + prev), (ts + a), (zslice prev a text). split; [|lia].
           apply in_or_app. left. destruct (Z.ltb_spec prev a); [left; reflexivity | lia].
        -- assert (Hpb : b <= p - ts) by (destruct (Z.ltb_spec (p - ts) b); [exfalso; apply G2; left; lia | lia]).
           destruct (proj2 (Hq p)) as (a' & b' & t & Hin & Hp'); [split; [lia | intros Hx; apply G2; right; exact Hx]|].
           exists a', b', t. split; [apply in_or_app; right; exact Hin | exact Hp'].
Qed.

Lemma relative_locks_bounds (len ts : Z) (locks : list (Z * Z)) :
  Forall (fun y => 0 <= fst y /\ fst y < snd y /\ snd y <= len) (relative_locks len ts locks).
Proof.
  induction locks as [|[ls le] locks IH]; simpl; [constructor|].
  apply Forall_app. split; [|exact IH].
  destruct (Z.ltb_spec (Z.max 0 (ls - ts)) (Z.min len (le - ts))); [|constructor].
  constructor; [simpl; lia | constructor].
Qed.

Lemma relative_locks_covers (len ts : Z) (locks : list (Z * Z)) (q : Z) :
  covers q (relative_locks len ts locks)
  <-> 0 <= q < len /\ exists ls le, In (ls, le) locks /\ ls <= ts + q < le.
Proof.
  induction locks as [|[ls le] locks IH]; simpl.
  - split; [tauto | intros (_ & ls & le & [] & _)].
  - assert (Happ : forall l1 l2, covers q (l1 ++ l2) <-> covers q l1 \/ covers q l2).
    { intros l1 l2. rewrite !covers_in. split.
      - intros (a & b & Hin & Hq). apply in_app_or in Hin.
        destruct Hin; [left | right]; exists a, b; auto.
      - intros [(a & b & Hin & Hq) | (a & b & Hin & Hq)]; exists a, b;
          split; auto; apply in_or_app; auto. }
    rewrite Happ, IH.
    destruct (Z.ltb_spec (Z.max 0 (ls - ts)) (Z.min len (le - ts))) as [Hlt | Hge]; simpl.
    + split.
      * intros [[Hq | []] | (Hq & ls' & le' & Hin & H)];
          [split; [lia|]; exists ls, le; split; [left; reflexivity | lia]
          | split; [lia|]; exists ls', le'; auto].
      * intros (Hq & ls' & le' & [E | Hin] & H).
        -- injection E as -> ->. left. left. lia.
        -- right. split; [lia | exists ls', le'; auto].
    + split.
      * intros [[] | (Hq & ls' & le' & Hin & H)]. split; [lia | exists ls', le'; auto].
      * intros (Hq & ls' & le' & [E | Hin] & H).
        -- injection E as -> ->. lia.
        -- right. split; [lia | exists ls', le'; auto].
Qed.

Lemma unlocked_parts_spec (text : pystr) (ts : Z) (locks : list (Z * Z)) :
  (forall a b t, In (a, b, t) (get_unlocked_parts text ts locks) ->
     ts <= a <= b /\ b <= ts + Z.of_nat (length text) /\ t = zslice (a - ts) (b - ts) text
     /\ (a < b \/ text = []))
  /\ (forall p, (exists a b t, In (a, b, t) (get_unlocked_parts text ts locks) /\ a <= p < b)
        <-> (ts <= p < ts + Z.of_nat (length text)
             /\ forall ls le, In (ls, le) locks -> ~ (ls <= p < le))).
Proof.
  unfold get_unlocked_parts.
  set (len := Z.of_nat (length text)).
  pose proof (relative_locks_bounds len ts locks) as Hb.
  pose proof (relative_locks_covers len ts locks) as Hcov.
  destruct (relative_locks len ts locks) as [|r0 rs] eqn:Er.
  - split.
    + intros a b t [E | []]. injection E as <- <- <-.
      split; [lia|]. split; [lia|]. split.
      * unfold zslice, slice.
        replace (ts - ts) with 0 by lia. replace (ts + len - ts) with len by lia.
        unfold len. rewrite Nat2Z.id. simpl. rewrite Nat.sub_0_r, firstn_all. reflexivity.
      * destruct text as [|c text]; [right; reflexivity | left; unfold len; simpl length; lia].
    + intros p. split.
      * intros (a & b & t & [E | []] & Hp). injection E as <- <- <-. split; [lia|].
        intros ls le Hin Hl. destruct (proj2 (Hcov (p - ts))) as [].
        split; [lia | exists ls, le; split; [exact Hin | lia]].
      * intros [Hp _]. exists ts, (ts + len), text. split; [left; reflexivity | lia].
  - rewrite <- Er in Hb, Hcov |- *.
    pose proof (sorted_sort_pairs (relative_locks len ts locks)) as Hs.
    assert (Hsb : Forall (fun y => 0 <= fst y /\ fst y < snd y /\ snd y <= len)
                    (sort_pairs (relative_locks len ts locks))).
    { rewrite Forall_forall in Hb |- *. intros x Hx. apply Hb. apply in_sort_pairs. exact Hx. }
    assert (Hscov : forall q, covers q (sort_pairs (relative_locks len ts locks))
                              <-> 0 <= q < len /\ exists ls le, In (ls, le) locks /\ ls <= ts + q < le).
    { intros q. rewrite covers_sort. apply Hcov. }
    destruct (sort_pairs (relative_locks len ts locks)) as [|f rest] eqn:Es.
    + exfalso. assert (Hin : In r0 (sort_pairs (relative_locks len ts locks)))
        by (apply in_sort_pairs; rewrite Er; left; reflexivity).
      rewrite Es in Hin. destruct Hin.
    + simpl in Hs. destruct Hs as [Hsf Hs]. inversion Hsb as [|? ? Hf Hrest]; subst.
      destruct (merge_locks_ok len rest f 0) as [Hc Hq]; [lia | lia | | exact Hs |].
      { rewrite Forall_forall in Hsf, Hrest |- *. intros y Hy. split; [apply Hsf; exact Hy|].
        apply Hrest in Hy. lia. }
      destruct (unlocked_go_ok text ts (merge_locks f rest) 0) as [Hg1 Hg2]; [lia | exact Hc |].
      split.
      * intros a b t Hin. destruct (Hg1 a b t Hin) as (G1 & G2 & G3 & G4).
        split; [lia|]. split; [exact G3 | split; [exact G4 | left; exact G2]].
      * intros p. rewrite Hg2, Hq, Hscov. split.
        -- intros [G1 G2]. split; [lia|]. intros ls le Hin Hl. apply G2.
           split; [lia | exists ls, le; split; [exact Hin | lia]].
        -- intros [G1 G2]. split; [lia|]. intros (_ & ls & le & Hin & Hl).
           apply (G2 ls le Hin). lia.
Qed.

Lemma unlocked_parts_nil_iff (text : pystr) (ts : Z) (locks : list (Z * Z)) :
  text <> [] ->
  (get_unlocked_parts text ts locks = []
   <-> forall p, ts <= p < ts + Z.of_nat (length text) ->
         exists ls le, In (ls, le) locks /\ ls <= p < le).
Proof.
  intros Hne. destruct (unlocked_parts_spec text ts locks) as [Hb Hc]. split.
  - intros Hnil p Hp.
    destruct (existsb (fun '(ls, le) => (ls <=? p) && (p <? le)) locks) eqn:E.
    + apply existsb_exists in E. destruct E as ([ls le] & Hin & Hl).
      apply andb_true_iff in Hl. destruct Hl as [H1 H2]. apply Z.leb_le in H1. apply Z.ltb_lt in H2.
      exists ls, le. auto.
    + exfalso. destruct (proj2 (Hc p)) as (a & b & t & Hin & _).
      * split; [exact Hp|]. intros ls le Hin Hl.
        assert (Hx : existsb (fun '(ls, le) => (ls <=? p) && (p <? le)) locks = true).
        { apply existsb_exists. exists (ls, le). split; [exact Hin|].
          apply andb_true_iff. split; [apply Z.leb_le | apply Z.ltb_lt]; lia. }
        congruence.
      * rewrite Hnil in Hin. destruct Hin.
  - intros Hall. destruct (get_unlocked_parts text ts locks) as [|[[a b] t] r] eqn:E; [reflexivity|].
    exfalso. destruct (Hb a b t (or_introl eq_refl)) as (H1 & H2 & _ & [H3 | H3]); [|exact (Hne H3)].
    destruct (proj1 (Hc a)) as [_ Hn].
    + exists a, b, t. split; [left; reflexivity | lia].
    + destruct (Hall a) as (ls & le & Hin & Hl); [lia|]. exact (Hn ls le Hin Hl).
Qed.

Lemma remaining_go_unlocked (text : pystr) (l : list (Z * Z)) : forall prev,
  remaining_go text prev l = unlocked_go text 0 prev l.
Proof.
  induction l as [|[a b] l IH]; intros prev; simpl; [reflexivity|]. rewrite IH. reflexivity.
Qed.

Lemma nodup_insert_pair (x : Z * Z) (l : list (Z * Z)) :
  ~ In x l -> NoDup l -> NoDup (insert_pair x l).
Proof.
  induction l as [|y l IH]; simpl; intros Hx Hn.
  - constructor; [intros [] | constructor].
  - destruct (pair_leb x y).
    + constructor; [simpl; exact Hx | exact Hn].
    + inversion Hn as [|? ? Hy Hn']; subst. constructor.
      * rewrite in_insert_pair. intros [E | E]; [apply Hx; left; congruence | exact (Hy E)].
      * apply IH; [intros E; apply Hx; right; exact E | exact Hn'].
Qed.

Lemma nodup_sort_pairs (l : list (Z * Z)) : NoDup l -> NoDup (sort_pairs l).
Proof.
  unfold sort_pairs. intros Hn.
  assert (H : NoDup (@nil (Z * Z)) /\ forall x, In x l -> ~ In x (@nil (Z * Z))) by
    (split; [constructor | intros x _ []]).
  revert H. generalize (@nil (Z * Z)). induction l as [|y l IH]; intros acc [Hacc Hdis]; simpl.
  - exact Hacc.
  - inversion Hn as [|? ? Hy Hn']; subst. apply (IH Hn'). split.
    + apply nodup_insert_pair; [apply Hdis; left; reflexivity | exact Hacc].
    + intros x Hx. rewrite in_insert_pair. intros [E | E]; [subst; exact (Hy Hx)|].
      exact (Hdis x (or_intror Hx) E).
Qed.

Lemma sorted_disjoint_ichain (len : Z) (l : list (Z * Z)) : forall lo,
  sorted_fst l -> NoDup l ->
  Forall (fun y => lo <= fst y /\ fst y < snd y /\ snd y <= len) l ->
  (forall x y, In x l -> In y l -> x <> y -> snd x <= fst y \/ snd y <= fst x) ->
  ichain lo l len.
Proof.
  induction l as [|[a b] l IH]; intros lo Hs Hn Hb Hd; simpl; [exact I|].
  destruct Hs as [Hsr Hs]. inversion Hn as [|? ? Hx Hn']; subst.
  rewrite Forall_forall in Hb, Hsr.
  destruct (Hb (a, b) (or_introl eq_refl)) as (H1 & H2 & H3); simpl in H1, H2, H3.
  repeat split; try lia. apply IH; [exact Hs | exact Hn' | | ].
  - apply Forall_forall. intros [c d] Hy.
    destruct (Hb (c, d) (or_intror Hy)) as (G1 & G2 & G3). simpl in G1, G2, G3.
    specialize (Hsr (c, d) Hy). simpl in Hsr |- *.
    destruct (Hd (a, b) (c, d) (or_introl eq_refl) (or_intror Hy)) as [E | E];
      [intros E; subst; inversion E; subst; exact (Hx Hy) | simpl in E; lia | simpl in E; lia].
  - intros x y Hx' Hy'. apply Hd; right; assumption.
Qed.

End LockFacts.

Module LockExtras.
Import Locks Views LockFacts.

Theorem get_unlocked_parts_exact (text : pystr) (text_start : Z) (locked_ranges : list (Z * Z)) :
  (forall a b t, In (a, b, t) (get_unlocked_parts text text_start locked_ranges) ->
     text_start <= a <= b /\ b <= text_start + Z.of_nat (length text)
     /\ t = zslice (a - text_start) (b - text_start) text /\ (a < b \/ text = []))
  /\ (forall p, (exists a b t, In (a, b, t) (get_unlocked_parts text text_start locked_ranges)
                               /\ a <= p < b)
        <-> (text_start <= p < text_start + Z.of_nat (length text)
             /\ forall ls le, In (ls, le) locked_ranges -> ~ (ls <= p < le))).
Proof. exact (unlocked_parts_spec text text_start locked_ranges). Qed.

Theorem get_unlocked_parts_nil_iff (text : pystr) (text_start : Z) (locked_ranges : list (Z * Z))
  (Hne : text <> []) :
  get_unlocked_parts text text_start locked_ranges = []
  <-> forall p, text_start <= p < text_start + Z.of_nat (length text) ->
        exists ls le, In (ls, le) locked_ranges /\ ls <= p < le.
Proof. exact (unlocked_parts_nil_iff text text_start locked_ranges Hne). Qed.

Lemma get_unlocked_parts_nil_iff_witness :
  get_unlocked_parts (u "nike air") 10 [(8, 15); (14, 18)] = []
  <-> forall p, 10 <= p < 10 + Z.of_nat (length (u "nike air")) ->
        exists ls le, In (ls, le) [(8, 15); (14, 18)] /\ ls <= p < le.
Proof. apply get_unlocked_parts_nil_iff. vm_compute. discriminate. Defined.

Theorem fully_locked_segment_has_no_parts (text : pystr) (start : Z) (locked_ranges : list (Z * Z))
  (Hne : text <> [])
  (Hl : is_fully_locked start (start + Z.of_nat (length text)) locked_ranges = true) :
  get_unlocked_parts text start locked_ranges = [].
Proof.
  apply (unlocked_parts_nil_iff text start locked_ranges Hne). intros p Hp.
  unfold is_fully_locked in Hl. apply existsb_exists in Hl. destruct Hl as ([ls le] & Hin & Hl).
  apply andb_true_iff in Hl. destruct Hl as [H1 H2]. apply Z.leb_le in H1. apply Z.leb_le in H2.
  exists ls, le. split; [exact Hin | lia].
Qed.

Lemma fully_locked_segment_has_no_parts_witness :
  get_unlocked_parts (u "nike") 3 [(0, 2); (3, 7)] = [].
Proof.
  apply fully_locked_segment_has_no_parts; [discriminate | vm_compute; reflexivity].
Defined.

Theorem remaining_segments_exact (text : pystr) (locked_ranges : list (Z * Z))
  (Hb : Forall (fun r => 0 <= fst r /\ fst r < snd r /\ snd r <= Z.of_nat (length text)) locked_ranges)
  (Hn : NoDup locked_ranges)
  (Hd : forall x y, In x locked_ranges -> In y locked_ranges -> x <> y ->
        snd x <= fst y \/ snd y <= fst x) :
  (forall a b t, In (a, b, t) (get_remaining_text_segments text locked_ranges) ->
     0 <= a <= b /\ b <= Z.of_nat (length text) /\ t = zslice a b text)
  /\ (forall p, (exists a b t, In (a, b, t) (get_remaining_text_segments text locked_ranges)
                               /\ a <= p < b)
        <-> (0 <= p < Z.of_nat (length text)
             /\ forall ls le, In (ls, le) locked_ranges -> ~ (ls <= p < le))).
Proof.
  unfold get_remaining_text_segments. destruct locked_ranges as [|l0 ls0] eqn:El.
  - split.
    + intros a b t [E | []]. injection E as <- <- <-. split; [lia|]. split; [lia|].
      unfold zslice, slice. rewrite Nat2Z.id. simpl. rewrite Nat.sub_0_r, firstn_all. reflexivity.
    + intros p. split.
      * intros (a & b & t & [E | []] & Hp). injection E as <- <- <-. split; [lia | intros ? ? []].
      * intros [Hp _]. exists 0, (Z.of_nat (length text)), text. split; [left; reflexivity | lia].
  - rewrite <- El in Hb, Hn, Hd |- *. rewrite remaining_go_unlocked.
    destruct (unlocked_go_ok text 0 (sort_pairs locked_ranges) 0) as [H1 H2]; [lia | |].
    + apply sorted_disjoint_ichain.
      * apply sorted_sort_pairs.
      * apply nodup_sort_pairs. exact Hn.
      * rewrite Forall_forall in Hb |- *. intros x Hx. apply Hb. apply in_sort_pairs. exact Hx.
      * intros x y Hx Hy. apply Hd; apply in_sort_pairs; assumption.
    + split.
      * intros a b t Hin. destruct (H1 a b t Hin) as (G1 & G2 & G3 & G4).
        rewrite !Z.sub_0_r in G4. repeat split; try lia. exact G4.
      * intros p. rewrite H2, Z.sub_0_r, covers_sort, covers_in. split.
        -- intros [G1 G2]. split; [exact G1|]. intros ls le Hin Hl. apply G2. exists ls, le. auto.
        -- intros [G1 G2]. split; [exact G1|]. intros (ls & le & Hin & Hl). exact (G2 ls le Hin Hl).
Qed.

Lemma remaining_segments_exact_witness :
  Forall (fun r => 0 <= fst r /\ fst r < snd r /\ snd r <= Z.of_nat (length (u "nike air max")))
    [(5, 8); (0, 4)]
  /\ NoDup [(5, 8); (0, 4)]
  /\ get_remaining_text_segments (u "nike air max") [(5, 8); (0, 4)]
     = [(4, 5, u " "); (8, 12, u " max")].
Proof.
  assert (Hb : Forall (fun r => 0 <= fst r /\ fst r < snd r /\ snd r <= Z.of_nat (length (u "nike air max")))
                 [(5, 8); (0, 4)]) by (repeat constructor; vm_compute; discriminate).
  assert (Hn : NoDup [(5, 8); (0, 4)])
    by (constructor; [simpl; intros [E | []]; discriminate | constructor; [intros [] | constructor]]).
  split; [exact Hb|]. split; [exact Hn|].
  destruct (remaining_segments_exact (u "nike air max") [(5, 8); (0, 4)] Hb Hn) as [_ _].
  - intros x y [<- | [<- | []]] [<- | [<- | []]] Hxy; simpl; try lia; congruence.
  - vm_compute. reflexivity.
Defined.

End LockExtras.

Module JaMergerFacts.
Import JaMerger.

Section F.
Context {U : PyUnicode}.

Lemma dict_lookup_concat (key : list pystr) (d : list (list pystr * pystr)) (v : pystr) :
  Forall (fun e => snd e = concat (fst e)) d -> dict_lookup key d = Some v -> v = concat key.
Proof.
  induction d as [|[k w] d IH]; simpl; intros Hd Hl; [discriminate|].
  apply Forall_cons_iff in Hd. destruct Hd as [Hw Hd']. simpl in Hw.
  destruct (list_beq_str key k) eqn:E.
  - apply StrFacts.list_beq_str_eq in E. injection Hl as <-. rewrite Hw, E. reflexivity.
  - exact (IH Hd' Hl).
Qed.

Lemma compound_dict_concat : Forall (fun e => snd e = concat (fst e)) compound_dict.
Proof.
  apply Forall_forall. intros e He.
  assert (Hb : forallb (fun e => str_eqb (snd e) (concat (fst e))) compound_dict = true)
    by (vm_compute; reflexivity).
  rewrite forallb_forall in Hb. apply StrFacts.str_eqb_eq. exact (Hb e He).
Qed.

Lemma dict_try_spec (len : nat) (toks : list pystr) (l : nat) (m : pystr) :
  dict_try len toks = Some (l, m) -> m = concat (firstn l toks) /\ (1 <= l <= len)%nat.
Proof.
  induction len as [|len IH]; intros H; [discriminate|]. cbn [dict_try] in H.
  destruct (dict_lookup (firstn (S len) toks) compound_dict) eqn:E.
  - injection H as <- <-. split; [|lia].
    exact (dict_lookup_concat _ _ _ compound_dict_concat E).
  - destruct (IH H). split; [assumption | lia].
Qed.

Lemma dict_merge_go_concat (fuel : nat) : forall toks,
  concat (dict_merge_go fuel toks) = concat toks
  /\ (length (dict_merge_go fuel toks) <= length toks)%nat.
Proof.
  induction fuel as [|f IH]; intros toks; cbn [dict_merge_go]; [split; [reflexivity | lia]|].
  destruct toks as [|t rest]; [split; [reflexivity | simpl; lia]|].
  destruct (dict_try (Nat.min 4 (length (t :: rest))) (t :: rest)) as [[len m]|] eqn:E.
  - apply dict_try_spec in E. destruct E as [Hm Hl].
    destruct (IH (skipn len (t :: rest))) as [Hc Hn].
    rewrite concat_cons, Hc, Hm, <- concat_app, firstn_skipn. split; [reflexivity|].
    cbn [length]. rewrite length_skipn in Hn. simpl length in Hn, Hl. lia.
  - destruct (IH rest) as [Hc Hn]. simpl. rewrite Hc. split; [reflexivity | lia].
Qed.

Lemma rule_merge_go_cons (c nt : pystr) (rest : list pystr) :
  rule_merge_go (c :: nt :: rest)
  = if rule_should_merge c nt then (c ++ nt) :: rule_merge_go rest
    else c :: rule_merge_go (nt :: rest).
Proof. reflexivity. Qed.

Lemma katakana_merge_go_cons (dw : list pystr) (c nt : pystr) (rest : list pystr) :
  katakana_merge_go dw (c :: nt :: rest)
  = if mem nt katakana_product_suffixes && is_katakana c
       && (mem (c ++ nt) must_merge || mem (py_lower (c ++ nt)) dw || mem (c ++ nt) dw)
    then (c ++ nt) :: katakana_merge_go dw rest
    else c :: katakana_merge_go dw (nt :: rest).
Proof. reflexivity. Qed.

Lemma rule_merge_go_concat (n : nat) : forall toks, (length toks <= n)%nat ->
  concat (rule_merge_go toks) = concat toks /\ (length (rule_merge_go toks) <= length toks)%nat.
Proof.
  induction n as [|n IH]; intros toks Hn.
  - destruct toks; [split; reflexivity | simpl in Hn; lia].
  - destruct toks as [|c [|nt rest]]; [split; reflexivity | split; reflexivity |].
    rewrite rule_merge_go_cons. destruct (rule_should_merge c nt).
    + destruct (IH rest) as [Hc Hl]; [simpl in Hn |- *; lia|]. simpl. rewrite Hc.
      split; [rewrite app_assoc; reflexivity | lia].
    + destruct (IH (nt :: rest)) as [Hc Hl]; [simpl in Hn |- *; lia|].
      rewrite concat_cons, Hc. split; [reflexivity | cbn [length] in Hl |- *; lia].
Qed.

Lemma katakana_merge_go_concat (dw : list pystr) (n : nat) : forall toks, (length toks <= n)%nat ->
  concat (katakana_merge_go dw toks) = concat toks
  /\ (length (katakana_merge_go dw toks) <= length toks)%nat.
Proof.
  induction n as [|n IH]; intros toks Hn.
  - destruct toks; [split; reflexivity | simpl in Hn; lia].
  - destruct toks as [|c [|nt rest]]; [split; reflexivity | split; reflexivity |].
    rewrite katakana_merge_go_cons.
    match goal with |- context [if ?b then _ else _] => destruct b end.
    + destruct (IH rest) as [Hc Hl]; [simpl in Hn |- *; lia|]. simpl. rewrite Hc.
      split; [rewrite app_assoc; reflexivity | lia].
    + destruct (IH (nt :: rest)) as [Hc Hl]; [simpl in Hn |- *; lia|].
      rewrite concat_cons, Hc. split; [reflexivity | cbn [length] in Hl |- *; lia].
Qed.

Lemma merge_to_strings_concat (dw toks : list pystr) :
  concat (merge_to_strings dw toks) = concat toks
  /\ (length (merge_to_strings dw toks) <= length toks)%nat.
Proof.
  unfold merge_to_strings. destruct toks as [|t0 r0] eqn:Et; [split; reflexivity|].
  rewrite <- Et.
  destruct (dict_merge_go_concat (length toks) toks) as [H1 L1].
  unfold dict_merge. set (a := dict_merge_go (length toks) toks) in *.
  assert (H2 : concat (rule_merge a) = concat a /\ (length (rule_merge a) <= length a)%nat).
  { unfold rule_merge. destruct (Nat.ltb (length a) 2); [split; [reflexivity | lia]|].
    exact (rule_merge_go_concat (length a) a (le_n _)). }
  set (b := rule_merge a) in *. destruct H2 as [H2 L2].
  assert (H3 : concat (katakana_merge dw b) = concat b
               /\ (length (katakana_merge dw b) <= length b)%nat).
  { unfold katakana_merge. destruct (Nat.ltb (length b) 2); [split; [reflexivity | lia]|].
    exact (katakana_merge_go_concat dw (length b) b (le_n _)). }
  destruct H3 as [H3 L3]. split; [congruence | lia].
Qed.

End F.
End JaMergerFacts.

Module TagConcat.
Import Tagger EnhancedTagger.

Lemma tag_concat `{PyUnicode} (D : Candidates.DictManager) nrm (tokens : list pystr) context language :
  concat (map r_token (tag D nrm tokens context language)) = concat tokens
  /\ (length (tag D nrm tokens context language) <= length tokens)%nat.
Proof.
  rewrite TaggerProofs.tag_length, TaggerProofs.tag_tokens.
  unfold ja_prepare, merge_japanese_compounds.
  destruct (Candidates.lang_in language _); [|split; [reflexivity | lia]].
  destruct (has_japanese tokens); [|split; [reflexivity | lia]].
  apply JaMergerFacts.merge_to_strings_concat.
Qed.

End TagConcat.

Module PhraseFacts.
Import Tagger PhraseMerging SpecDefs.

Lemma join_space_cons (x : pystr) (l : list pystr) :
  l <> [] -> join_space (x :: l) = x ++ [32] ++ join_space l.
Proof. destruct l; [congruence | reflexivity]. Qed.

Lemma join_space_app (a b : list pystr) :
  a <> [] -> b <> [] -> join_space (a ++ b) = join_space a ++ [32] ++ join_space b.
Proof.
  intros Ha Hb. induction a as [|x a IH]; [congruence|].
  destruct a as [|y a].
  - simpl app. rewrite join_space_cons by exact Hb. reflexivity.
  - rewrite <- app_comm_cons, join_space_cons by (destruct b; [congruence | discriminate]).
    rewrite IH by discriminate. rewrite (join_space_cons x (y :: a)) by discriminate.
    rewrite !app_assoc. reflexivity.
Qed.

Lemma join_space_concat (ls : list (list pystr)) :
  Forall (fun l => l <> []) ls -> join_space (map join_space ls) = join_space (concat ls).
Proof.
  induction ls as [|x ls IH]; intros Hf; [reflexivity|].
  apply Forall_cons_iff in Hf. destruct Hf as [Hx Hf].
  destruct ls as [|y ls].
  - simpl. rewrite app_nil_r. reflexivity.
  - apply Forall_cons_iff in Hf as Hy. destruct Hy as [Hy _].
    rewrite map_cons, join_space_cons by discriminate. rewrite concat_cons.
    rewrite join_space_app; [| exact Hx |].
    + rewrite IH by exact Hf. reflexivity.
    + rewrite concat_cons. destruct y; [congruence | discriminate].
Qed.

Lemma tiles_in (r : list MergedToken) : forall lo hi x,
  tiles lo r hi -> In x r -> (m_start x < m_end x <= hi)%nat.
Proof.
  assert (Hle : forall r lo hi, tiles lo r hi -> (lo <= hi)%nat).
  { induction r0 as [|y r0 IH]; simpl; intros lo hi Ht; [lia|].
    destruct Ht as (H1 & H2 & Ht). apply IH in Ht. lia. }
  induction r as [|y r IH]; simpl; intros lo hi x Ht Hin; [destruct Hin|].
  destruct Ht as (H1 & H2 & Ht). destruct Hin as [<- | Hin].
  - apply Hle in Ht. lia.
  - exact (IH _ _ _ Ht Hin).
Qed.

Lemma tiles_length (r : list MergedToken) : forall lo hi,
  tiles lo r hi -> (length r <= hi - lo)%nat.
Proof.
  assert (Hle : forall r lo hi, tiles lo r hi -> (lo <= hi)%nat).
  { induction r0 as [|y r0 IH]; simpl; intros lo hi Ht; [lia|].
    destruct Ht as (H1 & H2 & Ht). apply IH in Ht. lia. }
  induction r as [|y r IH]; simpl; intros lo hi Ht; [lia|].
  destruct Ht as (H1 & H2 & Ht). pose proof (Hle _ _ _ Ht). apply IH in Ht. lia.
Qed.

Lemma merge_go_text `{PyUnicode} (m : PhraseMerger) (toks : list pystr) : forall fuel i x,
  In x (merge_go m toks fuel i) -> m_text x = join_space (m_orig x).
Proof.
  induction fuel as [|f IH]; intros i x Hin; [destruct Hin|].
  cbn [merge_go] in Hin. destruct (Nat.ltb i (length toks)); [|destruct Hin].
  destruct (try_len m toks i _) as [[l [tg c]]|].
  - destruct Hin as [<- | Hin]; [reflexivity | exact (IH _ _ Hin)].
  - destruct Hin as [<- | Hin]; [reflexivity | exact (IH _ _ Hin)].
Qed.

Lemma merge_join_space `{PyUnicode} (m : PhraseMerger) (tokens : list pystr) :
  join_space (merge_to_strings m tokens) = join_space tokens
  /\ (length (merge_to_strings m tokens) <= length tokens)%nat.
Proof.
  unfold merge_to_strings.
  destruct (MergerClaims.merge_go_tiles m tokens (length tokens) 0) as (Ht & Hx & Hc); [lia | lia |].
  assert (Htext : forall x, In x (merge m tokens) -> m_text x = join_space (m_orig x)).
  { unfold merge. destruct tokens; [intros x []|]. apply merge_go_text. }
  assert (Hne : Forall (fun l => l <> []) (map m_orig (merge m tokens))).
  { apply Forall_forall. intros l Hl. apply in_map_iff in Hl. destruct Hl as (x & <- & Hin).
    unfold merge in Hin. destruct tokens as [|t ts]; [destruct Hin|].
    destruct (tiles_in _ _ _ x Ht Hin) as [H1 H2]. destruct (Hx x Hin) as [Ho _].
    rewrite Ho. intros E. apply (f_equal (@length _)) in E. unfold slice in E.
    rewrite length_firstn, length_skipn in E.
    destruct (Nat.min_dec (m_end x - m_start x) (length (t :: ts) - m_start x)) as [Em | Em];
      rewrite Em in E; cbn [length] in E, H2; lia. }
  split.
  - rewrite (map_ext_in _ (fun x => join_space (m_orig x)) _ Htext).
    rewrite <- map_map, join_space_concat by exact Hne.
    unfold merge. destruct tokens; [reflexivity|]. rewrite Hc. reflexivity.
  - rewrite length_map. unfold merge. destruct tokens; [simpl; lia|].
    apply tiles_length in Ht. lia.
Qed.

End PhraseFacts.

Module CompatFacts.
Import Tagger.

Lemma compat_false_iff (a b : Tag) :
  are_tags_compatible a b = false <-> (a = SIZE /\ b = COLOR) \/ (a = COLOR /\ b = SIZE).
Proof.
  destruct a, b; vm_compute; split; intros H;
    first [ reflexivity | discriminate | destruct H as [[H1 H2] | [H1 H2]]; discriminate
          | left; split; reflexivity | right; split; reflexivity ].
Qed.

End CompatFacts.

Module CreateResultFacts.
Import Tagger.

Lemma in_insert_desc (x c : TagCandidate) (l : list TagCandidate) :
  In x (insert_desc c l) <-> c = x \/ In x l.
Proof.
  induction l as [|y l IH]; simpl; [tauto|].
  destruct (negb (Qle_bool (c_conf c) (c_conf y))); simpl; [tauto|]. rewrite IH. tauto.
Qed.

Lemma sort_desc_snoc (l : list TagCandidate) (c : TagCandidate) :
  sort_desc (l ++ [c]) = insert_desc c (sort_desc l).
Proof. unfold sort_desc. rewrite fold_left_app. reflexivity. Qed.

Lemma in_sort_desc (x : TagCandidate) (l : list TagCandidate) : In x (sort_desc l) <-> In x l.
Proof.
  induction l as [|c l IH] using rev_ind; [simpl; tauto|].
  rewrite sort_desc_snoc, in_insert_desc, IH, in_app_iff. simpl. tauto.
Qed.

Lemma sort_desc_head (l : list TagCandidate) : l <> [] ->
  exists pre p post rest, l = pre ++ p :: post /\ sort_desc l = p :: rest
    /\ Forall (fun c => (c_conf c < c_conf p)%Q) pre
    /\ Forall (fun c => (c_conf c <= c_conf p)%Q) post.
Proof.
  induction l as [|c l IH] using rev_ind; intros Hne; [congruence|].
  destruct l as [|c0 l0].
  - exists [], c, [], []. repeat split; constructor.
  - destruct IH as (pre & p & post & rest & El & Es & Hpre & Hpost); [discriminate|].
    rewrite sort_desc_snoc, Es. simpl insert_desc.
    destruct (Qle_bool (c_conf c) (c_conf p)) eqn:Eq; simpl negb; cbv iota.
    + apply Qle_bool_iff in Eq.
      exists pre, p, (post ++ [c]), (insert_desc c rest). split; [|split; [reflexivity | split]].
      * rewrite El. rewrite <- app_assoc. reflexivity.
      * exact Hpre.
      * apply Forall_app. split; [exact Hpost | constructor; [exact Eq | constructor]].
    + assert (Hlt : (c_conf p < c_conf c)%Q).
      { apply Qnot_le_lt. intros H. apply Qle_bool_iff in H. congruence. }
      exists (c0 :: l0), c, [], (p :: rest). split; [reflexivity|]. split; [reflexivity|].
      split; [|constructor]. rewrite El. apply Forall_app. split.
      * revert Hpre. apply Forall_impl. intros y Hy. eapply Qlt_trans; eassumption.
      * constructor; [exact Hlt|]. revert Hpost. apply Forall_impl. intros y Hy.
        eapply Qle_lt_trans; eassumption.
Qed.

Lemma create_result_spec (token : pystr) (candidates : list TagCandidate) :
  candidates <> [] ->
  exists pre p post,
    candidates = pre ++ p :: post
    /\ Forall (fun c => (c_conf c < c_conf p)%Q) pre
    /\ Forall (fun c => (c_conf c <= c_conf p)%Q) post
    /\ r_primary (create_result token candidates) = c_tag p
    /\ r_conf (create_result token candidates) = c_conf p
    /\ r_method (create_result token candidates) = c_method p
    /\ exists extra, r_tags (create_result token candidates) = c_tag p :: extra
       /\ (length extra <= 1)%nat
       /\ Forall (fun g => are_tags_compatible (c_tag p) g = true
                           /\ exists c, In c candidates /\ c_tag c = g /\ ((7#10) <= c_conf c)%Q)
                 extra.
Proof.
  intros Hne. destruct (sort_desc_head candidates Hne) as (pre & p & post & rest & El & Es & Hpre & Hpost).
  exists pre, p, post. split; [exact El|]. split; [exact Hpre|]. split; [exact Hpost|].
  unfold create_result. rewrite Es. cbn [r_primary r_conf r_method r_tags].
  split; [reflexivity|]. split; [reflexivity|]. split; [reflexivity|].
  eexists. split; [reflexivity|]. split.
  - rewrite length_firstn. lia.
  - apply Forall_forall. intros g Hg.
    assert (Hg' : In g (map c_tag (filter (fun c => are_tags_compatible (c_tag p) (c_tag c)
                                                    && Qle_bool (7#10)%Q (c_conf c)) rest))).
    { rewrite <- (firstn_skipn 1 (map c_tag _)). apply in_or_app. left. exact Hg. }
    apply in_map_iff in Hg'. destruct Hg' as (c & <- & Hc). apply filter_In in Hc.
    destruct Hc as [Hc Hb]. apply andb_true_iff in Hb. destruct Hb as [Hb1 Hb2].
    split; [exact Hb1|]. exists c. split; [|split; [reflexivity | apply Qle_bool_iff; exact Hb2]].
    apply in_sort_desc. rewrite Es. right. exact Hc.
Qed.

End CreateResultFacts.

Module ConfFacts.
Import Tagger Candidates EnhancedTagger AuxViews.

Ltac qconst := unfold qbounded; cbn [c_conf cand r_conf]; split; unfold Qle; simpl; lia.

Ltac const_forall :=
  repeat first
    [ apply Forall_app; split
    | match goal with |- Forall _ (if ?b then _ else _) => destruct b end
    | apply Forall_nil
    | apply Forall_cons; [qconst|] ].

Section Bounds.
Context {U : PyUnicode}.
Variable D : DictManager.
Variable nrm : pystr -> option pystr.
Hypothesis HD : forall dn w c, dm_get_entry D dn w = Some (Some c) -> qbounded c.

Lemma entry_confidence_bounded (dn w : pystr) : qbounded (entry_confidence (dm_get_entry D dn w)).
Proof.
  unfold entry_confidence. destruct (dm_get_entry D dn w) as [[c|]|] eqn:E;
    [exact (HD _ _ _ E) | qconst | qconst].
Qed.

Lemma match_dictionary_bounded (token : pystr) (language : option pystr) :
  Forall (fun c => qbounded (c_conf c)) (match_dictionary D nrm token language).
Proof.
  unfold match_dictionary. apply Forall_forall. intros c Hc.
  apply in_flat_map in Hc. destruct Hc as ([dn tg] & _ & Hc).
  destruct (dm_contains D (u dn) (py_lower token)).
  - destruct Hc as [<- | []]. apply entry_confidence_bounded.
  - destruct (if lang_in language _ then nrm (py_lower token) else None) as [n|]; [|destruct Hc].
    destruct (dm_contains D (u dn) n); [|destruct Hc].
    destruct Hc as [<- | []]. cbn [c_conf].
    destruct (entry_confidence_bounded (u dn) n) as [H0 H1]. split.
    + apply Qmult_le_0_compat; [exact H0 | unfold Qle; simpl; lia].
    + apply Qle_trans with (1 * (95#100))%Q.
      * apply Qmult_le_compat_r; [exact H1 | unfold Qle; simpl; lia].
      * unfold Qle; simpl; lia.
Qed.

Lemma get_candidates_bounded (token : pystr) (position : nat) (language : option pystr) :
  Forall (fun c => qbounded (c_conf c)) (get_candidates D nrm token position language).
Proof.
  unfold get_candidates.
  destruct (mem (py_lower token) stopwords); [const_forall|].
  assert (Hc : Forall (fun c => qbounded (c_conf c))
                 (match_dictionary D nrm token language ++ match_patterns token ++ infer_by_rules token)).
  { apply Forall_app. split; [apply match_dictionary_bounded|].
    unfold match_patterns, infer_by_rules. const_forall. }
  destruct (forallb _ _); [|exact Hc]. apply Forall_app. split; [exact Hc|].
  unfold infer_heuristic. const_forall.
Qed.

End Bounds.

Lemma create_result_bounded (token : pystr) (cands : list TagCandidate) :
  Forall (fun c => qbounded (c_conf c)) cands -> qbounded (r_conf (create_result token cands)).
Proof.
  intros Hf. unfold create_result.
  destruct (sort_desc cands) as [|p rest] eqn:Es; [qconst|]. cbn [r_conf].
  rewrite Forall_forall in Hf. apply Hf. apply CreateResultFacts.in_sort_desc. rewrite Es. left. reflexivity.
Qed.

Lemma adjust_at_bounded `{PyUnicode} (results : list TagResult) (tokens : list pystr) (i : nat) :
  (forall r, In r results -> qbounded (r_conf r)) -> qbounded (r_conf (adjust_at results tokens i)).
Proof.
  intros Hr.
  assert (H0 : qbounded (r_conf (nth i results dummy_result))).
  { destruct (Nat.lt_ge_cases i (length results)) as [Hi | Hi].
    - apply Hr. apply nth_In. exact Hi.
    - rewrite nth_overflow by exact Hi. qconst. }
  unfold adjust_at.
  match goal with |- context [if ?b then unit_result _ else _] =>
    assert (H1 : qbounded (r_conf (if b then unit_result (nth i results dummy_result)
                                   else nth i results dummy_result)))
      by (destruct b; [qconst | exact H0]);
    set (res := if b then unit_result (nth i results dummy_result) else nth i results dummy_result) in *
  end.
  match goal with |- context [negb (Qeq_bool ?a 0)] => destruct (negb (Qeq_bool a 0)) end;
    [|exact H1].
  cbn [r_conf].
  match goal with |- qbounded (if Qle_bool 1 ?y then _ else _) =>
    assert (Hy : (0 <= y)%Q) end.
  { match goal with |- (0 <= if Qle_bool 0 ?x then _ else _)%Q =>
      destruct (Qle_bool 0 x) eqn:E; [apply Qle_bool_iff; exact E | unfold Qle; simpl; lia] end. }
  match goal with |- qbounded (if Qle_bool 1 ?y then _ else _) =>
    destruct (Qle_bool 1 y) eqn:E end; [qconst|].
  split; [exact Hy|]. apply Qlt_le_weak. apply Qnot_le_lt. intros Hl. apply Qle_bool_iff in Hl.
  congruence.
Qed.

Lemma tag_bounded `{PyUnicode} (D : DictManager) nrm
  (HD : forall dn w c, dm_get_entry D dn w = Some (Some c) -> qbounded c)
  (tokens : list pystr) context language :
  forall r, In r (tag D nrm tokens context language) -> qbounded (r_conf r).
Proof.
  unfold tag.
  assert (Hb : forall r, In r (stage_b D nrm (ja_prepare D language tokens) language) -> qbounded (r_conf r)).
  { intros r Hin. unfold stage_b in Hin. apply in_map_iff in Hin.
    destruct Hin as ([i tok] & <- & _). apply create_result_bounded. apply get_candidates_bounded.
    exact HD. }
  unfold apply_context_adjustments. destruct (Nat.ltb _ 2); [exact Hb|].
  intros r Hin. apply in_map_iff in Hin. destruct Hin as (i & <- & _). apply adjust_at_bounded.
  exact Hb.
Qed.

End ConfFacts.

Module ShapeFacts.
Import Tagger Candidates EnhancedTagger AuxViews.

Lemma create_result_shape (token : pystr) (cands : list TagCandidate) :
  tag_shape (create_result token cands).
Proof.
  destruct cands as [|c0 cs] eqn:Ec.
  - exists []. split; [reflexivity|]. split; [simpl; lia | constructor].
  - rewrite <- Ec.
    destruct (CreateResultFacts.create_result_spec token cands) as
      (pre & p & post & _ & _ & _ & Hp & _ & _ & extra & Ht & Hl & Hf); [congruence|].
    exists extra. rewrite Ht, Hp. split; [reflexivity|]. split; [exact Hl|].
    revert Hf. apply Forall_impl. intros g [Hg _]. exact Hg.
Qed.

Lemma adjust_at_shape `{PyUnicode} (results : list TagResult) (tokens : list pystr) (i : nat) :
  (forall r, In r results -> tag_shape r) -> tag_shape (adjust_at results tokens i).
Proof.
  intros Hr.
  assert (H0 : tag_shape (nth i results dummy_result)).
  { destruct (Nat.lt_ge_cases i (length results)) as [Hi | Hi].
    - apply Hr. apply nth_In. exact Hi.
    - rewrite nth_overflow by exact Hi. exists []. split; [reflexivity | split; [simpl; lia | constructor]]. }
  unfold adjust_at.
  match goal with |- context [if ?b then unit_result _ else _] =>
    assert (H1 : tag_shape (if b then unit_result (nth i results dummy_result)
                            else nth i results dummy_result))
      by (destruct b; [exists []; split; [reflexivity | split; [simpl; lia | constructor]] | exact H0]);
    set (res := if b then unit_result (nth i results dummy_result) else nth i results dummy_result) in *
  end.
  match goal with |- context [negb (Qeq_bool ?a 0)] => destruct (negb (Qeq_bool a 0)) end;
    [|exact H1].
  exact H1.
Qed.

Lemma tag_results_shape `{PyUnicode} (D : DictManager) nrm (tokens : list pystr) context language :
  forall r, In r (tag D nrm tokens context language) -> tag_shape r.
Proof.
  unfold tag.
  assert (Hb : forall r, In r (stage_b D nrm (ja_prepare D language tokens) language) -> tag_shape r).
  { intros r Hin. unfold stage_b in Hin. apply in_map_iff in Hin.
    destruct Hin as ([i tok] & <- & _). apply create_result_shape. }
  unfold apply_context_adjustments. destruct (Nat.ltb _ 2); [exact Hb|].
  intros r Hin. apply in_map_iff in Hin. destruct Hin as (i & <- & _). apply adjust_at_shape.
  exact Hb.
Qed.

End ShapeFacts.

Module FormatFacts.
Import Tagger Pipeline Format AuxViews.

Lemma tag_eqb_spec (a b : Tag) : tag_eqb a b = true <-> a = b.
Proof. unfold tag_eqb. destruct (tag_eq_dec a b); split; congruence. Qed.

Lemma tag_eqb_sym (a b : Tag) : tag_eqb a b = tag_eqb b a.
Proof. unfold tag_eqb. destruct (tag_eq_dec a b), (tag_eq_dec b a); congruence. Qed.

Lemma summary_get_app (t : Tag) (s s' : list (Tag * list pystr)) :
  summary_get t (s ++ s') = match summary_get t s with Some v => Some v | None => summary_get t s' end.
Proof.
  induction s as [|[k v] s IH]; simpl; [reflexivity|].
  destruct (tag_eqb k t); [reflexivity | exact IH].
Qed.

Lemma summary_get_none (t : Tag) (s : list (Tag * list pystr)) :
  existsb (fun e => tag_eqb (fst e) t) s = false -> summary_get t s = None.
Proof.
  induction s as [|[k v] s IH]; simpl; [reflexivity|].
  destruct (tag_eqb k t); [discriminate | exact IH].
Qed.

Lemma summary_get_map_upd (s : list (Tag * list pystr)) (p t : Tag) (tok : pystr) :
  summary_get t (map (fun e => if tag_eqb (fst e) p then (fst e, snd e ++ [tok]) else e) s)
  = if tag_eqb p t then option_map (fun v => v ++ [tok]) (summary_get t s) else summary_get t s.
Proof.
  induction s as [|[k v] s IH]; cbn [map summary_get]; [destruct (tag_eqb p t); reflexivity|].
  rewrite IH. cbn [fst snd].
  destruct (tag_eqb k p) eqn:Ekp.
  - apply tag_eqb_spec in Ekp. subst k. cbn [summary_get].
    destruct (tag_eqb p t); reflexivity.
  - cbn [summary_get]. destruct (tag_eqb k t) eqn:Ekt; [|reflexivity].
    destruct (tag_eqb p t) eqn:Ept; [|reflexivity].
    apply tag_eqb_spec in Ekt. apply tag_eqb_spec in Ept. subst. rewrite (proj2 (tag_eqb_spec t t) eq_refl) in Ekp.
    discriminate.
Qed.

Lemma summary_get_some (s : list (Tag * list pystr)) (p : Tag) :
  existsb (fun e => tag_eqb (fst e) p) s = true -> exists v, summary_get p s = Some v.
Proof.
  induction s as [|[k v] s IH]; simpl; [discriminate|].
  destruct (tag_eqb k p); [intros _; exists v; reflexivity | exact IH].
Qed.

Lemma summary_add_get (s : list (Tag * list pystr)) (p t : Tag) (tok : pystr) :
  summary_get t (summary_add s p tok)
  = if tag_eqb p t then opt_app (summary_get t s) [tok] else summary_get t s.
Proof.
  unfold summary_add.
  destruct (existsb (fun e => tag_eqb (fst e) p) s) eqn:Ex.
  - rewrite summary_get_map_upd. destruct (tag_eqb p t) eqn:Ept; [|reflexivity].
    apply tag_eqb_spec in Ept. subst t. destruct (summary_get_some s p Ex) as [v ->]. reflexivity.
  - rewrite summary_get_app. cbn [summary_get].
    destruct (tag_eqb p t) eqn:Ept.
    + apply tag_eqb_spec in Ept. subst t. rewrite summary_get_none by exact Ex. reflexivity.
    + destruct (summary_get t s); reflexivity.
Qed.

Lemma summary_fold_get (t : Tag) (rs : list TagResult) : forall acc,
  summary_get t (fold_left (fun summary r => summary_add summary (r_primary r) (r_token r)) rs acc)
  = opt_app (summary_get t acc) (map r_token (filter (fun r => tag_eqb (r_primary r) t) rs)).
Proof.
  induction rs as [|r rs IH]; intros acc; simpl.
  - destruct (summary_get t acc); simpl; [rewrite app_nil_r|]; reflexivity.
  - rewrite IH, summary_add_get. destruct (tag_eqb (r_primary r) t); simpl; [|reflexivity].
    destruct (summary_get t acc); simpl; [rewrite <- app_assoc; reflexivity|].
    reflexivity.
Qed.

Lemma format_output_summary (round2 : Q -> Q) (original : pystr) (tokens : list pystr)
  (tag_results : list TagResult) (t : Tag) :
  summary_get t (tag_summary (format_output round2 original tokens tag_results))
  = match map r_token (filter (fun r => tag_eqb (r_primary r) t) tag_results) with
    | [] => None
    | l => Some l
    end.
Proof.
  unfold format_output. cbn [tag_summary]. rewrite summary_fold_get. simpl.
  destruct (map r_token _); reflexivity.
Qed.

End FormatFacts.

Module TrieFacts.
Import SpanExtractor TrieView.

Lemma node_at_insert (w : list Z) (d : PhraseData) : forall n,
  exists ch, node_at (insert_path w d n) w = Some (TNode true (Some d) ch).
Proof.
  induction w as [|c w IH]; intros n; simpl.
  - eexists. reflexivity.
  - rewrite SpanClaims.child_set_child, Z.eqb_refl. apply IH.
Qed.

Lemma walk_full (k : list Z) : forall n i last m,
  k <> [] -> node_at n k = Some m -> node_is_end m = true ->
  walk n k i last = Some ((i + length k)%nat, node_data m).
Proof.
  induction k as [|c k IH]; intros n i last m Hne Hn He; [congruence|].
  simpl in Hn |- *. destruct (child c (node_children n)) as [n'|]; [|discriminate].
  destruct k as [|c' k].
  - simpl in Hn. injection Hn as ->. rewrite He. simpl. f_equal. f_equal. lia.
  - rewrite (IH n' (S i) _ m) by (discriminate || assumption). simpl. f_equal. f_equal. lia.
Qed.

Lemma search_inserted `{PyUnicode} (root : TrieNode) (w : pystr) (d : PhraseData) :
  w <> [] -> length (py_lower w) = length w ->
  search_longest (trie_insert root w d) w 0 = Some (w, length w, Some d).
Proof.
  intros Hne Hl. unfold search_longest, trie_insert. simpl skipn.
  destruct (node_at_insert (py_lower w) d root) as [ch Hch].
  rewrite (walk_full (py_lower w) _ 0 None _)
    by (try exact Hch; try reflexivity; intros E; rewrite E in Hl; destruct w; simpl in Hl; congruence).
  simpl. rewrite Hl. unfold slice. rewrite Nat.sub_0_r, firstn_all.
  destruct w; [congruence | reflexivity].
Qed.

End TrieFacts.

Module ExtractFacts.
Import Tagger SpanExtractor TrieView AuxViews.

Lemma first_some_spec {A} (f : A -> option nat) (l : list A) (r : nat) :
  first_some f l = Some r -> exists x, In x l /\ f x = Some r.
Proof.
  induction l as [|x l IH]; simpl; [discriminate|].
  destruct (f x) eqn:E.
  - intros H. injection H as <-. exists x. auto.
  - intros H. destruct (IH H) as (y & Hy & Hf). exists y. auto.
Qed.

Lemma lit_eqb_length `{PyUnicode} (ic : bool) (a b : pystr) :
  Candidates.lit_eqb ic a b = true -> length a = length b.
Proof.
  revert b; induction a as [|x a IH]; intros [|y b]; simpl; try discriminate; [reflexivity|].
  intros Hx. apply andb_true_iff in Hx. destruct Hx as [_ Hx]. f_equal. exact (IH b Hx).
Qed.

Lemma number_units_nonempty `{PyUnicode} : Forall (fun un => un <> []) number_units.
Proof.
  apply Forall_forall. intros un Hin.
  assert (Hb : forallb (fun un : pystr => negb (Nat.eqb (length un) 0)) number_units = true)
    by (vm_compute; reflexivity).
  rewrite forallb_forall in Hb. specialize (Hb un Hin). destruct un; [discriminate | congruence].
Qed.

Lemma try_units_bound `{PyUnicode} (s : pystr) (v e : nat) :
  try_units s v = Some e -> (v < e <= length s)%nat.
Proof.
  unfold try_units. intros H0. apply first_some_spec in H0. destruct H0 as (un & Hin & Hf).
  destruct (Candidates.lit_eqb true (firstn (length un) (skipn v s)) un) eqn:E; [|discriminate].
  injection Hf as <-. apply lit_eqb_length in E. rewrite length_firstn, length_skipn in E.
  pose proof (proj1 (Forall_forall _ _) number_units_nonempty un Hin) as Hne.
  destruct un as [|c un]; [congruence|]. simpl length in *.
  destruct (Nat.min_dec (S (length un)) (length s - v)) as [Em | Em]; rewrite Em in E; lia.
Qed.

Lemma in_rev_seq (a n k : nat) : In k (rev (seq a n)) -> (a <= k)%nat.
Proof. rewrite <- in_rev, in_seq. lia. Qed.

Lemma match_number_unit_bound `{PyUnicode} (s : pystr) (p e : nat) :
  match_number_unit s p = Some e -> (p < e <= length s)%nat.
Proof.
  unfold match_number_unit. intros H0.
  apply first_some_spec in H0. destruct H0 as (k1 & Hk1 & H1). apply in_rev_seq in Hk1.
  apply first_some_spec in H1. destruct H1 as (r & Hr & H2).
  assert (Hrq : (p + k1 <= r)%nat).
  { destruct (nth (p + k1) s 0 =? 46); simpl in Hr; lia. }
  apply first_some_spec in H2. destruct H2 as (k2 & Hk2 & H3). apply in_rev_seq in Hk2.
  apply first_some_spec in H3. destruct H3 as (k3 & Hk3 & H4). apply in_rev_seq in Hk3.
  apply try_units_bound in H4. lia.
Qed.

Lemma finditer_go_bound `{PyUnicode} (s : pystr) (fuel : nat) : forall p a b,
  In (a, b) (finditer_go fuel s p) -> (a < b <= length s)%nat.
Proof.
  induction fuel as [|f IH]; intros p a b Hin; [destruct Hin|].
  cbn [finditer_go] in Hin. destruct (Nat.ltb p (length s)); [|destruct Hin].
  destruct (match_number_unit s p) as [e|] eqn:E.
  - destruct Hin as [Eq | Hin].
    + injection Eq as <- <-. exact (match_number_unit_bound s p e E).
    + exact (IH _ _ _ Hin).
  - exact (IH _ _ _ Hin).
Qed.

Lemma search_longest_bound `{PyUnicode} (root : TrieNode) (text : pystr) (start : nat)
  (m : pystr) (pos : nat) (d : option PhraseData) :
  search_longest root text start = Some (m, pos, d) ->
  m = slice start pos text /\ (start < pos <= length (py_lower text))%nat.
Proof.
  unfold search_longest.
  destruct (SpanClaims.walk_spec (skipn start (py_lower text)) root start None)
    as [[Hw _] | (j & d' & Hj & _ & Hw & _)]; rewrite Hw; [discriminate|].
  destruct (slice start (start + j) text) eqn:Es; [discriminate|].
  intros E. injection E as <- <- _. split; [symmetry; exact Es|].
  rewrite length_skipn in Hj. lia.
Qed.

Lemma latin_bound `{PyUnicode} (ex : Extractor) (text text_lower : pystr) (start : nat)
  (m : pystr) (e : nat) (d : option PhraseData) :
  match_latin_with_boundary ex text text_lower start = Some (m, e, d) ->
  m = slice start e text /\ (start < e <= length (py_lower text_lower))%nat.
Proof.
  unfold match_latin_with_boundary.
  destruct (Nat.ltb 0 start && is_ascii_alnum (nth (start - 1) text_lower 0)); [discriminate|].
  destruct (search_longest (latin_trie ex) text_lower start) as [[[m' e'] d']|] eqn:Es;
    [|discriminate].
  apply search_longest_bound in Es. destruct Es as [_ Hb].
  destruct (Nat.ltb e' (length text) && is_ascii_alnum (nth e' text_lower 0)); [discriminate|].
  intros E. injection E as <- <- _. split; [reflexivity | exact Hb].
Qed.

Lemma extract_loop_ok `{PyUnicode} (ex : Extractor) (text : pystr)
  (H1 : length (py_lower text) = length text)
  (H2 : length (py_lower (py_lower text)) = length text) (fuel : nat) :
  forall i spans locked,
  locked = map span_iv spans -> Forall (span_ok text) spans ->
  snd (extract_loop ex text (py_lower text) fuel i spans locked)
     = map span_iv (fst (extract_loop ex text (py_lower text) fuel i spans locked))
  /\ Forall (span_ok text) (fst (extract_loop ex text (py_lower text) fuel i spans locked)).
Proof.
  induction fuel as [|f IH]; intros i spans locked Hl Hf; cbn [extract_loop].
  - simpl. auto.
  - destruct (Nat.ltb i (length text)); [|simpl; auto].
    destruct (is_in_locked_range i locked); [apply IH; assumption|].
    match goal with |- context [match ?r with Some _ => _ | None => _ end] =>
      destruct r as [[[mt e] d]|] eqn:Er end; [|apply IH; assumption].
    assert (Hok : span_ok text (span_of i (mt, e, d))).
    { assert (Hb : mt = slice i e text /\ (i < e <= length text)%nat).
      { destruct (is_cjk_char (nth i text 0)).
        - apply search_longest_bound in Er. rewrite H1 in Er. exact Er.
        - apply latin_bound in Er. rewrite H2 in Er. exact Er. }
      destruct Hb as [-> Hb]. unfold span_of, span_ok. destruct d; cbn; auto. }
    apply IH.
    + rewrite Hl, map_app. f_equal. unfold span_of, span_iv. destruct d; reflexivity.
    + apply Forall_app. split; [exact Hf | constructor; [exact Hok | constructor]].
Qed.

Lemma map_insert_span (s : Span) (l : list Span) :
  map span_iv (insert_span s l) = insert_range (span_iv s) (map span_iv l).
Proof.
  induction l as [|x l IH]; simpl; [reflexivity|].
  destruct (Nat.ltb (sp_start s) (sp_start x)); simpl; [reflexivity|]. rewrite IH. reflexivity.
Qed.

Lemma map_fold_insert_span (l acc : list Span) :
  map span_iv (fold_left (fun acc s => insert_span s acc) l acc)
  = fold_left (fun acc r => insert_range r acc) (map span_iv l) (map span_iv acc).
Proof.
  revert acc; induction l as [|x l IH]; intros acc; simpl; [reflexivity|].
  rewrite IH, map_insert_span. reflexivity.
Qed.

Lemma in_insert_span (x s : Span) (l : list Span) : In x (insert_span s l) <-> s = x \/ In x l.
Proof.
  induction l as [|y l IH]; simpl; [tauto|].
  destruct (Nat.ltb (sp_start s) (sp_start y)); simpl; [tauto|]. rewrite IH. tauto.
Qed.

Lemma in_fold_insert_span (x : Span) (l acc : list Span) :
  In x (fold_left (fun acc s => insert_span s acc) l acc) <-> In x l \/ In x acc.
Proof.
  revert acc; induction l as [|y l IH]; intros acc; simpl; [tauto|].
  rewrite IH, in_insert_span. tauto.
Qed.

Lemma extract_spans_ok `{PyUnicode} (ex : Extractor) (text : pystr)
  (H1 : length (py_lower text) = length text)
  (H2 : length (py_lower (py_lower text)) = length text) :
  snd (extract ex text) = map span_iv (fst (extract ex text))
  /\ forall s, In s (fst (extract ex text)) ->
       (sp_start s < sp_end s <= length text)%nat /\ sp_text s = slice (sp_start s) (sp_end s) text.
Proof.
  unfold extract.
  set (nu := finditer_number_unit text).
  set (spans0 := map (fun '(a, b) => mkSpan a b (slice a b text) ST_NUMBER_UNIT SIZE (95#100)%Q) nu).
  assert (Hl0 : nu = map span_iv spans0).
  { unfold spans0. rewrite map_map. rewrite <- (map_id nu) at 1. apply map_ext.
    intros [a b]. reflexivity. }
  assert (Hf0 : Forall (span_ok text) spans0).
  { unfold spans0. apply Forall_forall. intros s Hs. apply in_map_iff in Hs.
    destruct Hs as ([a b] & <- & Hin). unfold nu, finditer_number_unit in Hin.
    apply finditer_go_bound in Hin. split; [exact Hin | reflexivity]. }
  destruct (extract_loop_ok ex text H1 H2 (S (length text)) 0 spans0 nu Hl0 Hf0) as (Hl & Hf).
  destruct (extract_loop ex text (py_lower text) (S (length text)) 0 spans0 nu) as [spans locked].
  cbn [fst snd] in *. split.
  - rewrite map_fold_insert_span, Hl. reflexivity.
  - intros s Hs. apply in_fold_insert_span in Hs. destruct Hs as [Hs | []].
    rewrite Forall_forall in Hf. exact (Hf s Hs).
Qed.

End ExtractFacts.

Module SegTextFacts.
Import Segmenter SpecDefs SegView Views AuxViews SegmenterClaims.

Section Text.
Context {U : PyUnicode}.
Variable text : pystr.

Lemma ws_between_trans (a b c : nat) :
  ws_between text a b -> ws_between text b c -> ws_between text a c.
Proof.
  intros H1 H2 k Hk. destruct (Nat.lt_ge_cases k b); [apply H1 | apply H2]; lia.
Qed.

Lemma ws_between_empty (a b : nat) : (b <= a)%nat -> ws_between text a b.
Proof. intros H k Hk. lia. Qed.

Lemma wchain_extend (segs : list Segment) : forall lo h h',
  wchain text lo segs h -> ws_between text h h' -> wchain text lo segs h'.
Proof.
  induction segs as [|s segs IH]; simpl; intros lo h h' Hc Hw.
  - exact (ws_between_trans _ _ _ Hc Hw).
  - destruct Hc as (H1 & H2 & H3). split; [exact H1|]. split; [exact H2|]. exact (IH _ _ _ H3 Hw).
Qed.

Lemma wchain_app (segs : list Segment) : forall lo h s hi,
  wchain text lo segs h -> ws_between text h (seg_start s) ->
  seg_text s = map ws_to_space (slice (seg_start s) (seg_end s) text) ->
  ws_between text (seg_end s) hi ->
  wchain text lo (segs ++ [s]) hi.
Proof.
  induction segs as [|x segs IH]; simpl; intros lo h s hi Hc Hg Ht Hhi.
  - split; [exact (ws_between_trans _ _ _ Hc Hg)|]. split; [exact Ht | exact Hhi].
  - destruct Hc as (H1 & H2 & H3). split; [exact H1|]. split; [exact H2|]. eapply IH; eauto.
Qed.

Lemma map_ws_id (ct : pystr) :
  Forall (fun x => py_isspace x = false) ct -> map ws_to_space ct = ct.
Proof.
  induction ct as [|x ct IH]; intros Hf; [reflexivity|].
  apply Forall_cons_iff in Hf. destruct Hf as [Hx Hf]. simpl. unfold ws_to_space at 1.
  rewrite Hx, IH by exact Hf. reflexivity.
Qed.

Lemma slice_app3 (a b : nat) (l : pystr) : forall c,
  (a <= b <= c)%nat -> slice a b l ++ slice b c l = slice a c l.
Proof.
  unfold slice. intros c Hb. replace (c - a)%nat with ((b - a) + (c - b))%nat by lia.
  assert (Hs : skipn b l = skipn (b - a) (skipn a l))
    by (rewrite skipn_skipn; f_equal; lia).
  rewrite Hs.
  generalize (skipn a l). generalize (b - a)%nat, (c - b)%nat. clear.
  induction n as [|n IH]; intros m l0; simpl; [reflexivity|].
  destruct l0 as [|x l0]; [rewrite firstn_nil; reflexivity|]. simpl. rewrite IH. reflexivity.
Qed.

Lemma slice_snoc (a i : nat) : (a <= i)%nat -> (i < length text)%nat ->
  slice a (S i) text = slice a i text ++ [nth i text 0].
Proof.
  intros Ha Hi. rewrite <- (slice_app3 a i text (S i)) by lia. f_equal.
  unfold slice. replace (S i - i)%nat with 1%nat by lia.
  rewrite (MergerClaims.skipn_nth_cons text 0 i) by lia. reflexivity.
Qed.

Lemma slice_empty (a : nat) : slice a a text = [].
Proof. unfold slice. rewrite Nat.sub_diag. reflexivity. Qed.

Lemma text_step (mal : bool) (i : nat) (st : seg_state) :
  (i < length text)%nat -> seg_inv i st -> seg_text_inv text i st ->
  seg_text_inv text (S i) (segment_step mal st (i, nth i text 0)).
Proof.
  destruct st as [[[segs ct] cur] cs]. intros Hi (Hlen & Hsp & Hcur & Hch & Hns) (Hcs & Hct & Hw).
  set (c := nth i text 0).
  assert (Happ : ct ++ [c] = slice cs (S i) text) by (rewrite Hct; symmetry; apply slice_snoc; lia).
  assert (Hflush : strip_nonempty ct = true ->
                   wchain text 0 (segs ++ [mkSeg ct cur cs i]) i).
  { intros _. eapply wchain_app; [exact Hw | apply ws_between_empty; simpl; lia | | ].
    - simpl. rewrite Hct in Hsp |- *. symmetry. apply map_ws_id. exact Hsp.
    - apply ws_between_empty. simpl. lia. }
  assert (Hnil : strip_nonempty ct = false -> ct = [] /\ cs = i).
  { intros Est. pose proof (strip_empty ct Hsp Est) as ->. simpl in Hlen. split; [reflexivity | lia]. }
  cbn [segment_step].
  destruct (script_eqb (get_script_type c) SPACE) eqn:Esp.
  - assert (Hc : py_isspace c = true).
    { unfold get_script_type in Esp. destruct (py_isspace c); [reflexivity|].
      repeat match type of Esp with context [if ?b then _ else _] => destruct b end;
        vm_compute in Esp; discriminate Esp. }
    assert (Hci : ws_between text i (S i)).
    { intros k Hk. replace k with i by lia. exact Hc. }
    destruct (strip_nonempty ct) eqn:Est.
    + split; [lia|]. split; [rewrite slice_empty; reflexivity|].
      apply (wchain_extend _ _ i); [exact (Hflush eq_refl) | exact Hci].
    + destruct (Hnil eq_refl) as [-> ->]. split; [lia|]. split; [rewrite slice_empty; reflexivity|].
      exact (wchain_extend _ _ _ _ Hw Hci).
  - destruct cur as [cur0|].
    + destruct (negb (script_eqb (get_script_type c) cur0)).
      * destruct (mal && can_merge (Some cur0) (Some (get_script_type c))).
        -- split; [lia|]. split; [exact Happ | exact Hw].
        -- destruct (strip_nonempty ct) eqn:Est.
           ++ split; [lia|]. split; [|exact (Hflush eq_refl)].
              unfold slice. replace (S i - i)%nat with 1%nat by lia.
              rewrite (MergerClaims.skipn_nth_cons text 0 i) by lia. reflexivity.
           ++ destruct (Hnil eq_refl) as [-> ->]. split; [lia|]. split; [|exact Hw].
              unfold slice. replace (S i - i)%nat with 1%nat by lia.
              rewrite (MergerClaims.skipn_nth_cons text 0 i) by lia. reflexivity.
      * split; [lia|]. split; [exact Happ | exact Hw].
    + split; [lia|]. split; [exact Happ | exact Hw].
Qed.

Lemma text_fold (mal : bool) (n : nat) : forall k st,
  (k + n = length text)%nat -> seg_inv k st -> seg_text_inv text k st ->
  seg_text_inv text (length text)
    (fold_left (segment_step mal) (combine (seq k n) (skipn k text)) st).
Proof.
  induction n as [|n IH]; intros k st Hk Hs Ht.
  - simpl. rewrite Nat.add_0_r in Hk. subst k. exact Ht.
  - rewrite (MergerClaims.skipn_nth_cons text 0 k) by lia. simpl.
    apply IH; [lia | apply step_inv; exact Hs | apply text_step; [lia | exact Hs | exact Ht]].
Qed.

Lemma map_ws_gap (a b : nat) : (b <= length text)%nat -> ws_between text a b ->
  map ws_to_space (slice a b text) = repeat 32 (b - a).
Proof.
  intros Hb. remember (b - a)%nat as n eqn:En. revert a En.
  induction n as [|n IH]; intros a En Hw.
  - unfold slice. rewrite <- En. reflexivity.
  - unfold slice. rewrite <- En. rewrite (MergerClaims.skipn_nth_cons text 0 a) by lia.
    cbn [firstn map repeat]. unfold ws_to_space at 1. rewrite (Hw a) by lia. f_equal.
    assert (Hw' : ws_between text (S a) b) by (intros k Hk; apply Hw; lia).
    pose proof (IH (S a) ltac:(lia) Hw') as IH'. unfold slice in IH'.
    replace (b - S a)%nat with n in IH' by lia. exact IH'.
Qed.

Lemma post_merge_go_text (rest : list Segment) : forall s lo hi,
  (hi <= length text)%nat ->
  seg_chain lo (s :: rest) hi -> wchain text lo (s :: rest) hi ->
  wchain text lo (post_merge_go s rest) hi.
Proof.
  induction rest as [|nx rest IH]; intros s lo hi Hhi Hc Hw; [exact Hw|].
  cbn [post_merge_go].
  destruct (can_merge (seg_script s) (seg_script nx)
            && (Z.of_nat (seg_start nx) - Z.of_nat (seg_end s) <=? 1)).
  - simpl in Hc, Hw. destruct Hc as [Hs1 [Hn1 Hc]]. destruct Hw as (W1 & W2 & W3 & W4 & W5).
    pose proof (seg_chain_lo _ _ _ Hc) as Hle.
    apply IH; [exact Hhi | simpl; split; [lia | exact Hc] |].
    simpl. split; [exact W1|]. split; [|exact W5].
    rewrite W2, W4.
    replace (Z.to_nat (Z.of_nat (seg_start nx) - Z.of_nat (seg_end s))) with
      (seg_start nx - seg_end s)%nat by lia.
    rewrite <- (map_ws_gap (seg_end s) (seg_start nx)) by (lia || exact W3).
    rewrite <- !map_app. f_equal.
    rewrite (slice_app3 (seg_end s) (seg_start nx) text (seg_end nx)) by lia.
    apply slice_app3. lia.
  - simpl in Hc, Hw. destruct Hc as [Hs1 Hc]. destruct Hw as (W1 & W2 & W3).
    simpl. split; [exact W1|]. split; [exact W2|]. apply IH; [exact Hhi | exact Hc | exact W3].
Qed.

Lemma wchain_uncovered (segs : list Segment) : forall lo hi k,
  wchain text lo segs hi -> (lo <= k < hi)%nat ->
  (forall s, In s segs -> ~ (seg_start s <= k < seg_end s)%nat) ->
  py_isspace (nth k text 0) = true.
Proof.
  induction segs as [|s segs IH]; simpl; intros lo hi k Hw Hk Hn; [apply Hw; exact Hk|].
  destruct Hw as (W1 & W2 & W3).
  destruct (Nat.lt_ge_cases k (seg_start s)) as [Hlt | Hge]; [apply W1; lia|].
  destruct (Nat.lt_ge_cases k (seg_end s)) as [Hlt' | Hge'].
  - exfalso. apply (Hn s (or_introl eq_refl)). lia.
  - apply (IH (seg_end s) hi k W3); [lia|]. intros x Hx. apply Hn. right. exact Hx.
Qed.

Lemma wchain_text (segs : list Segment) : forall lo hi,
  wchain text lo segs hi ->
  forall s, In s segs -> seg_text s = map ws_to_space (slice (seg_start s) (seg_end s) text).
Proof.
  induction segs as [|x segs IH]; simpl; intros lo hi Hw s Hs; [destruct Hs|].
  destruct Hw as (W1 & W2 & W3). destruct Hs as [<- | Hs]; [exact W2 | exact (IH _ _ W3 s Hs)].
Qed.

Lemma segment_wchain (mal : bool) :
  wchain text 0 (segment mal text) (length text).
Proof.
  unfold segment. destruct text as [|c0 t0] eqn:Et.
  - simpl. intros k Hk. simpl in Hk. lia.
  - rewrite <- Et.
    pose proof (fold_inv mal text 0 ([], [], None, 0%nat)) as Hf.
    pose proof (text_fold mal (length text) 0 ([], [], None, 0%nat)) as Ht.
    simpl in Hf. rewrite skipn_O in Ht.
    destruct (fold_left (segment_step mal) (combine (seq 0 (length text)) text)
                        ([], [], None, 0%nat)) as [[[segs ct] cur] cs].
    destruct Hf as (Hlen & Hsp & Hcur & Hch & Hns).
    { split; [reflexivity|]. split; [constructor|]. split; [discriminate|].
      split; [simpl; lia | intros s []]. }
    destruct Ht as (Hcs & Hct & Hw); [lia | | |].
    { split; [reflexivity|]. split; [constructor|]. split; [discriminate|].
      split; [simpl; lia | intros s []]. }
    { split; [lia|]. split; [reflexivity | apply ws_between_empty; lia]. }
    assert (Hfin : seg_chain 0 (if strip_nonempty ct then segs ++ [mkSeg ct cur cs (length text)]
                                else segs) (length text)
                   /\ wchain text 0 (if strip_nonempty ct then segs ++ [mkSeg ct cur cs (length text)]
                                     else segs) (length text)).
    { destruct (strip_nonempty ct) eqn:Est.
      - split; [apply flush_ok; auto|].
        eapply wchain_app; [exact Hw | apply ws_between_empty; simpl; lia | | ].
        + simpl. rewrite Hct in Hsp |- *. symmetry. apply map_ws_id. exact Hsp.
        + apply ws_between_empty. simpl. lia.
      - pose proof (strip_empty ct Hsp Est) as ->. simpl in Hlen.
        split; [eapply seg_chain_mono; [exact Hch | lia]|]. rewrite <- Hlen, Nat.add_0_r. exact Hw. }
    destruct Hfin as [Hc Hw'].
    destruct (if strip_nonempty ct then segs ++ [mkSeg ct cur cs (length text)] else segs)
      as [|s1 rest].
    + exact Hw'.
    + apply post_merge_go_text; [lia | exact Hc | exact Hw'].
Qed.

End Text.

End SegTextFacts.

Module PhraseRoundTrip.
Import Tagger PhraseMerging.

Lemma merge_added_phrase `{PyUnicode} (m : PhraseMerger) (ts ts' : list pystr) (tg : Tag) (c : Q) :
  ts <> [] -> map py_lower ts' = map py_lower ts ->
  merge (add_phrase m ts tg c) ts'
  = [mkMerged (join_space ts') ts' 0 (length ts') (Nat.ltb 1 (length ts')) (Some tg) c].
Proof.
  intros Hne Hl.
  assert (Hlen : length ts' = length ts) by (rewrite <- (length_map py_lower ts'), Hl; apply length_map).
  destruct ts' as [|t0 r0]; [destruct ts; [congruence | discriminate]|].
  unfold merge. cbn [length merge_go]. remember (length r0) as n eqn:En.
  replace (Nat.min (max_phrase_len (add_phrase m ts tg c)) (S n - 0)) with (S n).
  2:{ unfold add_phrase. cbn [max_phrase_len]. rewrite length_map, <- Hlen.
      cbn [length]. rewrite <- En. destruct (Nat.ltb (max_phrase_len m) (S n)) eqn:Eb.
      - lia.
      - apply Nat.ltb_ge in Eb. lia. }
  assert (Hs : slice 0 (0 + S n) (t0 :: r0) = t0 :: r0)
    by (unfold slice; rewrite Nat.sub_0_r, En; apply (firstn_all (t0 :: r0))).
  replace (Nat.ltb 0 (S n)) with true by reflexivity.
  cbn [try_len]. rewrite Hs. unfold add_phrase. cbn [phrases phrase_lookup].
  rewrite Hl. replace (JaMerger.list_beq_str (map py_lower ts) (map py_lower ts)) with true
    by (symmetry; apply StrFacts.list_beq_str_eq; reflexivity).
  rewrite Hs. f_equal. destruct n as [|k]; [reflexivity|]. cbn [merge_go].
  replace (Nat.ltb (0 + S (S k)) (length (t0 :: r0))) with false; [reflexivity|].
  symmetry. apply Nat.ltb_ge. cbn [length]. lia.
Qed.

End PhraseRoundTrip.

(* ------------------------------------------------------------------ *)
(** ** Further properties of the code *)

Module Extras.
Import Tagger Candidates EnhancedTagger Pipeline Format SpanExtractor Segmenter Examples.

(** Extra: [JapaneseCompoundMerger.merge_to_strings] (dictionary, rule and
    katakana merging) only joins neighbouring tokens: the concatenation of
    its output is the concatenation of its input, and it never returns
    more tokens than it was given. *)
Theorem japanese_merge_keeps_text `{PyUnicode} (dictionary_words tokens : list pystr) :
  concat (JaMerger.merge_to_strings dictionary_words tokens) = concat tokens
  /\ (length (JaMerger.merge_to_strings dictionary_words tokens) <= length tokens)%nat.
Proof. exact (JaMergerFacts.merge_to_strings_concat dictionary_words tokens). Qed.

(** Extra: [EnhancedTagger.tag] neither loses nor invents text: the
    concatenation of the result tokens is the concatenation of the input
    tokens (Japanese compounds are only joined), and there are never more
    results than input tokens. *)
Theorem tag_keeps_text `{PyUnicode} (D : DictManager) (nrm : pystr -> option pystr)
  (tokens : list pystr) (context language : option pystr) :
  concat (map r_token (tag D nrm tokens context language)) = concat tokens
  /\ (length (tag D nrm tokens context language) <= length tokens)%nat.
Proof. exact (TagConcat.tag_concat D nrm tokens context language). Qed.

(** Extra: [PhraseMerger.merge_to_strings] keeps the text: joining its
    output with single spaces gives the input joined with single spaces,
    and it never returns more strings than it was given. *)
Theorem phrase_merge_keeps_text `{PyUnicode} (m : PhraseMerging.PhraseMerger) (tokens : list pystr) :
  PhraseMerging.join_space (PhraseMerging.merge_to_strings m tokens) = PhraseMerging.join_space tokens
  /\ (length (PhraseMerging.merge_to_strings m tokens) <= length tokens)%nat.
Proof. exact (PhraseFacts.merge_join_space m tokens). Qed.

(** Extra: [PhraseMerger.add_phrase] then [merge] is a round trip: after
    adding a nonempty phrase, merging any token list equal to it up to
    case gives exactly one merged token, over all the tokens, carrying the
    phrase's tag and confidence. *)
Theorem add_phrase_then_merge `{PyUnicode} (m : PhraseMerging.PhraseMerger) (phrase tokens : list pystr)
  (tg : Tag) (confidence : Q)
  (Hne : phrase <> []) (Hcase : map py_lower tokens = map py_lower phrase) :
  PhraseMerging.merge (PhraseMerging.add_phrase m phrase tg confidence) tokens
  = [PhraseMerging.mkMerged (PhraseMerging.join_space tokens) tokens 0 (length tokens)
                            (Nat.ltb 1 (length tokens)) (Some tg) confidence].
Proof. exact (PhraseRoundTrip.merge_added_phrase m phrase tokens tg confidence Hne Hcase). Qed.

Lemma add_phrase_then_merge_witness :
  PhraseMerging.merge
    (PhraseMerging.add_phrase PhraseMerging.empty_merger [u "New"; u "Balance"] BRAND (9#10)%Q)
    [u "NEW"; u "balance"]
  = [PhraseMerging.mkMerged (u "NEW balance") [u "NEW"; u "balance"] 0 2 true (Some BRAND) (9#10)%Q].
Proof. apply add_phrase_then_merge; [discriminate | vm_compute; reflexivity]. Defined.

(** Extra: [are_tags_compatible] rejects exactly the pairs size/color and
    color/size; every other pair of tags, unknown pairs included, is
    compatible. *)
Theorem tags_incompatible_iff (tag1 tag2 : Tag) :
  are_tags_compatible tag1 tag2 = false
  <-> (tag1 = SIZE /\ tag2 = COLOR) \/ (tag1 = COLOR /\ tag2 = SIZE).
Proof. exact (CompatFacts.compat_false_iff tag1 tag2). Qed.

(** Extra: [_create_result] on a nonempty candidate list takes the first
    candidate of highest confidence as primary (tag, confidence, method),
    and adds at most one secondary tag: a tag compatible with the primary
    one that a candidate of confidence at least 0.7 carries. *)
Theorem create_result_first_best (token : pystr) (candidates : list TagCandidate)
  (Hne : candidates <> []) :
  exists pre p post,
    candidates = pre ++ p :: post
    /\ Forall (fun c => (c_conf c < c_conf p)%Q) pre
    /\ Forall (fun c => (c_conf c <= c_conf p)%Q) post
    /\ r_primary (create_result token candidates) = c_tag p
    /\ r_conf (create_result token candidates) = c_conf p
    /\ r_method (create_result token candidates) = c_method p
    /\ exists extra, r_tags (create_result token candidates) = c_tag p :: extra
       /\ (length extra <= 1)%nat
       /\ Forall (fun g => are_tags_compatible (c_tag p) g = true
                           /\ exists c, In c candidates /\ c_tag c = g /\ ((7#10) <= c_conf c)%Q)
                 extra.
Proof. exact (CreateResultFacts.create_result_spec token candidates Hne). Qed.

Lemma create_result_first_best_witness :
  exists pre p post,
    [cand SIZE (8#10) "pattern" "p"; cand BRAND (9#10) "dictionary" "d"; cand FEATURE (9#10) "rule" "r"]
    = pre ++ p :: post
    /\ Forall (fun c => (c_conf c < c_conf p)%Q) pre
    /\ Forall (fun c => (c_conf c <= c_conf p)%Q) post
    /\ r_primary (create_result (u "x") [cand SIZE (8#10) "pattern" "p"; cand BRAND (9#10) "dictionary" "d";
                                         cand FEATURE (9#10) "rule" "r"]) = c_tag p
    /\ r_conf (create_result (u "x") [cand SIZE (8#10) "pattern" "p"; cand BRAND (9#10) "dictionary" "d";
                                      cand FEATURE (9#10) "rule" "r"]) = c_conf p
    /\ r_method (create_result (u "x") [cand SIZE (8#10) "pattern" "p"; cand BRAND (9#10) "dictionary" "d";
                                        cand FEATURE (9#10) "rule" "r"]) = c_method p
    /\ exists extra, r_tags (create_result (u "x") [cand SIZE (8#10) "pattern" "p";
                                                    cand BRAND (9#10) "dictionary" "d";
                                                    cand FEATURE (9#10) "rule" "r"]) = c_tag p :: extra
       /\ (length extra <= 1)%nat
       /\ Forall (fun g => are_tags_compatible (c_tag p) g = true
                           /\ exists c, In c [cand SIZE (8#10) "pattern" "p"; cand BRAND (9#10) "dictionary" "d";
                                              cand FEATURE (9#10) "rule" "r"]
                                        /\ c_tag c = g /\ ((7#10) <= c_conf c)%Q)
                 extra.
Proof. apply create_result_first_best. discriminate. Defined.

(** Extra: when every confidence stored in the dictionaries lies in
    [[0, 1]], every confidence [EnhancedTagger.tag] reports lies in
    [[0, 1]] (the built-in candidates, boosts and the cap at 1 keep it
    there). *)
Theorem tag_confidence_in_unit `{PyUnicode} (D : DictManager) (nrm : pystr -> option pystr)
  (HD : forall dn w c, dm_get_entry D dn w = Some (Some c) -> (0 <= c <= 1)%Q)
  (tokens : list pystr) (context language : option pystr) :
  forall r, In r (tag D nrm tokens context language) -> (0 <= r_conf r <= 1)%Q.
Proof. exact (ConfFacts.tag_bounded D nrm HD tokens context language). Qed.

Lemma tag_confidence_in_unit_witness :
  (forall dn w c, dm_get_entry D_3m dn w = Some (Some c) -> (0 <= c <= 1)%Q)
  /\ forall r, In r (tag D_3m no_normalize [u "3m"; u "running"; u "shoes"] None None) ->
       (0 <= r_conf r <= 1)%Q.
Proof.
  assert (HD : forall dn w c, dm_get_entry D_3m dn w = Some (Some c) -> (0 <= c <= 1)%Q).
  { intros dn w c E. simpl in E. destruct (str_eqb dn (u "brands") && str_eqb w (u "3m"));
      [injection E as <-; split; unfold Qle; simpl; lia | discriminate]. }
  split; [exact HD|]. exact (tag_confidence_in_unit D_3m no_normalize HD _ None None).
Defined.

(** Extra: every result of [EnhancedTagger.tag] lists its primary tag
    first and at most one further tag, which is compatible with the
    primary one (the numeric-unit and context rules keep this shape). *)
Theorem tag_tags_shape `{PyUnicode} (D : DictManager) (nrm : pystr -> option pystr)
  (tokens : list pystr) (context language : option pystr) :
  forall r, In r (tag D nrm tokens context language) ->
    exists extra, r_tags r = r_primary r :: extra /\ (length extra <= 1)%nat
                  /\ Forall (fun g => are_tags_compatible (r_primary r) g = true) extra.
Proof. exact (ShapeFacts.tag_results_shape D nrm tokens context language). Qed.

Lemma tag_tags_shape_witness :
  In (hd dummy_result (tag D_3m no_normalize [u "3m"; u "10"; u "cm"] None None)) (tag D_3m no_normalize [u "3m"; u "10"; u "cm"] None None)
  /\ exists extra, r_tags (hd dummy_result (tag D_3m no_normalize [u "3m"; u "10"; u "cm"] None None)) = r_primary (hd dummy_result (tag D_3m no_normalize [u "3m"; u "10"; u "cm"] None None)) :: extra
       /\ (length extra <= 1)%nat
       /\ Forall (fun g => are_tags_compatible (r_primary (hd dummy_result (tag D_3m no_normalize [u "3m"; u "10"; u "cm"] None None))) g = true) extra.
Proof.
  assert (Hin : In (hd dummy_result (tag D_3m no_normalize [u "3m"; u "10"; u "cm"] None None)) (tag D_3m no_normalize [u "3m"; u "10"; u "cm"] None None))
    by (vm_compute; left; reflexivity).
  split; [exact Hin | exact (tag_tags_shape D_3m no_normalize _ None None _ Hin)].
Defined.

(** Extra: in the output of [_format_output], the summary entry of a tag
    lists, in order, the tokens of the results whose primary tag it is,
    and a tag no result has as primary has no entry. *)
Theorem format_output_summary_groups (round2 : Q -> Q) (original : pystr) (tokens : list pystr)
  (tag_results : list TagResult) (t : Tag) :
  summary_get t (tag_summary (format_output round2 original tokens tag_results))
  = match map r_token (filter (fun r => tag_eqb (r_primary r) t) tag_results) with
    | [] => None
    | l => Some l
    end.
Proof. exact (FormatFacts.format_output_summary round2 original tokens tag_results t). Qed.

(** Extra: [Trie.insert] then [search_longest] is a round trip: after
    inserting a nonempty word (whose lower-casing keeps its length), the
    longest match at the start of that word is the whole word, with the
    data just inserted. *)
Theorem trie_insert_then_search `{PyUnicode} (root : TrieNode) (word : pystr) (d : PhraseData)
  (Hne : word <> []) (Hlen : length (py_lower word) = length word) :
  search_longest (trie_insert root word d) word 0 = Some (word, length word, Some d).
Proof. exact (TrieFacts.search_inserted root word d Hne Hlen). Qed.

Lemma trie_insert_then_search_witness :
  search_longest (trie_insert (latin_trie nb_extractor) (u "Nike") brand_data) (u "Nike") 0
  = Some (u "Nike", 4%nat, Some brand_data).
Proof. apply trie_insert_then_search; [discriminate | reflexivity]. Defined.

(** Extra: every span [SpanPhraseExtractor.extract] returns is a nonempty
    interval inside the text whose text is the slice it covers, and the
    locked ranges it returns are exactly the spans' intervals, in the same
    order (when lower-casing keeps the text's length). *)
Theorem extract_spans_in_text `{PyUnicode} (ex : Extractor) (text : pystr)
  (H1 : length (py_lower text) = length text)
  (H2 : length (py_lower (py_lower text)) = length text) :
  snd (extract ex text) = map (fun s => (sp_start s, sp_end s)) (fst (extract ex text))
  /\ forall s, In s (fst (extract ex text)) ->
       (sp_start s < sp_end s <= length text)%nat /\ sp_text s = slice (sp_start s) (sp_end s) text.
Proof. exact (ExtractFacts.extract_spans_ok ex text H1 H2). Qed.

Lemma extract_spans_in_text_witness :
  snd (extract nb_extractor (u "new balance size 10"))
  = map (fun s => (sp_start s, sp_end s)) (fst (extract nb_extractor (u "new balance size 10")))
  /\ forall s, In s (fst (extract nb_extractor (u "new balance size 10"))) ->
       (sp_start s < sp_end s <= length (u "new balance size 10"))%nat
       /\ sp_text s = slice (sp_start s) (sp_end s) (u "new balance size 10").
Proof. apply extract_spans_in_text; reflexivity. Defined.

(** Extra: [ScriptSegmenter.segment] drops nothing but whitespace: each
    segment's text is the input over its interval with whitespace turned
    into plain spaces (as the post-merge joins do), and every position of
    the input outside all segments holds whitespace. *)
Theorem segment_texts_match_input `{PyUnicode} (merge_adjacent_latin : bool) (text : pystr) :
  (forall s, In s (segment merge_adjacent_latin text) ->
     seg_text s = map Views.ws_to_space (slice (seg_start s) (seg_end s) text))
  /\ (forall k, (k < length text)%nat ->
        (forall s, In s (segment merge_adjacent_latin text) -> ~ (seg_start s <= k < seg_end s)%nat) ->
        py_isspace (nth k text 0) = true).
Proof.
  pose proof (SegTextFacts.segment_wchain text merge_adjacent_latin) as Hw. split.
  - intros s Hs. exact (SegTextFacts.wchain_text text _ _ _ Hw s Hs).
  - intros k Hk Hn. exact (SegTextFacts.wchain_uncovered text _ 0 _ k Hw ltac:(lia) Hn).
Qed.

(** Extra: in the response of the [tokenize_batch] route the success count
    never exceeds the total, and equals it exactly when no keyword's
    processing raises. *)
Theorem tokenize_batch_success_count (process : pystr -> PyResult Output) (keywords : list pystr) :
  (success_count (tokenize_batch process keywords) <= total (tokenize_batch process keywords))%nat
  /\ (success_count (tokenize_batch process keywords) = total (tokenize_batch process keywords)
      <-> forall k, In k keywords -> exists r, process k = Ok r).
Proof.
  unfold tokenize_batch. cbn [success_count total].
  set (f := fun k => match process k with Ok _ => true | Raise _ => false end).
  assert (Hf : forall k, f k = true <-> exists r, process k = Ok r).
  { intros k. unfold f. destruct (process k); split; intros Hk; try discriminate;
      [exists a; reflexivity | reflexivity | destruct Hk; discriminate]. }
  split; [apply filter_length_le|]. rewrite <- Forall_forall.
  induction keywords as [|k ks IH]; [split; [constructor | reflexivity]|].
  cbn [filter length]. pose proof (filter_length_le f ks). rewrite Forall_cons_iff, <- IH, <- Hf.
  destruct (f k); cbn [length].
  - split; [intros E; split; [reflexivity | lia] | intros [_ E]; lia].
  - split; [intros E; lia | intros [E _]; discriminate].
Qed.

End Extras.
